(** * English Buddy: the analysis pipeline and its persistence

    A shallow embedding of the Python sources

      - [lib/language_detect.py]  (admission filter)
      - [lib/claude_api.py]       (analyzer gateway, response parsing)
      - [lib/db.py]               (SQLite store and statistics)
      - [lib/obsidian.py]         (daily markdown log)
      - [scripts/check_grammar.py], [scripts/recall.py] (orchestrators)

    Python [str] values are lists of Unicode code points, JSON payloads are
    a small inductive type, and code that touches the file system, the
    database or the network threads an explicit [world] through a state and
    exception monad. *)

From Stdlib Require Import ZArith List String Ascii Bool Lia.
From Stdlib Require Import Floats.SpecFloat Sorting.Sorted.
From stdpp Require Import base option list gmap.
Import ListNotations.

Set Warnings "-register-all".
Local Open Scope Z_scope.

(** ** Python strings *)

(** A [str] is a sequence of code points. *)
Definition text := list Z.

Definition code (a : ascii) : Z := Z.of_N (N_of_ascii a).

(** ASCII literals. *)
Fixpoint str (s : string) : text :=
  match s with
  | EmptyString => []
  | String a r => code a :: str r
  end.

Definition text_eqb (a b : text) : bool := bool_decide (a = b).

(** [a <= b] on [str]: lexicographic on code points. *)
Fixpoint text_leb (a b : text) : bool :=
  match a, b with
  | [], _ => true
  | _ :: _, [] => false
  | x :: a', y :: b' => (x <? y) || ((x =? y) && text_leb a' b')
  end.

(** [Py_UNICODE_ISSPACE]: the characters that [str.strip], [str.split] and
    the regular-expression class [\s] treat as white space. *)
Definition isspace (c : Z) : bool :=
  ((9 <=? c) && (c <=? 13)) || ((28 <=? c) && (c <=? 32))
  || (c =? 133) || (c =? 160) || (c =? 5760)
  || ((8192 <=? c) && (c <=? 8202))
  || (c =? 8232) || (c =? 8233) || (c =? 8239) || (c =? 8287) || (c =? 12288).

(** [str.lower] on one character, as far as a comparison with ['a'] and
    ['z'] can observe it: besides [A-Z], only U+0130 (lower-cased to
    ["i"] followed by U+0307) and U+212A (the Kelvin sign, lower-cased to
    ["k"]) have a lower-case form that starts with an ASCII letter; every
    other character lower-cases to a string that starts outside [a-z], for
    which the character itself stands here. *)
Definition lower (c : Z) : text :=
  if (65 <=? c) && (c <=? 90) then [c + 32]
  else if c =? 304 then [105; 775]
  else if c =? 8490 then [107]
  else [c].

Fixpoint lstrip (t : text) : text :=
  match t with
  | c :: r => if isspace c then lstrip r else t
  | [] => []
  end.

(** [str.strip()] *)
Definition strip (t : text) : text := rev (lstrip (rev (lstrip t))).

(** [str.split()]: the maximal runs of non-space characters. [cur] holds
    the current run, reversed. *)
Fixpoint split_from (cur : text) (t : text) : list text :=
  match t with
  | [] => match cur with [] => [] | _ => [rev cur] end
  | c :: r =>
      if isspace c
      then match cur with [] => split_from [] r | _ => rev cur :: split_from [] r end
      else split_from (c :: cur) r
  end.

Definition split (t : text) : list text := split_from [] t.

Definition startswith (p t : text) : bool := text_eqb (firstn (length p) t) p.

(** ** lib/language_detect.py *)
Module language_detect.

(** ['\u4e00' <= char <= '\u9fff'] *)
Definition is_cjk (c : Z) : bool := (19968 <=? c) && (c <=? 40959).

(** ['a' <= char.lower() <= 'z'] *)
Definition is_latin (c : Z) : bool :=
  text_leb (str "a") (lower c) && text_leb (lower c) (str "z").

(** The class [[a-zA-Z]]. *)
Definition ascii_letter (c : Z) : bool :=
  ((97 <=? c) && (c <=? 122)) || ((65 <=? c) && (c <=? 90)).

(** [re.compile(r'[a-zA-Z]{2,}').search(text)] finds a match exactly when
    two adjacent characters are both in the class. *)
Fixpoint contains_english (t : text) : bool :=
  match t with
  | c1 :: r =>
      match r with
      | c2 :: _ => (ascii_letter c1 && ascii_letter c2) || contains_english r
      | [] => false
      end
  | [] => false
  end.

(** The part of the Unicode character database that the regular expression
    [[\s\d\W]+] consults, with the two facts about it that the filter relies
    on: the letters that [is_latin] accepts are alphanumeric and are not
    decimal digits. *)
Class UnicodeData := {
  isalnum : Z -> bool;         (* Py_UNICODE_ISALNUM *)
  isdecimal : Z -> bool;       (* Py_UNICODE_ISDECIMAL, category Nd *)
  latin_isalnum : forall c, is_latin c = true -> isalnum c = true;
  latin_not_decimal : forall c, is_latin c = true -> isdecimal c = false;
}.

Section Filter.
Context `{UnicodeData}.

(** One character of the class [[\s\d\W]]; [\w] is alphanumeric or ['_']. *)
Definition stripped_class (c : Z) : bool :=
  isspace c || isdecimal c || negb (isalnum c || (c =? 95)).

(** [re.sub(r'[\s\d\W]+', '', text)] *)
Definition cleaned (t : text) : text :=
  List.filter (fun c => negb (stripped_class c)) t.

(** The loop of [is_pure_chinese]. *)
Fixpoint all_chars_pass (cs : text) : bool :=
  match cs with
  | [] => true
  | c :: r =>
      if is_cjk c then all_chars_pass r
      else if is_latin c then false
      else all_chars_pass r
  end.

Definition is_pure_chinese (t : text) : bool :=
  match cleaned t with
  | [] => true
  | cs => all_chars_pass cs
  end.

End Filter.

(** The counting loop of [is_primarily_chinese]. *)
Fixpoint count_chars (t : text) (chinese_count english_count : Z) : Z * Z :=
  match t with
  | [] => (chinese_count, english_count)
  | c :: r =>
      if is_cjk c then count_chars r (chinese_count + 1) english_count
      else if is_latin c then count_chars r chinese_count (english_count + 1)
      else count_chars r chinese_count english_count
  end.

(** Binary64 arithmetic. *)
Definition prec : Z := 53.
Definition emax : Z := 1024.

(** Conversion of an [int] operand to [float]. *)
Definition float_of_int (n : Z) : spec_float := binary_normalize prec emax n 0 false.

(** The literal [0.3]: 5404319552844595 * 2^-54. *)
Definition point_three : spec_float := S754_finite false 5404319552844595 (-54).

(** [i > f] for an [int] and a [float]: Python compares the exact values. *)
Definition int_gt_float (i : Z) (f : spec_float) : bool :=
  match f with
  | S754_nan => false
  | S754_infinity s => s
  | S754_zero _ => 0 <? i
  | S754_finite s m e =>
      let v := if s then Z.neg m else Z.pos m in
      if 0 <=? e then v * 2 ^ e <? i else v <? i * 2 ^ (- e)
  end.

Definition is_primarily_chinese (t : text) : bool :=
  let '(chinese_count, english_count) := count_chars t 0 0 in
  if chinese_count + english_count =? 0 then true
  else int_gt_float chinese_count
         (SFmul prec emax (float_of_int (chinese_count + english_count)) point_three).

Section Admission.
Context `{UnicodeData}.

Definition should_check_grammar (t : text) : bool :=
  match t with
  | [] => false
  | _ =>
    match strip t with
    | [] => false
    | _ =>
      if startswith (str "/") (strip t) then false
      else if is_pure_chinese t then false
      else if is_primarily_chinese t then false
      else if negb (contains_english t) then false
      else if (Z.of_nat (length (split t)) <? 3) then false
      else true
    end
  end.

End Admission.

End language_detect.

(** ** Python values and exceptions *)

(** What [json.loads] produces: [None], [bool], [int], [float], [str],
    [list] and [dict]. A [dict] is kept as its items in insertion order,
    with distinct keys. *)
Inductive json :=
| JNull
| JBool (b : bool)
| JInt (z : Z)
| JFloat (f : spec_float)
| JStr (s : text)
| JArr (l : list json)
| JObj (items : list (text * json)).

(** [ClientError] stands for the exception with which the constructor of
    the API client fails. *)
Inductive exn :=
| AttributeError | KeyError | TypeError | OverflowError
| UnicodeEncodeError
| OSError | DatabaseError | ClientError
| SystemExit (status : Z).

Inductive result (A : Type) :=
| Ok (a : A)
| Raise (e : exn).
Arguments Ok {A} a.
Arguments Raise {A} e.

Module py.

(** Truth value testing. *)
Definition truthy (v : json) : bool :=
  match v with
  | JNull => false
  | JBool b => b
  | JInt z => negb (z =? 0)
  | JFloat f => match f with S754_zero _ => false | _ => true end
  | JStr s => match s with [] => false | _ => true end
  | JArr l => match l with [] => false | _ => true end
  | JObj l => match l with [] => false | _ => true end
  end.

Fixpoint lookup_item (k : text) (items : list (text * json)) : option json :=
  match items with
  | [] => None
  | (k', v) :: r => if text_eqb k' k then Some v else lookup_item k r
  end.

(** [d.get(k, default)]; only a [dict] has the method. *)
Definition get (d : json) (k : text) (default : json) : result json :=
  match d with
  | JObj items => Ok (from_option id default (lookup_item k items))
  | _ => Raise AttributeError
  end.

(** [d[k]] with a [str] key. *)
Definition subscript (d : json) (k : text) : result json :=
  match d with
  | JObj items =>
      match lookup_item k items with Some v => Ok v | None => Raise KeyError end
  | _ => Raise TypeError
  end.

(** [for x in v]: the elements of a list, the characters of a string, the
    keys of a dict. *)
Definition iter (v : json) : result (list json) :=
  match v with
  | JArr l => Ok l
  | JStr s => Ok (map (fun c => JStr [c]) s)
  | JObj items => Ok (map (fun kv => JStr (fst kv)) items)
  | _ => Raise TypeError
  end.

(** [len(v)] *)
Definition len (v : json) : result Z :=
  match v with
  | JStr s => Ok (Z.of_nat (length s))
  | JArr l => Ok (Z.of_nat (length l))
  | JObj items => Ok (Z.of_nat (length items))
  | _ => Raise TypeError
  end.

(** [s.lower()]; see [lower]. *)
Definition lower_str (s : text) : text := concat (map lower s).

(** [v.lower()]; only a [str] has the method. *)
Definition lower_method (v : json) : result text :=
  match v with
  | JStr s => Ok (lower_str s)
  | _ => Raise AttributeError
  end.

(** [a or b] *)
Definition or_else (a b : json) : json := if truthy a then a else b.

End py.

(** ** Calendar *)

(** A [date] is its proleptic Gregorian ordinal ([date.toordinal()]); the
    store keeps dates as ISO-8601 text, whose binary string order is the
    order of the ordinals for every representable date. *)
Definition date := Z.

(** The reading of [datetime.now()]: the day and the microsecond in it. *)
Record timestamp := { ts_date : date; ts_micros : Z }.

Definition MINORDINAL : Z := 1.
Definition MAXORDINAL : Z := 3652059.

(** [date.weekday()]: Monday is 0. *)
Definition weekday (d : date) : Z := (d + 6) mod 7.

(** [d - timedelta(days=n)] *)
Definition date_sub_days (d : date) (n : Z) : result date :=
  if (Z.abs n <=? 999999999) && (MINORDINAL <=? d - n) && (d - n <=? MAXORDINAL)
  then Ok (d - n) else Raise OverflowError.

(** [d + timedelta(days=n)] *)
Definition date_add_days (d : date) (n : Z) : result date :=
  if (Z.abs n <=? 999999999) && (MINORDINAL <=? d + n) && (d + n <=? MAXORDINAL)
  then Ok (d + n) else Raise OverflowError.

(** ** The SQLite store *)
Module sqlite.

Inductive value :=
| SNull
| SInt (z : Z)
| SReal (f : spec_float)
| SText (s : text).

(** A surrogate code point, which UTF-8 does not encode. *)
Definition surrogate (c : Z) : bool := (55296 <=? c) && (c <=? 57343).

(** Parameter binding: [None], [int] (and [bool]), [float] and [str] are
    accepted, a [list] or a [dict] is refused. An [int] must fit 64 bits,
    a [str] must encode to UTF-8, and NaN is bound as NULL. *)
Definition bind_param (v : json) : result value :=
  match v with
  | JNull => Ok SNull
  | JBool b => Ok (SInt (if b then 1 else 0))
  | JInt z =>
      if (- 2 ^ 63 <=? z) && (z <? 2 ^ 63) then Ok (SInt z) else Raise OverflowError
  | JFloat f => Ok (match f with S754_nan => SNull | _ => SReal f end)
  | JStr s => if existsb surrogate s then Raise UnicodeEncodeError else Ok (SText s)
  | JArr _ | JObj _ => Raise DatabaseError
  end.

(** Table [corrections]. *)
Record correction_row := {
  c_id : Z;
  c_timestamp : timestamp;
  c_original_text : value;
  c_user_text : value;
  c_better_expression : value;
  c_summary : value;
}.

(** Table [errors]. *)
Record error_row := {
  e_id : Z;
  e_correction_id : Z;
  e_original : value;
  e_correction : value;
  e_explanation : value;
  e_category : text;
}.

(** Table [daily_stats], without its key. *)
Record stats_row := {
  total_corrections : Z;
  spelling_count : Z;
  grammar_count : Z;
  style_count : Z;
  vocabulary_count : Z;
}.

(** The three tables; [daily_stats] has [date] as its primary key. The
    two [seq_] fields are the AUTOINCREMENT counters. *)
Record database := {
  corrections : list correction_row;
  errors : list error_row;
  daily_stats : gmap Z stats_row;
  seq_corrections : Z;
  seq_errors : Z;
}.

Definition empty : database :=
  {| corrections := []; errors := []; daily_stats := ∅;
     seq_corrections := 0; seq_errors := 0 |}.

(** A connection: the committed content of the file, the content as this
    connection's open transaction sees it, and the number of operations
    issued so far. [fault k] tells whether the [k]-th operation fails in
    the engine (I/O error, full disk, locked file). *)
Record connection := {
  committed : database;
  working : database;
  issued : nat;
}.

Definition connect (d : database) (issued0 : nat) : connection :=
  {| committed := d; working := d; issued := issued0 |}.

Section Statements.
Variable fault : nat -> bool.

(** [cursor.execute]: run one statement inside the open transaction. *)
Definition execute {A} (stmt : database -> database * A) (c : connection)
  : result A * connection :=
  if fault (issued c)
  then (Raise DatabaseError,
        {| committed := committed c; working := working c; issued := S (issued c) |})
  else let '(d', a) := stmt (working c) in
       (Ok a, {| committed := committed c; working := d'; issued := S (issued c) |}).

(** [conn.commit()] *)
Definition commit (c : connection) : result unit * connection :=
  if fault (issued c)
  then (Raise DatabaseError,
        {| committed := committed c; working := working c; issued := S (issued c) |})
  else (Ok tt, {| committed := working c; working := working c; issued := S (issued c) |}).

End Statements.

(** [INSERT INTO corrections (...) VALUES (?, ?, ?, ?, ?)], giving
    [cursor.lastrowid]. *)
Definition insert_correction (ts : timestamp) (original_text user_text better_expression summary : value)
    (d : database) : database * Z :=
  let new_id := seq_corrections d + 1 in
  ({| corrections := corrections d ++
        [{| c_id := new_id; c_timestamp := ts; c_original_text := original_text;
            c_user_text := user_text; c_better_expression := better_expression;
            c_summary := summary |}];
      errors := errors d;
      daily_stats := daily_stats d;
      seq_corrections := new_id;
      seq_errors := seq_errors d |}, new_id).

(** [INSERT INTO errors (...) VALUES (?, ?, ?, ?, ?)] *)
Definition insert_error (correction_id : Z) (original correction explanation : value)
    (category : text) (d : database) : database * unit :=
  let new_id := seq_errors d + 1 in
  ({| corrections := corrections d;
      errors := errors d ++
        [{| e_id := new_id; e_correction_id := correction_id; e_original := original;
            e_correction := correction; e_explanation := explanation;
            e_category := category |}];
      daily_stats := daily_stats d;
      seq_corrections := seq_corrections d;
      seq_errors := new_id |}, tt).

(** [INSERT INTO daily_stats ... VALUES (?, 1, ?, ?, ?, ?)
     ON CONFLICT(date) DO UPDATE SET total_corrections = total_corrections + 1, ...] *)
Definition upsert_daily_stats (today : date) (spelling grammar style vocabulary : Z)
    (d : database) : database * unit :=
  let row :=
    match daily_stats d !! today with
    | None =>
        {| total_corrections := 1; spelling_count := spelling; grammar_count := grammar;
           style_count := style; vocabulary_count := vocabulary |}
    | Some r =>
        {| total_corrections := total_corrections r + 1;
           spelling_count := spelling_count r + spelling;
           grammar_count := grammar_count r + grammar;
           style_count := style_count r + style;
           vocabulary_count := vocabulary_count r + vocabulary |}
    end in
  ({| corrections := corrections d;
      errors := errors d;
      daily_stats := <[today := row]> (daily_stats d);
      seq_corrections := seq_corrections d;
      seq_errors := seq_errors d |}, tt).

End sqlite.

(** ** State and exceptions *)

(** A computation over a state [S] that returns or raises. *)
Definition SE (S A : Type) : Type := S -> result A * S.

Definition ret {S A} (a : A) : SE S A := fun s => (Ok a, s).

Definition bind {S A B} (m : SE S A) (k : A -> SE S B) : SE S B :=
  fun s => match m s with
           | (Ok a, s') => k a s'
           | (Raise e, s') => (Raise e, s')
           end.

(** A pure step that may raise. *)
Definition lift {S A} (r : result A) : SE S A := fun s => (r, s).

Declare Scope se_scope.
Delimit Scope se_scope with se.
Notation "x <- m ;; k" := (bind m (fun x => k))
  (at level 100, m at next level, right associativity) : se_scope.
Notation "m ;;; k" := (bind m (fun _ => k))
  (at level 100, right associativity) : se_scope.

(** ** lib/db.py *)
Module db.
Import sqlite.
Local Open Scope se_scope.

Definition category_counts0 : gmap text Z :=
  <[str "spelling" := 0]> (<[str "grammar" := 0]>
    (<[str "style" := 0]> (<[str "vocabulary" := 0]> ∅))).

Section WithFaults.
Variable fault : nat -> bool.

(** [init_db()]: a connection of its own, three [CREATE TABLE IF NOT
    EXISTS] and a commit; the rows are left as they are. *)
Definition init_db : SE connection unit :=
  execute fault (fun d => (d, tt)) ;;;
  execute fault (fun d => (d, tt)) ;;;
  execute fault (fun d => (d, tt)) ;;;
  commit fault.

(** The body of [for error in errors]. *)
Fixpoint insert_errors (correction_id : Z) (errors : list json)
    (category_counts : gmap text Z) : SE connection (gmap text Z) :=
  match errors with
  | [] => ret category_counts
  | error :: rest =>
      raw <- lift (py.get error (str "category") (JStr (str "grammar"))) ;;
      category <- lift (py.lower_method raw) ;;
      let category :=
        match category_counts !! category with
        | None => str "grammar"
        | Some _ => category
        end in
      let category_counts :=
        <[category := category_counts !!! category + 1]> category_counts in
      original <- lift (py.get error (str "original") (JStr [])) ;;
      correction <- lift (py.get error (str "correction") (JStr [])) ;;
      explanation <- lift (py.get error (str "explanation") (JStr [])) ;;
      original <- lift (bind_param original) ;;
      correction <- lift (bind_param correction) ;;
      explanation <- lift (bind_param explanation) ;;
      execute fault (insert_error correction_id original correction explanation category) ;;;
      insert_errors correction_id rest category_counts
  end.

(** What [save_correction] does on its connection, from the first
    [INSERT] to [conn.commit()]. [now] is the reading of [datetime.now()],
    [today] the later reading of [date.today()]. *)
Definition save_correction_body (now : timestamp) (today : date)
    (original_text user_text errors better_expression summary : json)
  : SE connection Z :=
  original_text <- lift (bind_param original_text) ;;
  user_text <- lift (bind_param user_text) ;;
  better_expression <- lift (bind_param better_expression) ;;
  summary <- lift (bind_param summary) ;;
  correction_id <-
    execute fault (insert_correction now original_text user_text better_expression summary) ;;
  errors <- lift (py.iter errors) ;;
  category_counts <- insert_errors correction_id errors category_counts0 ;;
  execute fault
    (upsert_daily_stats today
       (category_counts !!! str "spelling") (category_counts !!! str "grammar")
       (category_counts !!! str "style") (category_counts !!! str "vocabulary")) ;;;
  commit fault ;;;
  ret correction_id.

(** [save_correction]: the committed content of the store after the call,
    whether it returned the new id or raised. A connection that is dropped
    with an open transaction loses that transaction. *)
Definition save_correction (now : timestamp) (today : date)
    (original_text user_text errors better_expression summary : json)
    (d : database) : result Z * database :=
  match init_db (connect d 0) with
  | (Raise e, c0) => (Raise e, committed c0)
  | (Ok _, c0) =>
      let '(r, c) :=
        save_correction_body now today original_text user_text errors
          better_expression summary (connect (committed c0) (issued c0)) in
      (r, committed c)
  end.

End WithFaults.

Local Close Scope se_scope.

Definition zero_stats : stats_row :=
  {| total_corrections := 0; spelling_count := 0; grammar_count := 0;
     style_count := 0; vocabulary_count := 0 |}.

(** [get_daily_stats(target_date)]; [None] stands for the default, today. *)
Definition get_daily_stats (today : date) (target_date : option date) (d : database)
  : date * stats_row :=
  let target_date := from_option id today target_date in
  match daily_stats d !! target_date with
  | Some row => (target_date, row)
  | None => (target_date, zero_stats)
  end.

(** The rows of [daily_stats] selected by [WHERE date BETWEEN lo AND hi]. *)
Definition rows_between (lo hi : date) (d : database) : list (date * stats_row) :=
  List.filter (fun kv => (lo <=? fst kv) && (fst kv <=? hi)) (map_to_list (daily_stats d)).

(** [SUM(column)], read through [row[...] or 0]. *)
Definition sum_of (column : stats_row -> Z) (rows : list (date * stats_row)) : Z :=
  foldr Z.add 0 (map (fun kv => column (snd kv)) rows).

(** [COUNT( * )] *)
Definition count_of (rows : list (date * stats_row)) : Z := Z.of_nat (length rows).

Record weekly_stats := {
  week_start : date;
  week_end : date;
  week_stats : stats_row;
}.

(** [get_weekly_stats(weeks_back)] *)
Definition get_weekly_stats (today : date) (weeks_back : Z) (d : database)
  : result weekly_stats :=
  match date_sub_days today (weekday today + 7 * weeks_back) with
  | Raise e => Raise e
  | Ok start_of_week =>
    match date_add_days start_of_week 6 with
    | Raise e => Raise e
    | Ok end_of_week =>
        let rows := rows_between start_of_week end_of_week d in
        Ok {| week_start := start_of_week;
              week_end := end_of_week;
              week_stats :=
                {| total_corrections := count_of rows;
                   spelling_count := sum_of spelling_count rows;
                   grammar_count := sum_of grammar_count rows;
                   style_count := sum_of style_count rows;
                   vocabulary_count := sum_of vocabulary_count rows |} |}
    end
  end.

Record all_time_stats := {
  total_days : Z;
  all_stats : stats_row;
}.

(** [get_all_time_stats()] *)
Definition get_all_time_stats (d : database) : all_time_stats :=
  let rows := map_to_list (daily_stats d) in
  {| total_days := count_of rows;
     all_stats :=
       {| total_corrections := sum_of total_corrections rows;
          spelling_count := sum_of spelling_count rows;
          grammar_count := sum_of grammar_count rows;
          style_count := sum_of style_count rows;
          vocabulary_count := sum_of vocabulary_count rows |} |}.

(** The order of two timestamps, which is the order of their ISO-8601
    text as the store compares it. *)
Definition ts_leb (a b : timestamp) : bool :=
  (ts_date a <? ts_date b) || ((ts_date a =? ts_date b) && (ts_micros a <=? ts_micros b)).

(** [ORDER BY timestamp DESC]. SQLite leaves the order of rows with equal
    timestamps open; they stay in the order of the table here. *)
Fixpoint insert_desc (c : correction_row) (sorted : list correction_row)
  : list correction_row :=
  match sorted with
  | [] => [c]
  | c' :: rest =>
      if ts_leb (c_timestamp c') (c_timestamp c)
      then c :: sorted
      else c' :: insert_desc c rest
  end.

Definition order_by_timestamp_desc (rows : list correction_row) : list correction_row :=
  foldr insert_desc [] rows.

(** A row of [get_daily_corrections]: the Correction, and under
    ["errors"] its ErrorFindings. *)
Record daily_correction := {
  dc_row : correction_row;
  dc_errors : list error_row;
}.

(** [get_daily_corrections(target_date)]; [None] stands for the default,
    today. *)
Definition get_daily_corrections (today : date) (target_date : option date) (d : database)
  : list daily_correction :=
  let target_date := from_option id today target_date in
  map (fun c =>
         {| dc_row := c;
            dc_errors := List.filter (fun e => e_correction_id e =? c_id c) (errors d) |})
    (order_by_timestamp_desc
       (List.filter (fun c => ts_date (c_timestamp c) =? target_date) (corrections d))).

End db.

(** ** lib/obsidian.py *)
Module obsidian.

(** One appended record of a daily file, before it is rendered to text:
    the heading, the displayed text, the itemized errors (original,
    correction, explanation, category), the rephrasing and the summary. *)
Record block := {
  b_heading : timestamp;
  b_original : json;
  b_errors : list (json * json * json * json);
  b_better : option json;
  b_summary : option json;
}.

(** The daily files under [OBSIDIAN_PATH], by date, each as the records
    appended to it so far. *)
Definition vault := gmap Z (list block).

(** The lines of the [**Errors:**] section. *)
Fixpoint error_lines (errs : list json) : result (list (json * json * json * json)) :=
  match errs with
  | [] => Ok []
  | err :: rest =>
      match py.get err (str "category") (JStr (str "grammar")) with
      | Raise e => Raise e
      | Ok category =>
        match py.subscript err (str "original") with
        | Raise e => Raise e
        | Ok original =>
          match py.subscript err (str "correction") with
          | Raise e => Raise e
          | Ok correction =>
            match py.get err (str "explanation") (JStr []) with
            | Raise e => Raise e
            | Ok explanation =>
              match error_lines rest with
              | Raise e => Raise e
              | Ok lines => Ok ((original, correction, explanation, category) :: lines)
              end
            end
          end
        end
      end
  end.

(** What [open(file_path, 'a')] and [f.write] meet: the record is
    appended; the file cannot be opened and stays as it was, absent when it
    was absent; or the file is opened, which creates it when it was absent,
    and the write fails. *)
Inductive append_outcome := Appended | OpenFailed | WriteFailed.

Local Open Scope se_scope.

(** [save_correction(user_message, analysis, target_date)]. [mkdir_fails]
    tells whether [OBSIDIAN_PATH.mkdir(parents=True, exist_ok=True)] raises,
    [append] what opening and writing the daily file meet. [today] is the
    day of the first [datetime.now()], read for the name of the file when
    no [target_date] is given; [now] is the later [datetime.now()] of the
    heading. A write that fails adds no record to the file that [open] has
    left. *)
Definition save_correction (mkdir_fails : bool) (append : append_outcome)
    (today : date) (now : timestamp)
    (user_message : json) (analysis : json) (target_date : option date)
  : SE vault bool :=
  (* file_path = get_daily_file_path(target_date) *)
  let target_date := from_option id today target_date in
  (if mkdir_fails then lift (Raise OSError) else ret tt) ;;;
  user_text <- lift (py.get analysis (str "user_text") JNull) ;;
  let display_text := py.or_else user_text user_message in
  has_errors <- lift (py.get analysis (str "has_errors") JNull) ;;
  errors <- (if py.truthy has_errors
             then lift (py.get analysis (str "errors") JNull)
             else ret has_errors) ;;
  lines <- (if py.truthy errors
            then errs <- lift (py.subscript analysis (str "errors")) ;;
                 errs <- lift (py.iter errs) ;;
                 lift (error_lines errs)
            else ret []) ;;
  better <- lift (py.get analysis (str "better_expression") JNull) ;;
  summary <- lift (py.get analysis (str "summary") JNull) ;;
  let entry :=
    {| b_heading := now;
       b_original := display_text;
       b_errors := lines;
       b_better := if py.truthy better then Some better else None;
       b_summary := if py.truthy summary then Some summary else None |} in
  (* try: open(file_path, 'a') ... return True / except: return False *)
  fun files =>
    let records := from_option id [] (files !! target_date) in
    match append with
    | Appended => (Ok true, <[target_date := records ++ [entry]]> files)
    | OpenFailed => (Ok false, files)
    | WriteFailed => (Ok false, <[target_date := records]> files)
    end.


End obsidian.

(** ** lib/claude_api.py *)
Module claude_api.

(** What [json.loads] does with a text: a value, [JSONDecodeError], or
    another exception (such as [RecursionError]). *)
Inductive loaded :=
| Loaded (v : json)
| DecodeError
| OtherError.

(** What [analyze_grammar] meets on its way to the language model: the
    package [anthropic] is missing; the key is not set; the constructor of
    the client raises; the call raises; or the model answers with a
    text. *)
Inductive api_outcome :=
| NoPackage
| NoKey
| NoClient
| ApiError
| Response (content : text).

(** The lines that [analyze_grammar] prints to stderr. *)
Inductive diagnostic :=
| PackageNotInstalled      (* "Error: anthropic package not installed" *)
| KeyNotSet                (* "Error: ANTHROPIC_API_KEY not set" *)
| ApiFailed.               (* "API error: ..." *)

(** The longest prefix of [t] that ends with ['}']. *)
Fixpoint upto_last_brace (t : text) : option text :=
  match t with
  | [] => None
  | c :: r =>
      match upto_last_brace r with
      | Some m => Some (c :: m)
      | None => if c =? 125 then Some [c] else None
      end
  end.

(** [re.search(r'\{[\s\S]*\}', t)]: at the first position where a match
    starts, the greedy match. *)
Fixpoint search_braces (t : text) : option text :=
  match t with
  | [] => None
  | c :: r =>
      if c =? 123
      then match upto_last_brace r with
           | Some m => Some (c :: m)
           | None => search_braces r
           end
      else search_braces r
  end.

Section Parse.
Variable json_loads : text -> loaded.

(** The handling of the response text; [JNull] is Python's [None]. *)
Definition parse_response (result_text : text) : json :=
  match json_loads result_text with
  | Loaded v => v
  | OtherError => JNull
  | DecodeError =>
      match search_braces result_text with
      | Some group =>
          match json_loads group with
          | Loaded v => v
          | DecodeError => JNull
          | OtherError => JNull
          end
      | None => JNull
      end
  end.

(** Whether [json.loads] raises another exception than [JSONDecodeError]
    in the handling of the response text; the outer [except Exception]
    catches it. *)
Definition parse_raises (result_text : text) : bool :=
  match json_loads result_text with
  | Loaded _ => false
  | OtherError => true
  | DecodeError =>
      match search_braces result_text with
      | Some group =>
          match json_loads group with
          | OtherError => true
          | _ => false
          end
      | None => false
      end
  end.

(** [analyze_grammar], given what it meets: what it returns, [JNull] being
    [None]. The client is built outside the [try], so that the exception
    of its constructor is raised to the caller. *)
Definition analyze_grammar (outcome : api_outcome) : result json :=
  match outcome with
  | NoPackage => Ok JNull
  | NoKey => Ok JNull
  | NoClient => Raise ClientError
  | ApiError => Ok JNull
  | Response content => Ok (parse_response (strip content))
  end.

(** What [analyze_grammar] prints to stderr before it returns [None]. *)
Definition printed (outcome : api_outcome) : option diagnostic :=
  match outcome with
  | NoPackage => Some PackageNotInstalled
  | NoKey => Some KeyNotSet
  | NoClient => None
  | ApiError => Some ApiFailed
  | Response content => if parse_raises (strip content) then Some ApiFailed else None
  end.

End Parse.

(** The process environment, [os.environ]. *)
Definition environ := gmap text text.

(** [os.environ.setdefault(key, value)] on decoded text: a variable that
    is set is left alone; [None] stands for the [ValueError] of [putenv],
    raised for an empty name and for a name or a value that holds a NUL
    character. *)
Definition setdefault (key value : text) (env : environ) : option environ :=
  match env !! key with
  | Some _ => Some env
  | None =>
      if bool_decide (key = []) || existsb (Z.eqb 0) key || existsb (Z.eqb 0) value
      then None
      else Some (<[key := value]> env)
  end.

(** [line.split('=', 1)]: the text before the first ['='] and the text
    after it; [None] when the line holds no ['=']. *)
Fixpoint partition_eq (line : text) : option (text * text) :=
  match line with
  | [] => None
  | c :: rest =>
      if c =? 61 then Some ([], rest)
      else match partition_eq rest with
           | Some (key, value) => Some (c :: key, value)
           | None => None
           end
  end.

(** The body of [for line in f]. *)
Definition load_line (line : text) (env : environ) : option environ :=
  let line := strip line in
  match line with
  | [] => Some env
  | _ =>
      if startswith (str "#") line then Some env
      else match partition_eq line with
           | None => Some env
           | Some (key, value) => setdefault (strip key) (strip value) env
           end
  end.

(** How [load_env_file] ends: at the end of the file, or with the exception
    that a line raises; either way with the environment it has reached. *)
Inductive env_outcome :=
| EnvLoaded (env : environ)
| EnvRaised (env : environ).

Definition environment_of (outcome : env_outcome) : environ :=
  match outcome with EnvLoaded env | EnvRaised env => env end.

Fixpoint load_lines (lines : list text) (env : environ) : env_outcome :=
  match lines with
  | [] => EnvLoaded env
  | line :: rest =>
      match load_line line env with
      | Some env' => load_lines rest env'
      | None => EnvRaised env
      end
  end.

(** [load_env_file()]: [file] holds the lines of [~/.claude/.env] as text,
    [None] when the file does not exist. *)
Definition load_env_file (file : option (list text)) (env : environ) : env_outcome :=
  match file with
  | None => EnvLoaded env
  | Some lines => load_lines lines env
  end.

End claude_api.

(** ** lib/charts.py *)
Module charts.

(** [sep.join(lines)] *)
Fixpoint join (sep : text) (lines : list text) : text :=
  match lines with
  | [] => []
  | [line] => line
  | line :: rest => line ++ sep ++ join sep rest
  end.

(** [c * n] for a one-character string: empty when [n] is not positive. *)
Definition times (c : Z) (n : Z) : text := repeat c (Z.to_nat n).

(** [s.center(width)]: when the padding is odd, the extra space goes to
    the left exactly when [width] is odd. *)
Definition center (s : text) (width : Z) : text :=
  let marg := width - Z.of_nat (length s) in
  if marg <=? 0 then s
  else
    let left := marg / 2 + Z.land (Z.land marg width) 1 in
    times 32 left ++ s ++ times 32 (marg - left).

(** [s.ljust(width)] *)
Definition ljust (s : text) (width : Z) : text :=
  s ++ times 32 (width - Z.of_nat (length s)).

(** [max(len(str(item)) for item in items) if items else 0] *)
Definition max_item_len (items : list text) : Z :=
  match items with
  | [] => 0
  | item :: rest =>
      fold_left (fun m item => if m <? Z.of_nat (length item) then Z.of_nat (length item) else m)
        rest (Z.of_nat (length item))
  end.

(** The lines of [summary_box(title, items)], the items being strings. *)
Definition summary_box_lines (title : text) (items : list text) : list text :=
  let width := Z.max (Z.of_nat (length title)) (max_item_len items) + 4 in
  [ [9484] ++ times 9472 width ++ [9488];
    [9474; 32] ++ center title (width - 2) ++ [32; 9474];
    [9500] ++ times 9472 width ++ [9508] ]
  ++ map (fun item => [9474; 32] ++ ljust item (width - 2) ++ [32; 9474]) items
  ++ [ [9492] ++ times 9472 width ++ [9496] ].

(** [summary_box(title, items)] *)
Definition summary_box (title : text) (items : list text) : text :=
  join [10] (summary_box_lines title items).

End charts.

(** ** The world of the scripts *)

(** What [save_retry_queue] meets: the file is rewritten; the directory or
    the file cannot be opened (the file stays as it was); or the write
    fails after [open(..., 'w')] has emptied the file. *)
Inductive write_outcome := Written | Refused | Truncated.

(** The collaborators that the scripts do not control. Every interaction
    with them happens at a [tick] of the world and is answered by the
    environment for that tick. *)
Record env := {
  json_loads : text -> claude_api.loaded;
  api_call : nat -> text -> claude_api.api_outcome;
  clock : nat -> timestamp;
  mkdir_fails : nat -> bool;
  append : nat -> obsidian.append_outcome;
  db_fault : nat -> nat -> bool;
  queue_write : nat -> write_outcome;
}.

(** One part of a notification of [check_grammar.py]. *)
Inductive part :=
| PartFix (original correction : json)
| PartBetter (better : json).

(** The text of a notification or of the closing line of [recall.py]. *)
Inductive message :=
| MsgParts (parts : list part)
| MsgNoFailed
| MsgRetried (total ok failed : Z)
| MsgAll (ok : Z) (with_findings : option Z).

(** Calls to the collaborators, in the order in which they are made. *)
Inductive event :=
| EvAdmission (prompt : json) (verdict : result bool)
| EvAnalyze (prompt : text) (analysis : json)
| EvAnalyzeRaised (prompt : text) (e : exn)
| EvSleep (seconds : Z)
| EvLog (user_message analysis : json) (outcome : result bool)
| EvStore (original_text user_text errors better_expression summary : json)
          (outcome : result Z)
| EvNotify (m : message)
| EvSaveQueue (queue : list json) (outcome : write_outcome).

(** Lines on the standard streams. *)
Inductive line :=
| LHookResponse
| LError (e : exn)
| LAnalyzer (d : claude_api.diagnostic)
| LLogFailed
| LNoFailed
| LFound (n : Z)
| LRetrying (prefix : json)
| LSkipped
| LFirstAttemptFailed
| LStillFailed
| LSuccess (found_issues : bool)
| LDone (m : message).

(** [retry_queue] is the content of [retry_queue.json]: [None] when the
    file is absent or does not hold JSON. *)
Record world := {
  store : sqlite.database;
  notes : obsidian.vault;
  retry_queue : option json;
  events : list event;
  stdout : list line;
  stderr : list line;
  tick : nat;
}.

Definition set_store (d : sqlite.database) (w : world) : world :=
  {| store := d; notes := notes w; retry_queue := retry_queue w; events := events w;
     stdout := stdout w; stderr := stderr w; tick := tick w |}.
Definition set_notes (n : obsidian.vault) (w : world) : world :=
  {| store := store w; notes := n; retry_queue := retry_queue w; events := events w;
     stdout := stdout w; stderr := stderr w; tick := tick w |}.
Definition set_retry_queue (q : option json) (w : world) : world :=
  {| store := store w; notes := notes w; retry_queue := q; events := events w;
     stdout := stdout w; stderr := stderr w; tick := tick w |}.
Definition add_event (e : event) (w : world) : world :=
  {| store := store w; notes := notes w; retry_queue := retry_queue w;
     events := events w ++ [e];
     stdout := stdout w; stderr := stderr w; tick := tick w |}.
Definition add_stdout (l : line) (w : world) : world :=
  {| store := store w; notes := notes w; retry_queue := retry_queue w; events := events w;
     stdout := stdout w ++ [l]; stderr := stderr w; tick := tick w |}.
Definition add_stderr (l : line) (w : world) : world :=
  {| store := store w; notes := notes w; retry_queue := retry_queue w; events := events w;
     stdout := stdout w; stderr := stderr w ++ [l]; tick := tick w |}.
Definition advance (n : nat) (w : world) : world :=
  {| store := store w; notes := notes w; retry_queue := retry_queue w; events := events w;
     stdout := stdout w; stderr := stderr w; tick := (tick w + n)%nat |}.

(** The imported functions, as the two scripts see them. *)
Module calls.
Section Calls.
Context `{language_detect.UnicodeData}.
Variable E : env.

Definition emit (e : event) : SE world unit := fun w => (Ok tt, add_event e w).
Definition print (l : line) : SE world unit := fun w => (Ok tt, add_stdout l w).

(** [should_check_grammar(text)] on whatever the caller passes: a value
    that is not a [str] fails [not text] when it is falsy and has no
    [strip] method otherwise. *)
Definition should_check_grammar (v : json) : SE world bool := fun w =>
  let verdict :=
    match v with
    | JStr s => Ok (language_detect.should_check_grammar s)
    | _ => if py.truthy v then Raise AttributeError else Ok false
    end in
  (verdict, add_event (EvAdmission v verdict) w).

(** [analyze_grammar(user_message)]: its result, and the line that it
    prints to stderr when it gives up. *)
Definition analyze_grammar (user_message : text) : SE world json := fun w =>
  let outcome := api_call E (tick w) user_message in
  let r := claude_api.analyze_grammar (json_loads E) outcome in
  let called :=
    match r with
    | Ok analysis => EvAnalyze user_message analysis
    | Raise e => EvAnalyzeRaised user_message e
    end in
  let w' := advance 1 (add_event called w) in
  (r, match claude_api.printed (json_loads E) outcome with
      | Some d => add_stderr (LAnalyzer d) w'
      | None => w'
      end).

(** [save_to_obsidian(user_prompt, analysis)]; its [except] branch prints
    the failure to stderr before it returns [False]. The clock is read
    twice, for the name of the file and for the heading. *)
Definition save_to_obsidian (user_prompt analysis : json) : SE world bool := fun w =>
  let '(r, files) :=
    obsidian.save_correction (mkdir_fails E (tick w)) (append E (tick w))
      (ts_date (clock E (tick w))) (clock E (S (tick w)))
      user_prompt analysis None (notes w) in
  let w' := advance 2 (add_event (EvLog user_prompt analysis r) (set_notes files w)) in
  (r, match r with Ok false => add_stderr LLogFailed w' | _ => w' end).

(** [save_to_db(original_text=..., user_text=..., errors=..., ...)] *)
Definition save_to_db (original_text user_text errors better_expression summary : json)
  : SE world Z := fun w =>
  let '(r, d) :=
    db.save_correction (db_fault E (tick w)) (clock E (tick w))
      (ts_date (clock E (S (tick w))))
      original_text user_text errors better_expression summary (store w) in
  (r, advance 2
        (add_event (EvStore original_text user_text errors better_expression summary r)
           (set_store d w))).

(** [send_notification(title, message)]: handles every exception itself. *)
Definition send_notification (m : message) : SE world unit := emit (EvNotify m).

(** [time.sleep(seconds)] *)
Definition sleep (seconds : Z) : SE world unit := emit (EvSleep seconds).

End Calls.
End calls.

(** ** scripts/check_grammar.py *)
Module check_grammar.
Import calls.
Local Open Scope se_scope.

Section Main.
Context `{language_detect.UnicodeData}.
Variable E : env.

(** [for err in errors[:2]: notif_parts.append(...)] *)
Fixpoint error_parts (errs : list json) : result (list part) :=
  match errs with
  | [] => Ok []
  | err :: rest =>
      match py.subscript err (str "original") with
      | Raise e => Raise e
      | Ok original =>
        match py.subscript err (str "correction") with
        | Raise e => Raise e
        | Ok correction =>
          match error_parts rest with
          | Raise e => Raise e
          | Ok parts => Ok (PartFix original correction :: parts)
          end
        end
      end
  end.

(** [errors[:2]] *)
Definition first_two (errors : json) : result (list json) :=
  match errors with
  | JArr l => Ok (firstn 2 l)
  | JStr s => Ok (map (fun c => JStr [c]) (firstn 2 s))
  | _ => Raise TypeError
  end.

(** [if len(better) > 50: better = better[:47] + "..."] *)
Definition shorten (better : json) : result json :=
  match py.len better with
  | Raise e => Raise e
  | Ok n =>
      if 50 <? n
      then match better with
           | JStr s => Ok (JStr (firstn 47 s ++ str "..."))
           | _ => Raise TypeError
           end
      else Ok better
  end.

(** The notification, from [notif_parts = []] on. *)
Definition notify (analysis errors : json) : SE world unit :=
  parts <- (if py.truthy errors
            then errs <- lift (first_two errors) ;; lift (error_parts errs)
            else ret []) ;;
  better <- lift (py.get analysis (str "better_expression") JNull) ;;
  parts <- (match parts with
            | [] =>
                if py.truthy better
                then better <- lift (py.subscript analysis (str "better_expression")) ;;
                     better <- lift (shorten better) ;;
                     ret [PartBetter better]
                else ret []
            | _ => ret parts
            end) ;;
  match parts with
  | [] => ret tt
  | _ => send_notification (MsgParts parts)
  end.

(** The block under [if analysis.get('has_errors') or
    analysis.get('better_expression')]. *)
Definition record (user_prompt analysis : json) : SE world unit :=
  save_to_obsidian E user_prompt analysis ;;;
  errors <- lift (py.get analysis (str "errors") (JArr [])) ;;
  user_text <- lift (py.get analysis (str "user_text") user_prompt) ;;
  better_expression <- lift (py.get analysis (str "better_expression") JNull) ;;
  summary <- lift (py.get analysis (str "summary") JNull) ;;
  save_to_db E user_prompt user_text errors better_expression summary ;;;
  notify analysis errors.

(** The [try] block of [main]; [input] is what [json.load(sys.stdin)]
    gives. *)
Definition body (input : result json) : SE world unit :=
  input_data <- lift input ;;
  prompt <- lift (py.get input_data (str "prompt") (JStr [])) ;;
  user_prompt <- (if py.truthy prompt then ret prompt
                  else lift (py.get input_data (str "user_prompt") (JStr []))) ;;
  admitted <- should_check_grammar user_prompt ;;
  if negb admitted
  then print LHookResponse ;;; lift (Raise (SystemExit 0))
  else
    match user_prompt with
    | JStr user_message =>
        analysis <- analyze_grammar E user_message ;;
        (if py.truthy analysis
         then skipped <- lift (py.get analysis (str "skipped") JNull) ;;
              if py.truthy skipped
              then print LHookResponse ;;; lift (Raise (SystemExit 0))
              else
                has_errors <- lift (py.get analysis (str "has_errors") JNull) ;;
                findings <- (if py.truthy has_errors then ret has_errors
                             else lift (py.get analysis (str "better_expression") JNull)) ;;
                if py.truthy findings then record user_prompt analysis else ret tt
         else ret tt) ;;;
        print LHookResponse
    | _ => lift (Raise AttributeError)   (* only a [str] is admitted *)
    end.

(** [main()]: the exit status and the world it leaves. [except Exception]
    does not catch [SystemExit]; [finally: sys.exit(0)] ends every path. *)
Definition main (input : result json) (w : world) : Z * world :=
  match body input w with
  | (Ok _, w') => (0, w')
  | (Raise (SystemExit _), w') => (0, w')
  | (Raise e, w') => (0, add_stdout LHookResponse (add_stderr (LError e) w'))
  end.

End Main.
End check_grammar.

(** ** scripts/recall.py *)
Module recall.
Import calls.
Local Open Scope se_scope.

(** The three accumulators of the loop in [main]. *)
Record progress := {
  success_count : Z;
  still_failed : list json;
  findings_count : Z;
}.

Definition progress0 : progress :=
  {| success_count := 0; still_failed := []; findings_count := 0 |}.

(** [v is None] *)
Definition is_none (v : json) : bool :=
  match v with JNull => true | _ => false end.

(** [user_prompt[:50]] *)
Definition first_fifty (v : json) : result json :=
  match v with
  | JStr s => Ok (JStr (firstn 50 s))
  | JArr l => Ok (JArr (firstn 50 l))
  | _ => Raise TypeError
  end.

Section Main.
Context `{language_detect.UnicodeData}.
Variable E : env.

(** [load_retry_queue()]: an absent or unreadable file is an empty list. *)
Definition load_retry_queue : SE world json := fun w =>
  (Ok (from_option id (JArr []) (retry_queue w)), w).

(** [save_retry_queue(queue)] *)
Definition save_retry_queue (queue : list json) : SE world unit := fun w =>
  let outcome := queue_write E (tick w) in
  let w' := advance 1 (add_event (EvSaveQueue queue outcome) w) in
  match outcome with
  | Written => (Ok tt, set_retry_queue (Some (JArr queue)) w')
  | Refused => (Raise OSError, w')
  | Truncated => (Raise OSError, set_retry_queue None w')
  end.

(** [process_analysis(user_prompt, analysis)] *)
Definition process_analysis (user_prompt analysis : json) : SE world bool :=
  skipped <- lift (py.get analysis (str "skipped") JNull) ;;
  if py.truthy skipped then ret false
  else
    has_errors <- lift (py.get analysis (str "has_errors") JNull) ;;
    findings <- (if py.truthy has_errors then ret has_errors
                 else lift (py.get analysis (str "better_expression") JNull)) ;;
    if py.truthy findings
    then
      save_to_obsidian E user_prompt analysis ;;;
      errors <- lift (py.get analysis (str "errors") (JArr [])) ;;
      user_text <- lift (py.get analysis (str "user_text") user_prompt) ;;
      better_expression <- lift (py.get analysis (str "better_expression") JNull) ;;
      summary <- lift (py.get analysis (str "summary") JNull) ;;
      save_to_db E user_prompt user_text errors better_expression summary ;;;
      ret true
    else ret false.

(** [for attempt in range(2): ...], leaving [analysis]. *)
Fixpoint try_api (user_message : text) (attempts : list Z) : SE world json :=
  match attempts with
  | [] => ret JNull
  | attempt :: rest =>
      analysis <- analyze_grammar E user_message ;;
      if is_none analysis
      then (if attempt =? 0
            then print LFirstAttemptFailed ;;; sleep 2
            else ret tt) ;;;
           try_api user_message rest
      else ret analysis
  end.

(** One turn of [for item in queue]. *)
Definition retry_item (item : json) (st : progress) : SE world progress :=
  user_prompt <- lift (py.get item (str "prompt") (JStr [])) ;;
  if negb (py.truthy user_prompt) then ret st
  else
    prefix <- lift (first_fifty user_prompt) ;;
    print (LRetrying prefix) ;;;
    admitted <- should_check_grammar user_prompt ;;
    if negb admitted
    then print LSkipped ;;;
         ret {| success_count := success_count st + 1;
                still_failed := still_failed st;
                findings_count := findings_count st |}
    else
      match user_prompt with
      | JStr user_message =>
          analysis <- try_api user_message [0; 1] ;;
          if is_none analysis
          then print LStillFailed ;;;
               ret {| success_count := success_count st;
                      still_failed := still_failed st ++ [item];
                      findings_count := findings_count st |}
          else
            had_findings <- process_analysis user_prompt analysis ;;
            print (LSuccess had_findings) ;;;
            ret {| success_count := success_count st + 1;
                   still_failed := still_failed st;
                   findings_count :=
                     if had_findings then findings_count st + 1 else findings_count st |}
      | _ => lift (Raise AttributeError)   (* only a [str] is admitted *)
      end.

(** [for item in queue: ...] *)
Fixpoint drain (queue : list json) (st : progress) : SE world progress :=
  match queue with
  | [] => ret st
  | item :: rest => st' <- retry_item item st ;; drain rest st'
  end.

(** The closing message. *)
Definition summary (total : Z) (st : progress) : message :=
  match still_failed st with
  | [] => MsgAll (success_count st)
            (if 0 <? findings_count st then Some (findings_count st) else None)
  | _ => MsgRetried total (success_count st) (Z.of_nat (length (still_failed st)))
  end.

(** [main()] *)
Definition main : SE world unit :=
  queue <- load_retry_queue ;;
  if negb (py.truthy queue)
  then send_notification MsgNoFailed ;;; print LNoFailed
  else
    total <- lift (py.len queue) ;;
    print (LFound total) ;;;
    items <- lift (py.iter queue) ;;
    st <- drain items progress0 ;;
    save_retry_queue (still_failed st) ;;;
    send_notification (summary total st) ;;;
    print (LDone (summary total st)).

End Main.
End recall.

(** ** A reading of [json.loads]

    The grammar that Python's decoder accepts, for use where a concrete
    decoder is needed; the pipeline itself takes the decoder from its
    environment. *)
Module json_text.
Import language_detect.

Definition ws (c : Z) : bool := (c =? 32) || (c =? 9) || (c =? 10) || (c =? 13).

Fixpoint skip_ws (t : text) : text :=
  match t with
  | c :: r => if ws c then skip_ws r else t
  | [] => []
  end.

Definition digit (c : Z) : bool := (48 <=? c) && (c <=? 57).

(** The leading digits of [t], as their number and count, and the rest. *)
Fixpoint digits (t : text) (acc : Z) (n : Z) : Z * Z * text :=
  match t with
  | c :: r => if digit c then digits r (10 * acc + (c - 48)) (n + 1) else (acc, n, t)
  | [] => (acc, n, [])
  end.

Definition hex (c : Z) : option Z :=
  if digit c then Some (c - 48)
  else if (97 <=? c) && (c <=? 102) then Some (c - 87)
  else if (65 <=? c) && (c <=? 70) then Some (c - 55)
  else None.

Definition hex4 (a b c d : Z) : option Z :=
  match hex a, hex b, hex c, hex d with
  | Some a, Some b, Some c, Some d => Some (((a * 16 + b) * 16 + c) * 16 + d)
  | _, _, _, _ => None
  end.

Definition escape (c : Z) : option Z :=
  if c =? 34 then Some 34 else if c =? 92 then Some 92 else if c =? 47 then Some 47
  else if c =? 98 then Some 8 else if c =? 102 then Some 12 else if c =? 110 then Some 10
  else if c =? 114 then Some 13 else if c =? 116 then Some 9 else None.

(** The characters of a string up to its closing quote. *)
Fixpoint scan_string (t : text) (acc : text) : option (text * text) :=
  match t with
  | [] => None
  | c :: r =>
      if c =? 34 then Some (rev acc, r)
      else if c =? 92 then
        match r with
        | e :: r0 =>
            if e =? 117 then
              match r0 with
              | h1 :: h2 :: h3 :: h4 :: r' =>
                  match hex4 h1 h2 h3 h4 with
                  | None => None
                  | Some u =>
                      if (55296 <=? u) && (u <=? 56319) then
                        match r' with
                        | b :: v :: l1 :: l2 :: l3 :: l4 :: r'' =>
                            match (if (b =? 92) && (v =? 117) then hex4 l1 l2 l3 l4 else None) with
                            | Some lo =>
                                if (56320 <=? lo) && (lo <=? 57343)
                                then scan_string r''
                                       (65536 + (u - 55296) * 1024 + (lo - 56320) :: acc)
                                else scan_string r' (u :: acc)
                            | None => scan_string r' (u :: acc)
                            end
                        | _ => scan_string r' (u :: acc)
                        end
                      else scan_string r' (u :: acc)
                  end
              | _ => None
              end
            else
              match escape e with
              | Some x => scan_string r0 (x :: acc)
              | None => None
              end
        | [] => None
        end
      else if c <? 32 then None
      else scan_string r (c :: acc)
  end.

(** [float(integer + frac + exp)] for the decimal [m * 10^k], correctly
    rounded. *)
Definition decimal (negative : bool) (m k : Z) : spec_float :=
  if m =? 0 then S754_zero negative
  else if 0 <=? k
  then binary_normalize prec emax (if negative then - (m * 10 ^ k) else m * 10 ^ k) 0 false
  else let '(q, e, l) := SFdiv_core_binary prec emax m 0 (10 ^ (- k)) 0 in
       binary_round_aux prec emax negative q e l.

(** [NUMBER_RE]: an optional minus sign, then 0 or a digit string without
    a leading 0, then an optional fraction and an optional exponent. *)
Definition scan_number (t : text) : option (json * text) :=
  let '(negative, t1) :=
    match t with
    | c :: r => if c =? 45 then (true, r) else (false, t)
    | [] => (false, t)
    end in
  match t1 with
  | c :: r1 =>
      if digit c then
        let '(i, _, t2) := if c =? 48 then (0, 1, r1) else digits t1 0 0 in
        let '(f, nf, t3) :=
          match t2 with
          | p :: d :: _ =>
              if (p =? 46) && digit d then digits (tl t2) 0 0 else (0, 0, t2)
          | _ => (0, 0, t2)
          end in
        let '(x, has_exp, t4) :=
          match t3 with
          | e :: r3 =>
              if (e =? 101) || (e =? 69) then
                match r3 with
                | s :: r4 =>
                    if digit s
                    then let '(x, _, t4) := digits r3 0 0 in (x, true, t4)
                    else if ((s =? 43) || (s =? 45)) && digit (hd 0 r4)
                    then let '(x, _, t4) := digits r4 0 0 in
                         (if s =? 45 then - x else x, true, t4)
                    else (0, false, t3)
                | [] => (0, false, t3)
                end
              else (0, false, t3)
          | [] => (0, false, t3)
          end in
        if (nf =? 0) && negb has_exp
        then Some (JInt (if negative then - i else i), t4)
        else Some (JFloat (decimal negative (i * 10 ^ nf + f) (x - nf)), t4)
      else None
  | [] => None
  end.

(** [t] without the prefix [p], when it starts with it. *)
Fixpoint after_prefix (p t : text) : option text :=
  match p, t with
  | [], _ => Some t
  | x :: p', y :: t' => if x =? y then after_prefix p' t' else None
  | _ :: _, [] => None
  end.

(** [d[k] = v] *)
Fixpoint set_item (k : text) (v : json) (items : list (text * json)) : list (text * json) :=
  match items with
  | [] => [(k, v)]
  | (k', v') :: r => if text_eqb k' k then (k, v) :: r else (k', v') :: set_item k v r
  end.

(** The constants that [scan_once] tries before a number, and after it. *)
Definition scan_constant (t : text) : option (json * text) :=
  match after_prefix (str "null") t with
  | Some r => Some (JNull, r)
  | None =>
    match after_prefix (str "true") t with
    | Some r => Some (JBool true, r)
    | None =>
      match after_prefix (str "false") t with
      | Some r => Some (JBool false, r)
      | None => None
      end
    end
  end.

Definition scan_special (t : text) : option (json * text) :=
  match after_prefix (str "NaN") t with
  | Some r => Some (JFloat S754_nan, r)
  | None =>
    match after_prefix (str "Infinity") t with
    | Some r => Some (JFloat (S754_infinity false), r)
    | None =>
      match after_prefix (str "-Infinity") t with
      | Some r => Some (JFloat (S754_infinity true), r)
      | None => None
      end
    end
  end.

(** [scan_once], and the loops of the array and object decoders entered
    after the first element or pair. *)
Fixpoint scan_once (fuel : nat) (t : text) : option (json * text) :=
  match fuel with
  | O => None
  | S fuel =>
    match t with
    | [] => None
    | c :: r =>
        if c =? 34 then
          match scan_string r [] with
          | Some (s, r') => Some (JStr s, r')
          | None => None
          end
        else if c =? 123 then
          match skip_ws r with
          | [] => None
          | c' :: r' =>
              if c' =? 125 then Some (JObj [], r') else scan_pairs fuel (c' :: r') []
          end
        else if c =? 91 then
          match skip_ws r with
          | [] => None
          | c' :: r' =>
              if c' =? 93 then Some (JArr [], r') else scan_values fuel (c' :: r') []
          end
        else
          match scan_constant t with
          | Some res => Some res
          | None =>
              match scan_number t with
              | Some res => Some res
              | None => scan_special t
              end
          end
    end
  end
with scan_values (fuel : nat) (t : text) (acc : list json) : option (json * text) :=
  match fuel with
  | O => None
  | S fuel =>
    match scan_once fuel t with
    | None => None
    | Some (v, r) =>
        match skip_ws r with
        | [] => None
        | c :: r' =>
            if c =? 93 then Some (JArr (rev (v :: acc)), r')
            else if c =? 44 then scan_values fuel (skip_ws r') (v :: acc)
            else None
        end
    end
  end
with scan_pairs (fuel : nat) (t : text) (items : list (text * json)) : option (json * text) :=
  match fuel with
  | O => None
  | S fuel =>
    match t with
    | [] => None
    | c :: r =>
        if c =? 34 then
          match scan_string r [] with
          | None => None
          | Some (k, r1) =>
              match skip_ws r1 with
              | [] => None
              | c1 :: r2 =>
                  if c1 =? 58 then
                    match scan_once fuel (skip_ws r2) with
                    | None => None
                    | Some (v, r3) =>
                        match skip_ws r3 with
                        | [] => None
                        | c3 :: r4 =>
                            if c3 =? 125 then Some (JObj (set_item k v items), r4)
                            else if c3 =? 44
                            then scan_pairs fuel (skip_ws r4) (set_item k v items)
                            else None
                        end
                    end
                  else None
              end
          end
        else None
    end
  end.

(** [json.loads(t)]; every document is decoded or refused, none is too
    deep. *)
Definition loads (t : text) : claude_api.loaded :=
  match scan_once (S (length t)) (skip_ws t) with
  | Some (v, r) =>
      match skip_ws r with
      | [] => claude_api.Loaded v
      | _ => claude_api.DecodeError
      end
  | None => claude_api.DecodeError
  end.

End json_text.


(** Case analysis on the integer comparisons of a goal or hypothesis. *)
Ltac zcases :=
  repeat match goal with
  | |- context [?a <? ?b] => destruct (Z.ltb_spec a b)
  | |- context [?a <=? ?b] => destruct (Z.leb_spec a b)
  | |- context [?a =? ?b] => destruct (Z.eqb_spec a b)
  | H : context [?a <? ?b] |- _ => destruct (Z.ltb_spec a b)
  | H : context [?a <=? ?b] |- _ => destruct (Z.leb_spec a b)
  | H : context [?a =? ?b] |- _ => destruct (Z.eqb_spec a b)
  end;
  cbn [andb orb negb] in *; try done; try lia.

(** * The claims in the words of the specification *)
Module spec.
Import language_detect.

Section Admission.
Context `{UnicodeData}.









End Admission.

(** *** The structured store *)

(** The closed enumeration of categories. *)
Definition categories : list text :=
  [str "spelling"; str "grammar"; str "style"; str "vocabulary"].

(** A category name outside the enumeration is normalized to [grammar]. *)
Definition normalize (category : text) : text :=
  if bool_decide (category ∈ categories) then category else str "grammar".

(** The category under which a finding is stored and counted: its
    [category] field ([grammar] when the field is absent), lower-cased and
    normalized. A finding that is no object, or whose category is no
    string, has none. *)
Definition category_of (finding : json) : option text :=
  match finding with
  | JObj items =>
      match from_option id (JStr (str "grammar")) (py.lookup_item (str "category") items) with
      | JStr s => Some (normalize (py.lower_str s))
      | _ => None
      end
  | _ => None
  end.

(** The categories of a sequence of findings, when each has one. *)
Fixpoint categories_of (findings : list json) : option (list text) :=
  match findings with
  | [] => Some []
  | finding :: rest =>
      match category_of finding, categories_of rest with
      | Some c, Some cs => Some (c :: cs)
      | _, _ => None
      end
  end.

(** The number of findings grouped into one category. *)
Definition grouped (category : text) (cats : list text) : Z :=
  Z.of_nat (length (List.filter (text_eqb category) cats)).

(** A DailyCounter row after one more Correction with findings in [cats]:
    created at zero when absent. *)
Definition incremented (row : option sqlite.stats_row) (cats : list text) : sqlite.stats_row :=
  let old := from_option id db.zero_stats row in
  {| sqlite.total_corrections := sqlite.total_corrections old + 1;
     sqlite.spelling_count := sqlite.spelling_count old + grouped (str "spelling") cats;
     sqlite.grammar_count := sqlite.grammar_count old + grouped (str "grammar") cats;
     sqlite.style_count := sqlite.style_count old + grouped (str "style") cats;
     sqlite.vocabulary_count := sqlite.vocabulary_count old + grouped (str "vocabulary") cats |}.

(** The DailyCounter of a date; all zero when the date has no row. *)
Definition counter (d : sqlite.database) (day : date) : sqlite.stats_row :=
  from_option id db.zero_stats (sqlite.daily_stats d !! day).

(** The Corrections of a date. *)
Definition corrections_on (d : sqlite.database) (day : date) : list sqlite.correction_row :=
  List.filter (fun c => ts_date (sqlite.c_timestamp c) =? day) (sqlite.corrections d).

(** The ErrorFindings of one category that belong to the Corrections of a
    date. *)
Definition findings_on (d : sqlite.database) (day : date) (category : text)
  : list sqlite.error_row :=
  List.filter
    (fun e => text_eqb category (sqlite.e_category e)
              && existsb (fun c => sqlite.c_id c =? sqlite.e_correction_id e)
                   (corrections_on d day))
    (sqlite.errors d).

(** Every DailyCounter counts each Correction of its date once, and each
    of their ErrorFindings once under its category. *)
Definition counted_once (d : sqlite.database) : Prop :=
  forall day,
    counter d day =
    {| sqlite.total_corrections := Z.of_nat (length (corrections_on d day));
       sqlite.spelling_count := Z.of_nat (length (findings_on d day (str "spelling")));
       sqlite.grammar_count := Z.of_nat (length (findings_on d day (str "grammar")));
       sqlite.style_count := Z.of_nat (length (findings_on d day (str "style")));
       sqlite.vocabulary_count := Z.of_nat (length (findings_on d day (str "vocabulary"))) |}.

(** One call of [db.save_correction], with what its environment does. *)
Record call := {
  call_fault : nat -> bool;
  call_now : timestamp;
  call_today : date;
  call_original_text : json;
  call_user_text : json;
  call_errors : json;
  call_better_expression : json;
  call_summary : json;
}.

Definition perform (c : call) (d : sqlite.database) : result Z * sqlite.database :=
  db.save_correction (call_fault c) (call_now c) (call_today c)
    (call_original_text c) (call_user_text c) (call_errors c)
    (call_better_expression c) (call_summary c) d.

(** The store after a sequence of calls, failed ones included. *)
Definition history (calls : list call) : sqlite.database :=
  fold_left (fun d c => snd (perform c d)) calls sqlite.empty.

(** The two readings of the clock in a call fall on the same day. *)
Definition same_day (c : call) : Prop := ts_date (call_now c) = call_today c.


(** *** The orchestrators *)

(** A retry-queue entry that holds the text [t]. *)
Definition queued (t : text) (w : world) : Prop :=
  exists items item,
    retry_queue w = Some (JArr items) /\ item ∈ items
    /\ py.get item (str "prompt") JNull = Ok (JStr t).

(** The two writes of a recorded run. *)
Inductive write := LogWrite | StoreWrite.

(** The writes among a sequence of events, in order. *)
Fixpoint writes (evs : list event) : list write :=
  match evs with
  | [] => []
  | EvLog _ _ _ :: rest => LogWrite :: writes rest
  | EvStore _ _ _ _ _ _ :: rest => StoreWrite :: writes rest
  | _ :: rest => writes rest
  end.

(** The analyzer outcome calls for a record: it is not marked skipped, and
    has-errors or the better-expression is set. *)
Definition to_record (fields : list (text * json)) : bool :=
  negb (py.truthy (from_option id JNull (py.lookup_item (str "skipped") fields)))
  && (py.truthy (from_option id JNull (py.lookup_item (str "has_errors") fields))
      || py.truthy (from_option id JNull (py.lookup_item (str "better_expression") fields))).

(** What the store write receives from the analyzer outcome: the text, the
    findings, the rephrasing and the summary. *)
Definition record_arguments (p : json) (fields : list (text * json))
  : json * json * json * json :=
  (from_option id p (py.lookup_item (str "user_text") fields),
   from_option id (JArr []) (py.lookup_item (str "errors") fields),
   from_option id JNull (py.lookup_item (str "better_expression") fields),
   from_option id JNull (py.lookup_item (str "summary") fields)).

(** The events of handling an analyzer outcome for the text [p]: when the
    outcome calls for a record, the log write and the store write of the
    primary pipeline, both returning; nothing otherwise. *)
Definition handling (p : json) (analysis : json) (handled : list event) : Prop :=
  exists fields,
    analysis = JObj fields
    /\ if to_record fields
       then exists logged new_id,
              let '(u, e, b, s) := record_arguments p fields in
              handled = [EvLog p analysis (Ok logged); EvStore p u e b s (Ok new_id)]
       else handled = [].





End spec.

(** ** Concrete collaborators for the examples *)

(** ASCII literal in which ['] stands for the double quote. *)
Definition dq (s : string) : text :=
  map (fun c => if c =? 39 then 34 else c) (str s).

(** Tables that know the ASCII letters and digits, the CJK block and the
    two letters that lower-case into ASCII. *)
Definition basic_tables : language_detect.UnicodeData.
Proof.
  refine {| language_detect.isalnum := fun c =>
              language_detect.ascii_letter c || ((48 <=? c) && (c <=? 57))
              || language_detect.is_cjk c || (c =? 304) || (c =? 8490);
            language_detect.isdecimal := fun c => (48 <=? c) && (c <=? 57) |}.
  - intros c. unfold language_detect.is_latin, language_detect.ascii_letter, lower.
    change (str "a") with [97]. change (str "z") with [122].
    destruct (Z.leb_spec 65 c), (Z.leb_spec c 90); cbn [andb];
      [zcases | | |];
      (destruct (Z.eqb_spec c 304); [subst; by cbn|]);
      (destruct (Z.eqb_spec c 8490); [subst; by cbn|]);
      unfold text_leb; intros Hl; zcases.
  - intros c. unfold language_detect.is_latin, lower.
    change (str "a") with [97]. change (str "z") with [122].
    destruct (Z.leb_spec 65 c), (Z.leb_spec c 90); cbn [andb];
      [zcases | | |];
      (destruct (Z.eqb_spec c 304); [subst; by cbn|]);
      (destruct (Z.eqb_spec c 8490); [subst; by cbn|]);
      unfold text_leb; intros Hl; zcases.
Defined.

(** Monday 2024-01-01. *)
Definition monday : date := 738886.

(** An environment in which nothing fails: the decoder is [json_text.loads],
    the clock stays within [day], and the model answers as [answers]
    says. *)
Definition calm (day : date) (answers : nat -> text -> claude_api.api_outcome) : env :=
  {| json_loads := json_text.loads;
     api_call := answers;
     clock := fun t => {| ts_date := day; ts_micros := Z.of_nat t |};
     mkdir_fails := fun _ => false;
     append := fun _ => obsidian.Appended;
     db_fault := fun _ _ => false;
     queue_write := fun _ => Written |}.

(** The same, with a log directory that cannot be created. *)
Definition no_log_directory (E : env) : env :=
  {| json_loads := json_loads E;
     api_call := api_call E;
     clock := clock E;
     mkdir_fails := fun _ => true;
     append := append E;
     db_fault := db_fault E;
     queue_write := queue_write E |}.

(** The same, with daily files that cannot be written. *)
Definition no_log_write (E : env) : env :=
  {| json_loads := json_loads E;
     api_call := api_call E;
     clock := clock E;
     mkdir_fails := mkdir_fails E;
     append := fun _ => obsidian.WriteFailed;
     db_fault := db_fault E;
     queue_write := queue_write E |}.

Definition world0 : world :=
  {| store := sqlite.empty; notes := ∅; retry_queue := None; events := [];
     stdout := []; stderr := []; tick := 0 |}.

(** An answer of the model with two findings. *)
Definition answer_findings : text :=
  dq "{'has_errors': true, 'user_text': 'I has a error in my code', 'errors': [{'original': 'has', 'correction': 'have', 'explanation': 'agreement', 'category': 'grammar'}, {'original': 'a error', 'correction': 'an error', 'explanation': 'article', 'category': 'Spelling'}], 'better_expression': 'I have an error in my code', 'summary': 'two errors', 'skipped': false}".

(** The hook input for a prompt. *)
Definition hook_input (prompt : text) : result json :=
  Ok (JObj [(str "prompt", JStr prompt)]).

(** One finding, as the model reports it. *)
Definition finding (original correction category : string) : json :=
  JObj [(str "original", JStr (str original)); (str "correction", JStr (str correction));
        (str "explanation", JStr (str "why")); (str "category", JStr (str category))].

(** Three calls of [db.save_correction] on one day: one that succeeds with
    findings in the categories spelling (1) and grammar (2), one that the
    engine fails after the Correction and one finding are inserted, and one
    whose second finding has no usable category. *)
Definition no_fault : nat -> bool := fun _ => false.

Definition sample_call (fault : nat -> bool) (micros : Z) (errors : list json) : spec.call :=
  {| spec.call_fault := fault;
     spec.call_now := {| ts_date := monday; ts_micros := micros |};
     spec.call_today := monday;
     spec.call_original_text := JStr (str "I has writed teh code");
     spec.call_user_text := JStr (str "I has writed teh code");
     spec.call_errors := JArr errors;
     spec.call_better_expression := JStr (str "I have written the code");
     spec.call_summary := JNull |}.

Definition three_findings : list json :=
  [finding "teh" "the" "spelling"; finding "has" "have" "grammar";
   finding "writed" "written" "grammar"].

Definition sample_calls : list spec.call :=
  [sample_call no_fault 1 three_findings;
   sample_call (fun k => (k =? 6)%nat) 2 three_findings;
   sample_call no_fault 3
     [finding "teh" "the" "spelling"; JObj [(str "category", JNull)]]].

(** A call of [db.save_correction] between two days: [datetime.now()]
    reads the last microsecond of Monday, [date.today()] reads Tuesday. *)
Definition midnight_call : spec.call :=
  {| spec.call_fault := no_fault;
     spec.call_now := {| ts_date := monday; ts_micros := 86399999999 |};
     spec.call_today := monday + 1;
     spec.call_original_text := JStr (str "I has writed teh code");
     spec.call_user_text := JStr (str "I has writed teh code");
     spec.call_errors := JArr three_findings;
     spec.call_better_expression := JStr (str "I have written the code");
     spec.call_summary := JNull |}.

(** A response with braces in its prose, before a JSON object. *)
Definition answer_after_braces : text :=
  dq "Use {x} as a placeholder. {'has_errors': false, 'errors': [], 'skipped': false}".

(** An analyzer that cannot be reached. *)
Definition unreachable : nat -> text -> claude_api.api_outcome :=
  fun _ _ => claude_api.ApiError.

(** An analyzer that answers every text with [answer_findings]. *)
Definition finds : nat -> text -> claude_api.api_outcome :=
  fun _ _ => claude_api.Response answer_findings.

(** What [answer_findings] decodes to. *)
Definition findings_fields : list (text * json) :=
  Eval vm_compute in
    match json_text.loads answer_findings with
    | claude_api.Loaded (JObj fields) => fields
    | _ => []
    end.

(** An analyzer that fails on one text and answers the others. *)
Definition flaky : nat -> text -> claude_api.api_outcome :=
  fun _ t =>
    if text_eqb t (str "This request never gets through")
    then claude_api.ApiError
    else claude_api.Response answer_findings.

(** A retry-queue entry for a prompt. *)
Definition entry (prompt : string) : json :=
  JObj [(str "prompt", JStr (str prompt)); (str "timestamp", JStr (str "2024-01-01T09:00:00"))].

(** An entry that has lost its prompt. *)
Definition entry_without_prompt : json :=
  JObj [(str "timestamp", JStr (str "2024-01-01T09:00:00"))].

(** A queue of four entries: a text that the filter rejects, an entry
    without prompt, a text that the analyzer answers and a text on which
    it fails. *)
Definition sample_queue : list json :=
  [entry "Hi"; entry_without_prompt; entry "I has a error in my code";
   entry "This request never gets through"].

Definition queue_world (queue : list json) : world :=
  {| store := sqlite.empty; notes := ∅; retry_queue := Some (JArr queue); events := [];
     stdout := []; stderr := []; tick := 0 |}.

(** An answer of the model that is marked skipped although it reports an
    error. *)
Definition answer_skipped : text :=
  dq "{'has_errors': true, 'errors': [{'original': 'sk-ant-123', 'correction': 'x'}], 'better_expression': null, 'summary': 'secret', 'skipped': true}".

Definition skipped_fields : list (text * json) :=
  Eval vm_compute in
    match json_text.loads answer_skipped with
    | claude_api.Loaded (JObj fields) => fields
    | _ => []
    end.

(** An environment whose database fails at its [k]-th operation. *)
Definition failing_store (k : nat) (E : env) : env :=
  {| json_loads := json_loads E;
     api_call := api_call E;
     clock := clock E;
     mkdir_fails := mkdir_fails E;
     append := append E;
     db_fault := fun _ op => (op =? k)%nat;
     queue_write := queue_write E |}.

(** An environment whose database fails from tick [t0] on, when the
    Correction is inserted. *)
Definition store_fails_from (t0 : nat) (E : env) : env :=
  {| json_loads := json_loads E;
     api_call := api_call E;
     clock := clock E;
     mkdir_fails := mkdir_fails E;
     append := append E;
     db_fault := fun t op => (t0 <=? t)%nat && (op =? 4)%nat;
     queue_write := queue_write E |}.

(** A queue of two entries with the same text. *)
Definition twice_queue : list json :=
  [entry "I has a error in my code"; entry "I has a error in my code"].

(** A summary box. *)
Definition box_title : text := str "Today's Stats".
Definition box_items : list text :=
  [str "Total: 8 corrections"; str "Spelling: 2"; str "Grammar: 5"; str "Style: 1"].

(** The lines of an environment file: a comment, two assignments, an empty
    line and a second assignment to the first variable. *)
Definition env_lines : list text :=
  [str "# keys"; str "ANTHROPIC_API_KEY = sk-test"; str " "; str "MODEL=a=b";
   str "ANTHROPIC_API_KEY=other"].

(** * Invariants used in the proofs *)


(** A step that leaves the committed content alone. *)
Definition keeps_committed {A} (m : SE sqlite.connection A) : Prop :=
  forall c r c', m c = (r, c') -> sqlite.committed c' = sqlite.committed c.

(** A step that leaves the committed content alone when it raises. *)
Definition keeps_on_raise {A} (m : SE sqlite.connection A) : Prop :=
  forall c e c', m c = (Raise e, c') -> sqlite.committed c' = sqlite.committed c.

(** The counters have exactly the four category names as keys. *)
Definition four_keys (counts : gmap text Z) : Prop :=
  forall k, is_Some (counts !! k) <-> k ∈ spec.categories.

(** The rows of table [errors] grow by [rows]; nothing else changes. *)
Definition errors_appended (d d' : sqlite.database) (rows : list sqlite.error_row) : Prop :=
  sqlite.corrections d' = sqlite.corrections d
  /\ sqlite.errors d' = sqlite.errors d ++ rows
  /\ sqlite.daily_stats d' = sqlite.daily_stats d
  /\ sqlite.seq_corrections d' = sqlite.seq_corrections d.

(** The ids of the stored rows stay below the AUTOINCREMENT counter. *)
Definition ids_bounded (d : sqlite.database) : Prop :=
  Forall (fun c => sqlite.c_id c <= sqlite.seq_corrections d) (sqlite.corrections d)
  /\ Forall (fun e => sqlite.e_correction_id e <= sqlite.seq_corrections d) (sqlite.errors d).

(** The store counts every Correction once, with bounded ids. *)
Definition sound (d : sqlite.database) : Prop := ids_bounded d /\ spec.counted_once d.

(** A step that leaves the retry queue alone. *)
Definition keeps_queue {A} (m : SE world A) : Prop :=
  forall w r w', m w = (r, w') -> retry_queue w' = retry_queue w.

(** A step that writes neither the store, the log nor the retry queue, and
    causes no write event. *)
Definition quiet {A} (m : SE world A) : Prop :=
  forall w r w',
    m w = (r, w') ->
    store w' = store w /\ notes w' = notes w /\ retry_queue w' = retry_queue w
    /\ tick w' = tick w
    /\ exists rest, events w' = events w ++ rest /\ spec.writes rest = [].

(** A result that is not an exit of the interpreter. *)
Definition no_exit {A} (r : result A) : Prop := forall status, r <> Raise (SystemExit status).

(** A computation that does not end in [SystemExit]. *)
Definition never_exits {S A} (m : SE S A) : Prop :=
  forall s r s', m s = (r, s') -> no_exit r.

(** A step of a script that prints nothing on stdout and does not exit. *)
Definition silent {A} (m : SE world A) : Prop :=
  forall w r w', m w = (r, w') -> stdout w' = stdout w /\ no_exit r.

(** A part of [check_grammar.py] that leaves stdout alone unless it ends
    the script, which it does right after the hook response. *)
Definition answers_on_exit {A} (m : SE world A) : Prop :=
  forall w r w',
    m w = (r, w') ->
    match r with
    | Raise (SystemExit _) => stdout w' = stdout w ++ [LHookResponse]
    | _ => stdout w' = stdout w
    end.

(** A part of [check_grammar.py] that has printed the hook response, once,
    when it returns or exits. *)
Definition answers {A} (m : SE world A) : Prop :=
  forall w r w',
    m w = (r, w') ->
    match r with
    | Ok _ | Raise (SystemExit _) => stdout w' = stdout w ++ [LHookResponse]
    | Raise _ => stdout w' = stdout w
    end.

(** The parts of a notification: one or two fixes, or one rephrasing of at
    most 50 characters. *)
Definition notification_parts (parts : list part) : Prop :=
  ((0 < length parts <= 2)%nat
   /\ Forall (fun p => match p with PartFix _ _ => True | PartBetter _ => False end) parts)
  \/ exists better,
       parts = [PartBetter better]
       /\ forall s, better = JStr s -> (length s <= 50)%nat.

(** The events of the record block of [check_grammar.py] for the prompt
    [p] and the outcome [a]: the log write; the store write when the log
    write returned; a notification when the store write returned and there
    is something to show. *)
Inductive record_trace (p : json) (fields : list (text * json)) : list event -> Prop :=
| record_log_raised x :
    record_trace p fields [EvLog p (JObj fields) (Raise x)]
| record_store_raised logged u e b s x :
    spec.record_arguments p fields = (u, e, b, s) ->
    record_trace p fields [EvLog p (JObj fields) (Ok logged); EvStore p u e b s (Raise x)]
| record_stored logged u e b s new_id :
    spec.record_arguments p fields = (u, e, b, s) ->
    record_trace p fields [EvLog p (JObj fields) (Ok logged); EvStore p u e b s (Ok new_id)]
| record_notified logged u e b s new_id parts :
    spec.record_arguments p fields = (u, e, b, s) ->
    notification_parts parts ->
    record_trace p fields
      [EvLog p (JObj fields) (Ok logged); EvStore p u e b s (Ok new_id);
       EvNotify (MsgParts parts)].

(** The events of one run of [check_grammar.py]: none when the input is
    unusable; the admission check alone when it does not admit the prompt;
    the admission check and the analyzer call on an admitted text, a call
    that returns or raises; the record block after them when the outcome
    calls for a record. *)
Inductive primary_trace `{language_detect.UnicodeData} : list event -> Prop :=
| trace_unusable : primary_trace []
| trace_not_admitted p verdict :
    verdict <> Ok true ->
    primary_trace [EvAdmission p verdict]
| trace_analysis_raised t x :
    language_detect.should_check_grammar t = true ->
    primary_trace [EvAdmission (JStr t) (Ok true); EvAnalyzeRaised t x]
| trace_analyzed t a :
    language_detect.should_check_grammar t = true ->
    (forall fields, a = JObj fields -> spec.to_record fields = false) ->
    primary_trace [EvAdmission (JStr t) (Ok true); EvAnalyze t a]
| trace_recorded t fields tail :
    language_detect.should_check_grammar t = true ->
    spec.to_record fields = true ->
    record_trace (JStr t) fields tail ->
    primary_trace (EvAdmission (JStr t) (Ok true) :: EvAnalyze t (JObj fields) :: tail).

(** Kinds of events. *)
Definition is_analyze (e : event) : bool :=
  match e with EvAnalyze _ _ | EvAnalyzeRaised _ _ => true | _ => false end.
Definition is_sleep (e : event) : bool :=
  match e with EvSleep _ => true | _ => false end.
Definition is_log (e : event) : bool :=
  match e with EvLog _ _ _ => true | _ => false end.
Definition is_store (e : event) : bool :=
  match e with EvStore _ _ _ _ _ _ => true | _ => false end.

(** The number of events of one kind. *)
Definition count (kind : event -> bool) (evs : list event) : nat :=
  length (List.filter kind evs).

(** A step that causes at most [n] events of one kind. *)
Definition emits_at_most {A} (kind : event -> bool) (n : nat) (m : SE world A) : Prop :=
  forall w r w',
    m w = (r, w') -> exists new, events w' = events w ++ new /\ (count kind new <= n)%nat.

(** The entries of the retry queue, when the file holds a list. *)
Definition queue_entries (w : world) : list json :=
  match retry_queue w with
  | Some (JArr items) => items
  | _ => []
  end.

(** An entry that the drain passes over: [item.get('prompt', '')] is
    falsy. *)
Definition passed_over (item : json) : bool :=
  match py.get item (str "prompt") (JStr []) with
  | Ok prompt => negb (py.truthy prompt)
  | Raise _ => false
  end.

(** The ids of the stored Corrections are 1, 2, ... in the order of
    insertion, the AUTOINCREMENT counter is the last of them, and every
    ErrorFinding carries one of them. *)
Definition well_keyed (d : sqlite.database) : Prop :=
  map sqlite.c_id (sqlite.corrections d)
  = seqZ 1 (Z.of_nat (length (sqlite.corrections d)))
  /\ sqlite.seq_corrections d = Z.of_nat (length (sqlite.corrections d))
  /\ Forall (fun e => 1 <= sqlite.e_correction_id e
                      <= Z.of_nat (length (sqlite.corrections d)))
       (sqlite.errors d).

(** The number of stored ErrorFindings of one category. *)
Definition findings_of (category : text) (d : sqlite.database) : Z :=
  Z.of_nat (length (List.filter (fun e => text_eqb category (sqlite.e_category e))
                      (sqlite.errors d))).

(** The DailyCounter rows add up to the stored rows. *)
Definition tallied (d : sqlite.database) : Prop :=
  let rows := map_to_list (sqlite.daily_stats d) in
  db.sum_of sqlite.total_corrections rows = Z.of_nat (length (sqlite.corrections d))
  /\ db.sum_of sqlite.spelling_count rows = findings_of (str "spelling") d
  /\ db.sum_of sqlite.grammar_count rows = findings_of (str "grammar") d
  /\ db.sum_of sqlite.style_count rows = findings_of (str "style") d
  /\ db.sum_of sqlite.vocabulary_count rows = findings_of (str "vocabulary") d
  /\ Forall (fun e => sqlite.e_category e ∈ spec.categories) (sqlite.errors d).

(** The Correction [c] is not older than [c']. *)
Definition not_before (c c' : sqlite.correction_row) : Prop :=
  db.ts_leb (sqlite.c_timestamp c') (sqlite.c_timestamp c) = true.

(** The timestamp [a] is earlier than [b]. *)
Definition earlier (a b : timestamp) : Prop := db.ts_leb b a = false.

(** The lines of a text: what lies between its newline characters. *)
Fixpoint lines_from (cur : text) (t : text) : list text :=
  match t with
  | [] => [rev cur]
  | c :: r => if c =? 10 then rev cur :: lines_from [] r else lines_from (c :: cur) r
  end.

Definition lines_of (t : text) : list text := lines_from [] t.

(** A text without a newline character. *)
Definition one_line (t : text) : Prop := Forall (fun c => c <> 10) t.

(** A text of white space only. *)
Definition spaces (t : text) : Prop := Forall (fun c => isspace c = true) t.

(** The sum of a column of [get_daily_stats] over the [n] days from
    [start]. *)
Definition daily_sum (today : date) (d : sqlite.database) (column : sqlite.stats_row -> Z)
    (start : date) (n : nat) : Z :=
  foldr Z.add 0
    (map (fun day => column (snd (db.get_daily_stats today (Some day) d)))
       (seqZ start (Z.of_nat n))).

(** The number of days among the [n] days from [start] that have a
    DailyCounter row. *)
Definition tracked_days (d : sqlite.database) (start : date) (n : nat) : nat :=
  length (List.filter (fun day => bool_decide (is_Some (sqlite.daily_stats d !! day)))
            (seqZ start (Z.of_nat n))).

(** The value of a row that lies in the window, 0 for any other. *)
Definition in_window (lo hi : date) (g : sqlite.stats_row -> Z)
    (kv : date * sqlite.stats_row) : Z :=
  if (lo <=? fst kv) && (fst kv <=? hi) then g (snd kv) else 0.

(** * Verification *)

(** ** The admission filter *)

Section AdmissionFilter.
Import language_detect.

Lemma is_latin_iff c :
  is_latin c = true <->
  (65 <= c <= 90 \/ 97 <= c <= 122 \/ c = 304 \/ c = 8490).
Proof.
  unfold is_latin, lower.
  change (str "a") with [97]. change (str "z") with [122].
  destruct (Z.leb_spec 65 c), (Z.leb_spec c 90); cbn [andb];
    [unfold text_leb; zcases; intuition lia | | |];
    (destruct (Z.eqb_spec c 304); [subst; cbn; intuition lia|]);
    (destruct (Z.eqb_spec c 8490); [subst; cbn; intuition lia|]);
    unfold text_leb; zcases; intuition lia.
Qed.


Lemma latin_not_space c : is_latin c = true -> isspace c = false.
Proof.
  intros Hl. apply is_latin_iff in Hl. unfold isspace.
  rewrite !orb_false_iff. repeat split; zcases.
Qed.

Lemma ascii_letter_latin c : ascii_letter c = true -> is_latin c = true.
Proof. intros Ha. apply is_latin_iff. unfold ascii_letter in Ha. zcases. Qed.



Context `{UnicodeData}.





End AdmissionFilter.

Section AdmissionDecision.
Import language_detect.
Context `{UnicodeData}.







End AdmissionDecision.

(** ** Binary64 rounding of [n * 0.3] *)
Section Rounding.
Import language_detect.









End Rounding.
Section Rounding2.
Import language_detect.



End Rounding2.
Section Rounding3.
Import language_detect.









End Rounding3.

Section AdmissionTheorem.
Import language_detect.
Context `{UnicodeData}.







End AdmissionTheorem.

(** ** The structured store *)

Section Monad.
Context {S A B : Type}.

Lemma bind_inv (m : SE S A) (k : A -> SE S B) s r s' :
  bind m k s = (r, s') ->
  (exists e, m s = (Raise e, s') /\ r = Raise e)
  \/ (exists a s1, m s = (Ok a, s1) /\ k a s1 = (r, s')).
Proof.
  unfold bind. destruct (m s) as [[a|e] s1]; intros Heq.
  - right. by exists a, s1.
  - left. exists e. by injection Heq as <- <-.
Qed.

Lemma bind_ok (m : SE S A) (k : A -> SE S B) s b s' :
  bind m k s = (Ok b, s') ->
  exists a s1, m s = (Ok a, s1) /\ k a s1 = (Ok b, s').
Proof.
  intros Heq. apply bind_inv in Heq as [(e & _ & [=])|Hok]. done.
Qed.

Lemma lift_inv (r0 : result A) (s : S) r s' : lift r0 s = (r, s') -> r = r0 /\ s' = s.
Proof. by intros [= <- <-]. Qed.

End Monad.

(** Decompose a run of a sequence of steps that returned: the first step
    gave [a] and left the state [s]. *)
Tactic Notation "step_ok" hyp(H) "as" ident(a) ident(s) ident(H1) :=
  apply bind_ok in H as (a & s & H1 & H).

(** The same for a pure first step. *)
Tactic Notation "pure_ok" hyp(H) "as" ident(a) ident(H1) :=
  let s := fresh "s" in
  let Hs := fresh "Hs" in
  apply bind_ok in H as (a & s & H1 & H);
  apply lift_inv in H1 as [H1 Hs]; subst s.

Section Transaction.
Import sqlite db.
Variable fault : nat -> bool.


Lemma keeps_ret {A} (a : A) : keeps_committed (ret a).
Proof. by intros c r c' [= <- <-]. Qed.

Lemma keeps_lift {A} (r0 : result A) : keeps_committed (lift r0).
Proof. by intros c r c' [= <- <-]. Qed.

Lemma keeps_execute {A} (stmt : database -> database * A) :
  keeps_committed (execute fault stmt).
Proof.
  intros c r c'. unfold execute. destruct (fault (issued c)).
  - by intros [= <- <-].
  - destruct (stmt (working c)). by intros [= <- <-].
Qed.

Lemma keeps_bind {A B} (m : SE connection A) (k : A -> SE connection B) :
  keeps_committed m -> (forall a, keeps_committed (k a)) -> keeps_committed (bind m k).
Proof.
  intros Hm Hk c r c' Hrun.
  apply bind_inv in Hrun as [(e & Hrun & _)|(a & c1 & Hrun & Hrest)].
  - by apply Hm in Hrun.
  - apply Hm in Hrun. apply Hk in Hrest. congruence.
Qed.

Lemma keeps_insert_errors correction_id errors : forall counts,
  keeps_committed (insert_errors fault correction_id errors counts).
Proof.
  induction errors as [|error rest IH]; intros counts; cbn [insert_errors].
  - apply keeps_ret.
  - repeat (apply keeps_bind; [by auto using keeps_lift, keeps_execute|intros ?]).
    apply IH.
Qed.

Lemma execute_ok {A} (stmt : database -> database * A) c a c' :
  execute fault stmt c = (Ok a, c') ->
  working c' = fst (stmt (working c)) /\ a = snd (stmt (working c))
  /\ committed c' = committed c.
Proof.
  unfold execute. destruct (fault (issued c)); [done|].
  destruct (stmt (working c)). by intros [= <- <-].
Qed.

Lemma commit_ok c c' :
  commit fault c = (Ok tt, c') -> committed c' = working c /\ working c' = working c.
Proof. unfold commit. destruct (fault (issued c)); [done|]. by intros [= <-]. Qed.

Lemma commit_raise c e c' : commit fault c = (Raise e, c') -> committed c' = committed c.
Proof. unfold commit. destruct (fault (issued c)); [|done]. by intros [= _ <-]. Qed.

(** [init_db] leaves the rows as they are, whether it raises or not. *)
Lemma init_db_rows d k r c :
  init_db fault (connect d k) = (r, c) -> committed c = d /\ (r = Ok tt -> working c = d).
Proof.
  unfold init_db. intros Hrun.
  apply bind_inv in Hrun as [(e & Hrun & ->)|(a1 & c1 & H1 & Hrun)].
  { apply keeps_execute in Hrun. done. }
  apply execute_ok in H1 as (W1 & _ & C1). cbn in W1, C1.
  apply bind_inv in Hrun as [(e & Hrun & ->)|(a2 & c2 & H2 & Hrun)].
  { apply keeps_execute in Hrun. split; [congruence|done]. }
  apply execute_ok in H2 as (W2 & _ & C2). cbn in W2.
  apply bind_inv in Hrun as [(e & Hrun & ->)|(a3 & c3 & H3 & Hrun)].
  { apply keeps_execute in Hrun. split; [congruence|done]. }
  apply execute_ok in H3 as (W3 & _ & C3). cbn in W3.
  destruct r as [[]|e].
  - apply commit_ok in Hrun as [? ?]. split; [congruence|]. intros _. congruence.
  - apply commit_raise in Hrun. split; [congruence|done].
Qed.

End Transaction.

Section Recording.
Import sqlite db.
Variable fault : nat -> bool.


Lemma four_keys_initial : four_keys category_counts0.
Proof.
  intros k. unfold category_counts0, spec.categories.
  rewrite !lookup_insert_is_Some, lookup_empty, !elem_of_cons, elem_of_nil.
  split.
  - intros [->|[_ [->|[_ [->|[_ [->|[_ Hn]]]]]]]]; try tauto. by destruct Hn.
  - intros [->|[->|[->|[->|[]]]]].
    + by left.
    + right. split; [done|]. by left.
    + right. split; [done|]. right. split; [done|]. by left.
    + right. split; [done|]. right. split; [done|]. right. split; [done|]. by left.
Qed.

Lemma normalize_in_categories c : spec.normalize c ∈ spec.categories.
Proof.
  unfold spec.normalize. case_bool_decide; [done|].
  unfold spec.categories. set_solver.
Qed.

Lemma four_keys_select counts c :
  four_keys counts ->
  match counts !! c with None => str "grammar" | Some _ => c end = spec.normalize c.
Proof.
  intros Hk. unfold spec.normalize. specialize (Hk c).
  destruct (counts !! c) eqn:E.
  - rewrite bool_decide_eq_true_2; [done|]. apply Hk. by eexists.
  - rewrite bool_decide_eq_false_2; [done|]. intros Hin. apply Hk in Hin. by destruct Hin.
Qed.

Lemma four_keys_bump counts c :
  four_keys counts -> c ∈ spec.categories ->
  four_keys (<[c := counts !!! c + 1]> counts).
Proof.
  intros Hk Hc k. rewrite lookup_insert_is_Some. split.
  - intros [<-|[_ Hs]]; [done|by apply Hk].
  - intros Hin. destruct (decide (c = k)) as [->|Hne]; [by left|].
    right. split; [done|]. by apply Hk.
Qed.

Lemma grouped_cons k c cs :
  spec.grouped k (c :: cs) = (if text_eqb k c then 1 else 0) + spec.grouped k cs.
Proof.
  unfold spec.grouped. cbn [List.filter]. destruct (text_eqb k c); cbn [length]; lia.
Qed.

Lemma bump_lookup (counts : gmap text Z) c k :
  <[c := counts !!! c + 1]> counts !!! k = counts !!! k + (if text_eqb k c then 1 else 0).
Proof.
  unfold text_eqb. case_bool_decide as Hkc.
  - subst. by rewrite lookup_total_insert_eq.
  - rewrite lookup_total_insert_ne by done. lia.
Qed.


Lemma insert_errors_ok correction_id findings : forall counts c counts' c',
  four_keys counts ->
  insert_errors fault correction_id findings counts c = (Ok counts', c') ->
  exists cats rows,
    spec.categories_of findings = Some cats
    /\ errors_appended (working c) (working c') rows
    /\ map e_category rows = cats
    /\ Forall (fun r => e_correction_id r = correction_id) rows
    /\ four_keys counts'
    /\ forall k, counts' !!! k = counts !!! k + spec.grouped k cats.
Proof.
  induction findings as [|error rest IH]; intros counts c counts' c' Hk Hrun;
    cbn [insert_errors] in Hrun.
  - injection Hrun as <- <-. exists [], []. split_and!; try done.
    + unfold errors_appended. by rewrite app_nil_r.
    + intros k. unfold spec.grouped. cbn. lia.
  - pure_ok Hrun as raw Hraw.
    pure_ok Hrun as category Hcat.
    rewrite (four_keys_select counts _ Hk) in Hrun.
    pure_ok Hrun as original Horiginal.
    pure_ok Hrun as correction Hcorrection.
    pure_ok Hrun as explanation Hexplanation.
    pure_ok Hrun as original' Horiginal'.
    pure_ok Hrun as correction' Hcorrection'.
    pure_ok Hrun as explanation' Hexplanation'.
    step_ok Hrun as u c1 Hexec. apply execute_ok in Hexec as (Hw & _ & _).
    destruct error as [| | | | | |items]; try done. unfold py.get in Hraw.
    assert (raw = from_option id (JStr (str "grammar")) (py.lookup_item (str "category") items))
      as -> by congruence.
    clear Hraw.
    destruct (from_option id (JStr (str "grammar")) (py.lookup_item (str "category") items))
      as [| | | |s| |] eqn:Hfield; try done.
    unfold py.lower_method in Hcat. assert (category = py.lower_str s) as -> by congruence.
    clear Hcat.
    apply IH in Hrun as (cats & rows & Hcats & (Hc & He & Hd & Hs) & Hmap & Hall & Hk' & Hcount);
      [|apply four_keys_bump; [done|apply normalize_in_categories]].
    rewrite Hw in Hc, He, Hd, Hs. unfold insert_error in Hc, He, Hd, Hs. cbn [fst corrections errors daily_stats seq_corrections] in Hc, He, Hd, Hs.
    eexists (spec.normalize (py.lower_str s) :: cats), (_ :: rows).
    split_and!.
    + cbn [spec.categories_of spec.category_of]. by rewrite Hfield, Hcats.
    + unfold errors_appended. rewrite He, <- app_assoc. done.
    + cbn [map e_category]. by rewrite Hmap.
    + constructor; [done|done].
    + done.
    + intros k. rewrite Hcount, bump_lookup, grouped_cons. lia.
Qed.


Lemma keeps_on_raise_bind {A B} (m : SE connection A) (k : A -> SE connection B) :
  keeps_committed m -> (forall a, keeps_on_raise (k a)) -> keeps_on_raise (bind m k).
Proof.
  intros Hm Hk c e c' Hrun.
  apply bind_inv in Hrun as [(e' & Hrun & _)|(a & c1 & Hrun & Hrest)].
  - by apply Hm in Hrun.
  - apply Hm in Hrun. apply Hk in Hrest. congruence.
Qed.

Lemma keeps_on_raise_commit {A} (a : A) :
  keeps_on_raise (bind (commit fault) (fun _ => ret a)).
Proof.
  intros c e c' Hrun.
  apply bind_inv in Hrun as [(e' & Hrun & _)|(u & c1 & _ & Hrest)]; [|done].
  by apply commit_raise in Hrun.
Qed.

(** Nothing of a call that raises is committed. *)
Lemma save_correction_body_raise now today original_text user_text errors better summary :
  keeps_on_raise
    (save_correction_body fault now today original_text user_text errors better summary).
Proof.
  unfold save_correction_body.
  repeat (apply keeps_on_raise_bind;
          [first [apply keeps_lift | apply keeps_execute | apply keeps_insert_errors]
          |intros ?]).
  apply keeps_on_raise_commit.
Qed.

Lemma save_correction_raise now today original_text user_text errors better summary d e d' :
  save_correction fault now today original_text user_text errors better summary d
  = (Raise e, d') ->
  d' = d.
Proof.
  unfold save_correction.
  destruct (init_db fault (connect d 0)) as [[[]|e0] c0] eqn:Hinit;
    apply init_db_rows in Hinit as [Hc0 Hw0].
  - destruct (save_correction_body _ _ _ _ _ _ _ _ _) as [r c] eqn:Hbody.
    intros [= -> <-]. apply save_correction_body_raise in Hbody. by rewrite Hbody.
  - by intros [= _ <-].
Qed.

(** All of a call that returns is committed: the Correction, its
    ErrorFindings and the DailyCounter of [today]. *)
Lemma save_correction_ok now today original_text user_text errors better summary d id d' :
  save_correction fault now today original_text user_text errors better summary d
  = (Ok id, d') ->
  exists findings cats crow rows,
    py.iter errors = Ok findings
    /\ spec.categories_of findings = Some cats
    /\ id = seq_corrections d + 1
    /\ corrections d' = corrections d ++ [crow]
    /\ c_id crow = id /\ c_timestamp crow = now
    /\ sqlite.errors d' = sqlite.errors d ++ rows
    /\ map e_category rows = cats
    /\ Forall (fun r => e_correction_id r = id) rows
    /\ daily_stats d' = <[today := spec.incremented (daily_stats d !! today) cats]> (daily_stats d)
    /\ seq_corrections d' = id.
Proof.
  unfold save_correction.
  destruct (init_db fault (connect d 0)) as [[[]|e0] c0] eqn:Hinit; [|done].
  apply init_db_rows in Hinit as [Hc0 _]. rewrite Hc0.
  destruct (save_correction_body _ _ _ _ _ _ _ _ _) as [r c] eqn:Hbody.
  intros [= -> <-]. unfold save_correction_body in Hbody.
  pure_ok Hbody as v1 H1. pure_ok Hbody as v2 H2.
  pure_ok Hbody as v3 H3. pure_ok Hbody as v4 H4.
  step_ok Hbody as cid c1 Hins. apply execute_ok in Hins as (Hw1 & Hcid & _).
  pure_ok Hbody as findings Hiter.
  step_ok Hbody as counts c2 Herrs.
  apply insert_errors_ok in Herrs
    as (cats & rows & Hcats & (Hc & He & Hd & Hs) & Hmap & Hall & _ & Hcount);
    [|apply four_keys_initial].
  step_ok Hbody as u1 c3 Hup. apply execute_ok in Hup as (Hw3 & _ & _).
  step_ok Hbody as u2 c4 Hcommit. destruct u2. apply commit_ok in Hcommit as [Hcommit _].
  injection Hbody as <- <-.
  rewrite Hcommit, Hw3. unfold upsert_daily_stats.
  cbn [fst corrections sqlite.errors daily_stats seq_corrections].
  rewrite Hc, He, Hd, Hs, Hw1. unfold insert_correction. cbn [connect working fst snd corrections sqlite.errors daily_stats seq_corrections] in *.
  eexists findings, cats, _, rows. split_and!; try done.
  f_equal. rewrite !Hcount. unfold spec.incremented.
  assert (forall k, k ∈ spec.categories -> category_counts0 !!! k = 0) as Hzero.
  { intros k Hk. unfold spec.categories in Hk.
    repeat (apply elem_of_cons in Hk as [->|Hk]; [by vm_compute|]). by apply elem_of_nil in Hk. }
  rewrite !Hzero by (unfold spec.categories; set_solver).
  destruct (daily_stats d !! today) as [row|]; cbn [from_option id zero_stats
    total_corrections spelling_count grammar_count style_count vocabulary_count];
    f_equal; lia.
Qed.

End Recording.

Section Counters.
Import sqlite db.


Lemma existsb_none {A} (f : A -> bool) l : Forall (fun x => f x = false) l -> existsb f l = false.
Proof. induction 1 as [|x l Hx _ IH]; cbn; [done|]. by rewrite Hx, IH. Qed.

Lemma filter_none {A} (f : A -> bool) l : Forall (fun x => f x = false) l -> List.filter f l = [].
Proof. induction 1 as [|x l Hx _ IH]; cbn; [done|]. by rewrite Hx. Qed.

Lemma filter_same {A} (f g : A -> bool) l :
  Forall (fun x => f x = g x) l -> List.filter f l = List.filter g l.
Proof. induction 1 as [|x l Hx _ IH]; cbn; [done|]. by rewrite Hx, IH. Qed.

Lemma filter_category_length k (rows : list error_row) :
  length (List.filter (fun e => text_eqb k (e_category e)) rows)
  = length (List.filter (text_eqb k) (map e_category rows)).
Proof.
  induction rows as [|r rows IH]; cbn; [done|].
  destruct (text_eqb k (e_category r)); cbn; by rewrite IH.
Qed.

(** The effect of a call that returned on the Corrections and findings of
    a date. *)
Lemma recorded_on d d' id now crow rows day :
  ids_bounded d ->
  id = seq_corrections d + 1 ->
  corrections d' = corrections d ++ [crow] ->
  c_id crow = id -> c_timestamp crow = now ->
  errors d' = errors d ++ rows ->
  Forall (fun r => e_correction_id r = id) rows ->
  Z.of_nat (length (spec.corrections_on d' day))
  = Z.of_nat (length (spec.corrections_on d day)) + (if ts_date now =? day then 1 else 0)
  /\ forall k,
       Z.of_nat (length (spec.findings_on d' day k))
       = Z.of_nat (length (spec.findings_on d day k))
         + (if ts_date now =? day then spec.grouped k (map e_category rows) else 0).
Proof.
  intros [Hcs Hes] Hid Hc Hcid Hts He Hrows.
  assert (spec.corrections_on d' day
          = spec.corrections_on d day ++ (if ts_date now =? day then [crow] else [])) as Hon.
  { unfold spec.corrections_on. rewrite Hc, List.filter_app. cbn [List.filter].
    rewrite Hts. by destruct (ts_date now =? day). }
  split.
  { rewrite Hon, length_app. destruct (ts_date now =? day); cbn [length]; lia. }
  intros k. unfold spec.findings_on. rewrite He, List.filter_app, length_app, Hon.
  rewrite Nat2Z.inj_add. f_equal.
  - (* the findings of earlier Corrections *)
    f_equal. f_equal. apply filter_same.
    eapply Forall_impl; [exact Hes|]. intros e Hle. cbn beta in *. f_equal.
    rewrite existsb_app.
    replace (existsb _ (if ts_date now =? day then [crow] else [])) with false;
      [by rewrite orb_false_r|].
    destruct (ts_date now =? day); [|done]. cbn [existsb]. rewrite Hcid, orb_false_r.
    symmetry. apply Z.eqb_neq. lia.
  - (* the findings of the new Correction *)
    destruct (ts_date now =? day).
    + unfold spec.grouped. rewrite <- filter_category_length. f_equal. f_equal.
      apply filter_same. eapply Forall_impl; [exact Hrows|]. intros r Hr. cbn beta in *.
      rewrite existsb_app. cbn [existsb]. rewrite Hcid, Hr, Z.eqb_refl.
      by rewrite orb_true_r, andb_true_r.
    + rewrite filter_none; [done|].
      eapply Forall_impl; [exact Hrows|]. intros r Hr. cbn beta in *.
      rewrite app_nil_r, existsb_none; [by rewrite andb_false_r|].
      unfold spec.corrections_on.
      apply Forall_forall. intros c Hin. apply list_elem_of_In, filter_In in Hin as [Hin _].
      apply list_elem_of_In in Hin.
      apply (proj1 (Forall_forall _ _) Hcs) in Hin. cbn beta in Hin. apply Z.eqb_neq. lia.
Qed.


Lemma sound_empty : sound sqlite.empty.
Proof.
  split; [by split; constructor|].
  intros day. unfold spec.counter. cbn. by rewrite lookup_empty.
Qed.

Lemma perform_sound c d : spec.same_day c -> sound d -> sound (snd (spec.perform c d)).
Proof.
  intros Hday [[Hcs Hes] Hcount]. unfold spec.perform.
  destruct (save_correction _ _ _ _ _ _ _ _ d) as [[new_id|e] d'] eqn:Hrun; cbn [snd].
  2:{ apply save_correction_raise in Hrun as ->. by split. }
  apply save_correction_ok in Hrun
    as (findings & cats & crow & rows & _ & _ & Hid & Hc & Hcid & Hts & He & Hmap & Hrows
        & Hd & Hseq).
  split.
  - split.
    + rewrite Hc, Hseq. apply Forall_app. split.
      * eapply Forall_impl; [exact Hcs|]. intros c0 ?. cbn beta in *. lia.
      * constructor; [lia|constructor].
    + rewrite He, Hseq. apply Forall_app. split.
      * eapply Forall_impl; [exact Hes|]. intros e ?. cbn beta in *. lia.
      * eapply Forall_impl; [exact Hrows|]. intros r ?. cbn beta in *. lia.
  - intros day.
    destruct (recorded_on d d' new_id (spec.call_now c) crow rows day) as [Hlen Hfind];
      try done.
    rewrite Hlen, !Hfind, Hmap. unfold spec.same_day in Hday. rewrite Hday.
    unfold spec.counter. rewrite Hd.
    destruct (Z.eqb_spec (spec.call_today c) day) as [->|Hne].
    + rewrite lookup_insert_eq. cbn [from_option]. unfold spec.incremented.
      specialize (Hcount day). unfold spec.counter in Hcount. rewrite Hcount.
      cbn [total_corrections spelling_count grammar_count style_count vocabulary_count].
      done.
    + rewrite lookup_insert_ne by done. specialize (Hcount day).
      unfold spec.counter in Hcount. rewrite Hcount. f_equal; lia.
Qed.

Lemma history_sound calls : Forall spec.same_day calls -> sound (spec.history calls).
Proof.
  unfold spec.history. generalize sound_empty. generalize sqlite.empty.
  induction calls as [|c calls IH]; intros d Hd Hall; cbn [fold_left]; [done|].
  inversion Hall as [|? ? Hc Hrest]; subst. apply IH; [|done]. by apply perform_sound.
Qed.

End Counters.

Section StoreClaims.
Import sqlite db.

(** Every call of [save_correction] is all or nothing -- a call that
    raises leaves the committed store as it was, a call that returns has
    committed the Correction, its ErrorFindings and the DailyCounter of
    the day that [date.today()] read. After any sequence of calls that
    succeed or fail at any point, each reading the clock twice on the same
    day, every DailyCounter counts each Correction of its date exactly once
    and each ErrorFinding once under its category. *)
Lemma save_correction_all_or_nothing :
  (forall (c : spec.call) (d : database),
     match spec.perform c d with
     | (Raise _, d') => d' = d
     | (Ok id, d') =>
         exists findings cats crow rows,
           py.iter (spec.call_errors c) = Ok findings
           /\ spec.categories_of findings = Some cats
           /\ id = seq_corrections d + 1
           /\ corrections d' = corrections d ++ [crow]
           /\ c_id crow = id /\ c_timestamp crow = spec.call_now c
           /\ errors d' = errors d ++ rows
           /\ map e_category rows = cats
           /\ Forall (fun r => e_correction_id r = id) rows
           /\ daily_stats d' =
              <[spec.call_today c :=
                  spec.incremented (daily_stats d !! spec.call_today c) cats]> (daily_stats d)
           /\ seq_corrections d' = id
     end)
  /\ (forall calls : list spec.call,
        Forall spec.same_day calls -> spec.counted_once (spec.history calls)).
Proof.
  split.
  - intros c d. unfold spec.perform.
    destruct (save_correction _ _ _ _ _ _ _ _ d) as [[id|e] d'] eqn:Hrun.
    + by apply save_correction_ok in Hrun.
    + by apply save_correction_raise in Hrun.
  - intros calls Hall. by apply history_sound.
Qed.

Lemma save_correction_all_or_nothing_witness :
  Forall spec.same_day sample_calls /\ spec.counted_once (spec.history sample_calls).
Proof.
  split.
  - repeat constructor.
  - apply (proj2 save_correction_all_or_nothing). repeat constructor.
Defined.

(** C5: [save_correction] reads the clock twice, for the timestamp of
    the Correction and for the key of the DailyCounter. A call whose two
    readings lie on either side of midnight returns and commits, yet the
    Correction and its three ErrorFindings, stored under Monday, are not
    counted by Monday's DailyCounter, and Tuesday's DailyCounter counts a
    Correction that Tuesday does not have. *)
Theorem save_correction_at_midnight :
  let tuesday := monday + 1 in
  let d' := snd (spec.perform midnight_call sqlite.empty) in
  fst (spec.perform midnight_call sqlite.empty) = Ok 1
  /\ map (fun r => (c_id (dc_row r), length (dc_errors r)))
       (get_daily_corrections tuesday (Some monday) d') = [(1, 3%nat)]
  /\ snd (get_daily_stats tuesday (Some monday) d') = zero_stats
  /\ get_daily_corrections tuesday (Some tuesday) d' = []
  /\ snd (get_daily_stats tuesday (Some tuesday) d')
     = {| total_corrections := 1; spelling_count := 1; grammar_count := 2;
          style_count := 0; vocabulary_count := 0 |}
  /\ ~ spec.counted_once d'.
Proof.
  intros tuesday d'. split_and!; try by vm_compute.
  intros Hcounted. specialize (Hcounted monday). by vm_compute in Hcounted.
Qed.

(** The category of each finding, from its [category] field. *)
Lemma categories_of_fields findings : forall cats,
  spec.categories_of findings = Some cats ->
  Forall2
    (fun finding cat =>
       exists items s,
         finding = JObj items
         /\ from_option id (JStr (str "grammar")) (py.lookup_item (str "category") items) = JStr s
         /\ cat = if bool_decide (py.lower_str s ∈ spec.categories)
                  then py.lower_str s else str "grammar")
    findings cats.
Proof.
  induction findings as [|f rest IH]; intros cats; cbn [spec.categories_of].
  - intros [= <-]. constructor.
  - destruct (spec.category_of f) as [c|] eqn:Hc; [|done].
    destruct (spec.categories_of rest) as [cs|]; [|done].
    intros [= <-]. constructor; [|by apply IH].
    unfold spec.category_of in Hc. destruct f as [| | | | | |items]; try done.
    destruct (from_option id _ _) as [| | | |s| |] eqn:Hfield; try done.
    injection Hc as <-. by exists items, s.
Qed.

(** C8, as amended: a call that returns changes the DailyCounter of today
    only, adds 1 to its total and, to each category count, the number of
    findings grouped into that category; each finding is stored and counted
    under its category string lower-cased when that is one of the four
    names, and under grammar otherwise. *)
Theorem save_correction_counts_today
    fault now today original_text user_text errors better_expression summary d new_id d' :
  save_correction fault now today original_text user_text errors better_expression summary d
  = (Ok new_id, d') ->
  exists findings cats rows,
    py.iter errors = Ok findings
    /\ sqlite.errors d' = sqlite.errors d ++ rows
    /\ map e_category rows = cats
    /\ Forall2
         (fun finding cat =>
            exists items s,
              finding = JObj items
              /\ from_option id (JStr (str "grammar"))
                   (py.lookup_item (str "category") items) = JStr s
              /\ cat = if bool_decide (py.lower_str s ∈ spec.categories)
                       then py.lower_str s else str "grammar")
         findings cats
    /\ spec.counter d' today =
       (let old := spec.counter d today in
        {| total_corrections := total_corrections old + 1;
           spelling_count := spelling_count old + spec.grouped (str "spelling") cats;
           grammar_count := grammar_count old + spec.grouped (str "grammar") cats;
           style_count := style_count old + spec.grouped (str "style") cats;
           vocabulary_count := vocabulary_count old + spec.grouped (str "vocabulary") cats |})
    /\ (forall day, day <> today -> daily_stats d' !! day = daily_stats d !! day).
Proof.
  intros Hrun. apply save_correction_ok in Hrun
    as (findings & cats & crow & rows & Hiter & Hcats & _ & _ & _ & _ & He & Hmap & _ & Hd & _).
  exists findings, cats, rows. split_and!; try done.
  - by apply categories_of_fields.
  - unfold spec.counter. by rewrite Hd, lookup_insert_eq.
  - intros day Hne. by rewrite Hd, lookup_insert_ne.
Qed.

Lemma save_correction_counts_today_witness :
  let d := spec.history (firstn 1 sample_calls) in
  let d' := snd (spec.perform (sample_call no_fault 4 three_findings) d) in
  spec.counter d monday =
    {| total_corrections := 1; spelling_count := 1; grammar_count := 2;
       style_count := 0; vocabulary_count := 0 |}
  /\ spec.counter d' monday =
    {| total_corrections := 2; spelling_count := 2; grammar_count := 4;
       style_count := 0; vocabulary_count := 0 |}
  /\ forall day, day <> monday -> daily_stats d' !! day = daily_stats d !! day.
Proof.
  intros d d'.
  destruct (save_correction_counts_today no_fault
              {| ts_date := monday; ts_micros := 4 |} monday
              (JStr (str "I has writed teh code")) (JStr (str "I has writed teh code"))
              (JArr three_findings) (JStr (str "I have written the code")) JNull
              d 2 d' ltac:(by vm_compute))
    as (findings & cats & rows & Hiter & He & Hmap & _ & Hcount & Hother).
  split; [by vm_compute|]. split; [|exact Hother].
  rewrite Hcount. by vm_compute.
Defined.

(** C8, as stated, fails: the category string "Spelling" is not one of the
    four names, yet the finding is stored under spelling and counted in
    [spelling_count], not under grammar. *)
Lemma capitalized_category_is_not_grammar :
  let d' := snd (spec.perform (sample_call no_fault 1 [finding "teh" "the" "Spelling"])
                   sqlite.empty) in
  (str "Spelling" ∉ spec.categories)
  /\ map e_category (errors d') = [str "spelling"]
  /\ map e_category (errors d') <> [str "grammar"]
  /\ spec.counter d' monday =
       {| total_corrections := 1; spelling_count := 1; grammar_count := 0;
          style_count := 0; vocabulary_count := 0 |}.
Proof.
  split; [|by vm_compute].
  unfold spec.categories. rewrite !elem_of_cons, elem_of_nil.
  intros [H|[H|[H|[H|[]]]]]; by vm_compute in H.
Qed.

(** The rows that a weekly window selects. *)
Lemma rows_between_spec lo hi d k row :
  (k, row) ∈ rows_between lo hi d <-> daily_stats d !! k = Some row /\ lo <= k <= hi.
Proof.
  unfold rows_between. rewrite list_elem_of_In, filter_In, <- list_elem_of_In.
  rewrite elem_of_map_to_list. cbn [fst]. rewrite andb_true_iff, !Z.leb_le. tauto.
Qed.

(** What [get_weekly_stats] does compute: the window starts on the Monday
    that lies [weeks_back] weeks before the current week and spans seven
    days; the category counts are the sums over the rows of the window;
    [total_corrections] is the number of those rows. *)
Lemma get_weekly_stats_window today weeks_back d ws :
  get_weekly_stats today weeks_back d = Ok ws ->
  let rows := rows_between (week_start ws) (week_end ws) d in
  week_start ws = today - weekday today - 7 * weeks_back
  /\ weekday (week_start ws) = 0
  /\ week_end ws = week_start ws + 6
  /\ spelling_count (week_stats ws) = sum_of spelling_count rows
  /\ grammar_count (week_stats ws) = sum_of grammar_count rows
  /\ style_count (week_stats ws) = sum_of style_count rows
  /\ vocabulary_count (week_stats ws) = sum_of vocabulary_count rows
  /\ total_corrections (week_stats ws) = Z.of_nat (length rows).
Proof.
  unfold get_weekly_stats, date_sub_days, date_add_days.
  destruct (_ && _ && _) eqn:H1; [|done].
  destruct ((Z.abs 6 <=? 999999999) && _ && _) eqn:H2; [|done].
  intros [= <-].
  cbn [week_start week_end week_stats spelling_count grammar_count
    style_count vocabulary_count total_corrections].
  split_and!; try done; try lia.
  unfold weekday.
  replace (today - ((today + 6) mod 7 + 7 * weeks_back) + 6)
    with ((today + 6) - (today + 6) mod 7 + (- weeks_back) * 7) by lia.
  rewrite Z.mod_add by lia. rewrite Zminus_mod, Zmod_mod, Z.sub_diag. done.
Qed.

(** The windows of this week and of last week are adjacent. *)
Lemma get_weekly_stats_adjacent today d this_week last_week :
  get_weekly_stats today 0 d = Ok this_week ->
  get_weekly_stats today 1 d = Ok last_week ->
  week_start this_week = week_end last_week + 1
  /\ week_end this_week - week_start this_week = 6
  /\ week_end last_week - week_start last_week = 6.
Proof.
  intros H0 H1. apply get_weekly_stats_window in H0, H1. cbn zeta in H0, H1. lia.
Qed.

(** C4: on a store whose only DailyCounter row of the week holds two
    corrections, [get_weekly_stats] reports [total_corrections] 1, the
    number of rows in the window, where the sum of the rows'
    [total_corrections] is 2, as [get_all_time_stats] reports it. *)
Theorem get_weekly_stats_counts_rows :
  let d := spec.history [sample_call no_fault 1 three_findings;
                         sample_call no_fault 2 three_findings] in
  exists ws,
    get_weekly_stats (monday + 2) 0 d = Ok ws
    /\ week_start ws = monday /\ week_end ws = monday + 6
    /\ sum_of total_corrections (rows_between monday (monday + 6) d) = 2
    /\ total_corrections (all_stats (get_all_time_stats d)) = 2
    /\ total_corrections (week_stats ws) = 1.
Proof. intros d. eexists. split; [by vm_compute|]. by vm_compute. Qed.

End StoreClaims.

(** ** The analyzer gateway *)
Section Gateway.
Import claude_api.

Lemma upto_last_brace_none t : upto_last_brace t = None <-> 125 ∉ t.
Proof.
  induction t as [|c t IH]; cbn [upto_last_brace].
  - split; [intros _; apply not_elem_of_nil|done].
  - rewrite not_elem_of_cons, <- IH.
    destruct (upto_last_brace t); [split; [done|by intros [_ ?]]|].
    destruct (Z.eqb_spec c 125) as [->|Hne]; split; try done; try tauto;
      try (intros _; split; [congruence|done]).
Qed.

Lemma upto_last_brace_some t : forall m,
  upto_last_brace t = Some m <->
  exists body post, m = body ++ [125] /\ t = m ++ post /\ 125 ∉ post.
Proof.
  induction t as [|c t IH]; intros m; cbn [upto_last_brace].
  - split; [done|]. intros (body & post & -> & Heq & _). by destruct body.
  - destruct (upto_last_brace t) as [m'|] eqn:Hu.
    + split.
      * intros [= <-]. destruct (proj1 (IH m') eq_refl) as (body & post & -> & -> & Hpost).
        clear IH.
        exists (c :: body), post. by rewrite <- !app_comm_cons.
      * intros (body & post & -> & Heq & Hpost). f_equal.
        destruct body as [|b body]; simplify_eq/=.
        -- apply upto_last_brace_none in Hpost. congruence.
        -- f_equal. symmetry. assert (Some m' = Some (body ++ [125])) as [= ->]; [|done].
           apply (proj2 (IH (body ++ [125]))). by exists body, post.
    + apply upto_last_brace_none in Hu.
      assert (forall body post, t = (body ++ [125]) ++ post -> False) as Hno.
      { intros body post ->. apply Hu. rewrite !elem_of_app, list_elem_of_singleton. tauto. }
      destruct (Z.eqb_spec c 125) as [->|Hne].
      * split.
        -- intros [= <-]. by exists [], t.
        -- intros (body & post & -> & Heq & Hpost).
           destruct body as [|b body]; simplify_eq/=; [done|].
           exfalso. by eapply Hno.
      * split; [done|]. intros (body & post & -> & Heq & Hpost). exfalso.
        destruct body as [|b body]; simplify_eq/=. by eapply Hno.
Qed.

(** No match: no ['}'] comes after a ['{']. *)
Lemma search_braces_none t :
  search_braces t = None <->
  ~ exists pre body post, t = pre ++ 123 :: body ++ 125 :: post.
Proof.
  induction t as [|c t IH]; cbn [search_braces].
  - split; [|done]. intros _ (pre & body & post & Heq). by destruct pre.
  - destruct (Z.eqb_spec c 123) as [->|Hne].
    + destruct (upto_last_brace t) as [m|] eqn:Hu.
      * split; [done|]. intros Hn. exfalso. apply Hn.
        apply upto_last_brace_some in Hu as (body & post & -> & -> & _).
        exists [], body, post. by rewrite <- app_assoc.
      * rewrite IH. apply upto_last_brace_none in Hu. split.
        -- intros _ (pre & body & post & Heq). apply Hu.
           destruct pre as [|p pre]; simplify_eq/=;
             rewrite !elem_of_app, ?elem_of_cons, ?elem_of_app, ?elem_of_cons; tauto.
        -- intros Hn (pre & body & post & ->). apply Hn.
           by exists (123 :: pre), body, post.
    + rewrite IH. split.
      * intros Hn (pre & body & post & Heq). apply Hn.
        destruct pre as [|p pre]; simplify_eq/=.
        by exists pre, body, post.
      * intros Hn (pre & body & post & ->). apply Hn.
        by exists (c :: pre), body, post.
Qed.

(** The match: from the first ['{'] through the last ['}']. *)
Lemma search_braces_some t : forall m,
  search_braces t = Some m <->
  exists pre body post,
    m = 123 :: body ++ [125] /\ t = pre ++ m ++ post /\ (123 ∉ pre) /\ (125 ∉ post).
Proof.
  induction t as [|c t IH]; intros m; cbn [search_braces].
  - split; [done|]. intros (pre & body & post & -> & Heq & _). by destruct pre.
  - destruct (Z.eqb_spec c 123) as [->|Hne].
    + destruct (upto_last_brace t) as [m'|] eqn:Hu.
      * split.
        -- intros [= <-].
           apply upto_last_brace_some in Hu as (body & post & -> & -> & Hpost).
           exists [], body, post. split_and!; try done. apply not_elem_of_nil.
        -- intros (pre & body & post & -> & Heq & Hpre & Hpost).
           destruct pre as [|p pre]; simplify_eq/=.
           2:{ exfalso. apply Hpre. by left. }
           f_equal. f_equal. assert (Some m' = Some (body ++ [125])) as [= ->]; [|done].
           rewrite <- Hu. apply (proj2 (upto_last_brace_some _ (body ++ [125]))).
           by exists body, post.
      * apply upto_last_brace_none in Hu.
        assert (search_braces t = None) as ->.
        { apply search_braces_none. intros (pre & body & post & ->). apply Hu.
          rewrite !elem_of_app, ?elem_of_cons, ?elem_of_app, ?elem_of_cons. tauto. }
        split; [done|]. intros (pre & body & post & -> & Heq & Hpre & Hpost). exfalso.
        destruct pre as [|p pre]; simplify_eq/=; apply Hu;
          rewrite !elem_of_app, ?elem_of_cons, ?elem_of_app, ?list_elem_of_singleton; tauto.
    + rewrite IH. split.
      * intros (pre & body & post & -> & -> & Hpre & Hpost).
        exists (c :: pre), body, post. split_and!; try done.
        rewrite not_elem_of_cons. split; [congruence|done].
      * intros (pre & body & post & -> & Heq & Hpre & Hpost).
        destruct pre as [|p pre]; simplify_eq/=.
        exists pre, body, post. split_and!; try done.
        rewrite not_elem_of_cons in Hpre. tauto.
Qed.

Lemma lstrip_suffix t : exists spaces, t = spaces ++ lstrip t.
Proof.
  induction t as [|c t [spaces IH]]; cbn [lstrip]; [by exists []|].
  destruct (isspace c); [|by exists []].
  exists (c :: spaces). by rewrite IH at 1.
Qed.

Lemma lstrip_app_nonspace pre x rest :
  isspace x = false -> lstrip (pre ++ x :: rest) = lstrip pre ++ x :: rest.
Proof.
  intros Hx. induction pre as [|c pre IH]; cbn [lstrip app]; [by rewrite Hx|].
  by destruct (isspace c).
Qed.

(** Stripping a text leaves what lies between two non-space characters. *)
Lemma strip_around pre x body y post :
  isspace x = false -> isspace y = false ->
  strip (pre ++ (x :: body ++ [y]) ++ post)
  = lstrip pre ++ (x :: body ++ [y]) ++ rev (lstrip (rev post)).
Proof.
  intros Hx Hy. unfold strip. cbn [app]. rewrite lstrip_app_nonspace by done.
  rewrite rev_app_distr. cbn [rev]. rewrite !rev_app_distr. cbn [rev app].
  rewrite <- !app_assoc. cbn [app].
  rewrite lstrip_app_nonspace by done.
  rewrite rev_app_distr. cbn [rev]. rewrite !rev_app_distr. cbn [rev app].
  rewrite !rev_involutive, <- !app_assoc. done.
Qed.

Lemma strip_infix t : exists before after, t = before ++ strip t ++ after.
Proof.
  unfold strip. destruct (lstrip_suffix t) as [before Ht].
  destruct (lstrip_suffix (rev (lstrip t))) as [spaces Hr].
  exists before, (rev spaces).
  rewrite <- rev_app_distr, <- Hr, rev_involutive. done.
Qed.

(** C9 (amended): [analyze_grammar] returns what the strict parse of the
    stripped response gives; when that parse fails with a decode error it parses
    the text from the first ['{'] through the last ['}'] instead, and
    returns [None] when there is no such text or it does not parse. Hence
    a response that is no JSON but wraps one valid brace-delimited object
    in prose without braces gives that object, and a response without
    valid JSON anywhere gives [None]. *)
Theorem analyze_grammar_recovers (json_loads : text -> loaded) :
  (forall content v,
     json_loads (strip content) = Loaded v ->
     analyze_grammar json_loads (Response content) = Ok v)
  /\ (forall content,
        json_loads (strip content) = DecodeError ->
        (forall pre body post,
           strip content = pre ++ (123 :: body ++ [125]) ++ post ->
           123 ∉ pre -> 125 ∉ post ->
           analyze_grammar json_loads (Response content)
           = Ok match json_loads (123 :: body ++ [125]) with Loaded v => v | _ => JNull end)
        /\ ((~ exists pre body post, strip content = pre ++ 123 :: body ++ 125 :: post) ->
            analyze_grammar json_loads (Response content) = Ok JNull))
  /\ (forall pre body post v,
        json_loads (strip (pre ++ (123 :: body ++ [125]) ++ post)) = DecodeError ->
        123 ∉ pre -> 125 ∉ post ->
        json_loads (123 :: body ++ [125]) = Loaded v ->
        analyze_grammar json_loads (Response (pre ++ (123 :: body ++ [125]) ++ post)) = Ok v)
  /\ (forall content,
        (forall before part after,
           content = before ++ part ++ after ->
           forall v, json_loads part <> Loaded v) ->
        analyze_grammar json_loads (Response content) = Ok JNull).
Proof.
  assert (forall content pre body post,
            json_loads (strip content) = DecodeError ->
            strip content = pre ++ (123 :: body ++ [125]) ++ post ->
            123 ∉ pre -> 125 ∉ post ->
            analyze_grammar json_loads (Response content)
            = Ok match json_loads (123 :: body ++ [125]) with Loaded v => v | _ => JNull end)
    as Hfallback.
  { intros content pre body post Hstrict Heq Hpre Hpost.
    unfold analyze_grammar, parse_response. rewrite Hstrict.
    rewrite (proj2 (search_braces_some (strip content) (123 :: body ++ [125])));
      [by destruct (json_loads _)|].
    by exists pre, body, post. }
  split_and!.
  - intros content v Hv. unfold analyze_grammar, parse_response. by rewrite Hv.
  - intros content Hstrict. split; [intros pre body post; by apply Hfallback|].
    intros Hnone. unfold analyze_grammar, parse_response. rewrite Hstrict.
    by rewrite (proj2 (search_braces_none (strip content)) Hnone).
  - intros pre body post v Hstrict Hpre Hpost Hv.
    rewrite (Hfallback _ (lstrip pre) body (rev (lstrip (rev post)))), Hv; try done.
    + by apply strip_around.
    + intros Hin. apply Hpre. destruct (lstrip_suffix pre) as [spaces Hs].
      rewrite Hs. apply elem_of_app. by right.
    + intros Hin. apply Hpost. destruct (lstrip_suffix (rev post)) as [spaces Hs].
      apply list_elem_of_In, in_rev, list_elem_of_In in Hin.
      apply list_elem_of_In, in_rev, list_elem_of_In. rewrite Hs. apply elem_of_app. by right.
  - intros content Hnone. unfold analyze_grammar, parse_response.
    destruct (strip_infix content) as (before & after & Hcontent).
    destruct (json_loads (strip content)) as [v| |] eqn:Hstrict; [|
      |done].
    + exfalso. by eapply (Hnone before (strip content) after).
    + destruct (search_braces (strip content)) as [group|] eqn:Hsearch; [|done].
      destruct (json_loads group) as [v| |] eqn:Hgroup; [|done|done].
      exfalso. apply search_braces_some in Hsearch as (pre & body & post & Hm & Hs & _).
      eapply (Hnone (before ++ pre) group (post ++ after)); [|exact Hgroup].
      rewrite Hcontent at 1. rewrite Hs. by rewrite <- !app_assoc.
Qed.

(** A response that wraps the object in prose. *)
Lemma analyze_grammar_recovers_witness :
  let pre := dq "Here is the analysis: " in
  let body := dq "'has_errors': false, 'errors': [], 'skipped': false" in
  let post := dq " Hope this helps!" in
  json_text.loads (strip (pre ++ (123 :: body ++ [125]) ++ post)) = DecodeError
  /\ analyze_grammar json_text.loads (Response (pre ++ (123 :: body ++ [125]) ++ post))
     = Ok (JObj [(str "has_errors", JBool false); (str "errors", JArr []);
                 (str "skipped", JBool false)]).
Proof.
  intros pre body post. split; [by vm_compute|].
  apply (proj1 (proj2 (proj2 (analyze_grammar_recovers json_text.loads)))).
  - by vm_compute.
  - apply (bool_decide_unpack _). by vm_compute.
  - apply (bool_decide_unpack _). by vm_compute.
  - by vm_compute.
Defined.

(** C9, as stated, fails: the response is prose followed by one valid
    JSON object, and the prose holds a pair of braces of its own; the text
    from the first ['{'] through the last ['}'] is then no JSON, and
    [analyze_grammar] returns [None]. *)
Lemma embedded_object_is_not_recovered :
  let prose := dq "Use {x} as a placeholder. " in
  let object := dq "{'has_errors': false, 'errors': [], 'skipped': false}" in
  answer_after_braces = prose ++ object
  /\ json_text.loads object
     = Loaded (JObj [(str "has_errors", JBool false); (str "errors", JArr []);
                     (str "skipped", JBool false)])
  /\ search_braces (strip answer_after_braces)
     = Some (dq "{x} as a placeholder. " ++ object)
  /\ json_text.loads (dq "{x} as a placeholder. " ++ object) = DecodeError
  /\ analyze_grammar json_text.loads (Response answer_after_braces) = Ok JNull.
Proof. intros prose object. split_and!; by vm_compute. Qed.

End Gateway.

(** ** The pipeline orchestrator *)

Section Steps.
Context `{language_detect.UnicodeData}.
Variable E : env.

Lemma keeps_queue_ret {A} (a : A) : keeps_queue (ret a).
Proof. by intros w r w' [= <- <-]. Qed.

Lemma keeps_queue_lift {A} (r0 : result A) : keeps_queue (lift r0).
Proof. by intros w r w' [= <- <-]. Qed.

Lemma keeps_queue_bind {A B} (m : SE world A) (k : A -> SE world B) :
  keeps_queue m -> (forall a, keeps_queue (k a)) -> keeps_queue (bind m k).
Proof.
  intros Hm Hk w r w' Hrun.
  apply bind_inv in Hrun as [(e & Hrun & _)|(a & w1 & Hrun & Hrest)].
  - by apply Hm in Hrun.
  - apply Hm in Hrun. apply Hk in Hrest. congruence.
Qed.

Lemma keeps_queue_emit e : keeps_queue (calls.emit e).
Proof. by intros w r w' [= <- <-]. Qed.

Lemma keeps_queue_print l : keeps_queue (calls.print l).
Proof. by intros w r w' [= <- <-]. Qed.

Lemma keeps_queue_should_check v : keeps_queue (calls.should_check_grammar v).
Proof. by intros w r w' [= <- <-]. Qed.

(** An outcome that is not [None] comes without a line on stderr. *)
Lemma printed_nothing (loads : text -> claude_api.loaded) outcome a :
  claude_api.analyze_grammar loads outcome = Ok a -> a <> JNull ->
  claude_api.printed loads outcome = None.
Proof.
  destruct outcome as [| | | |content]; cbn; try (by intros [= <-]).
  unfold claude_api.parse_response, claude_api.parse_raises.
  destruct (loads (strip content)); [done| |by intros [= <-]].
  destruct (claude_api.search_braces _); [|done].
  destruct (loads _); by intros [= <-].
Qed.

(** One call of the analyzer. *)
Lemma analyze_grammar_step t w r w' :
  calls.analyze_grammar E t w = (r, w') ->
  r = claude_api.analyze_grammar (json_loads E) (api_call E (tick w) t)
  /\ store w' = store w /\ notes w' = notes w /\ retry_queue w' = retry_queue w
  /\ stdout w' = stdout w /\ tick w' = S (tick w)
  /\ events w' = events w ++ [match r with
                              | Ok a => EvAnalyze t a
                              | Raise e => EvAnalyzeRaised t e
                              end].
Proof.
  unfold calls.analyze_grammar. intros [= <- <-].
  destruct (claude_api.printed _ _); cbn; split_and!; try done; f_equal; lia.
Qed.

(** A call of the analyzer that gives an outcome. *)
Lemma analyze_grammar_value t w a :
  claude_api.analyze_grammar (json_loads E) (api_call E (tick w) t) = Ok a -> a <> JNull ->
  calls.analyze_grammar E t w = (Ok a, advance 1 (add_event (EvAnalyze t a) w)).
Proof.
  intros Hvalue Hsome. unfold calls.analyze_grammar.
  by rewrite (printed_nothing _ _ a Hvalue Hsome), Hvalue.
Qed.

Lemma keeps_queue_analyze t : keeps_queue (calls.analyze_grammar E t).
Proof. intros w r w' Hrun. by apply analyze_grammar_step in Hrun as (_ & _ & _ & ? & _). Qed.

Lemma keeps_queue_obsidian p a : keeps_queue (calls.save_to_obsidian E p a).
Proof.
  intros w r w'. unfold calls.save_to_obsidian.
  destruct (obsidian.save_correction _ _ _ _ _ _ _ _) as [[[]|x] files]; by intros [= <- <-].
Qed.

Lemma keeps_queue_db o u e b s : keeps_queue (calls.save_to_db E o u e b s).
Proof.
  intros w r w'. unfold calls.save_to_db.
  destruct (db.save_correction _ _ _ _ _ _ _ _ _). by intros [= <- <-].
Qed.

End Steps.

(** Settle [keeps_queue] for a sequence of steps, branch by branch. *)
Ltac keeps_queue_steps :=
  repeat first
    [ apply keeps_queue_ret
    | apply keeps_queue_lift
    | apply keeps_queue_emit
    | apply keeps_queue_print
    | apply keeps_queue_should_check
    | apply keeps_queue_analyze
    | apply keeps_queue_obsidian
    | apply keeps_queue_db
    | apply keeps_queue_bind; [|intros ?]
    | match goal with
      | |- keeps_queue (if ?b then _ else _) => destruct b
      | |- keeps_queue (match ?x with _ => _ end) => destruct x
      end ].

Section PrimaryPipeline.
Context `{language_detect.UnicodeData}.
Variable E : env.

Lemma keeps_queue_notify analysis errors : keeps_queue (check_grammar.notify analysis errors).
Proof. unfold check_grammar.notify, calls.send_notification. keeps_queue_steps. Qed.

Lemma keeps_queue_record p a : keeps_queue (check_grammar.record E p a).
Proof.
  unfold check_grammar.record.
  keeps_queue_steps; try apply keeps_queue_notify.
Qed.

Lemma keeps_queue_body input : keeps_queue (check_grammar.body E input).
Proof.
  unfold check_grammar.body. keeps_queue_steps; try apply keeps_queue_record.
Qed.

(** [check_grammar.py] never writes the retry queue. *)
Lemma main_keeps_queue input w :
  retry_queue (snd (check_grammar.main E input w)) = retry_queue w.
Proof.
  unfold check_grammar.main.
  destruct (check_grammar.body E input w) as [[[]|e] w'] eqn:Hbody;
    apply keeps_queue_body in Hbody; [done|].
  by destruct e.
Qed.

End PrimaryPipeline.

Section PrimaryRuns.
Context `{language_detect.UnicodeData}.
Variable E : env.

Lemma admitted_nonempty t : language_detect.should_check_grammar t = true -> py.truthy (JStr t) = true.
Proof. by destruct t. Qed.

(** The run of [main] up to the analyzer call, for a hook input whose
    [prompt] is an admitted text. *)
Lemma body_admitted items t w :
  py.lookup_item (str "prompt") items = Some (JStr t) ->
  language_detect.should_check_grammar t = true ->
  check_grammar.body E (Ok (JObj items)) w =
  bind (calls.analyze_grammar E t) (fun analysis =>
  bind (if py.truthy analysis
        then bind (lift (py.get analysis (str "skipped") JNull)) (fun skipped =>
             if py.truthy skipped
             then bind (calls.print LHookResponse) (fun _ => lift (Raise (SystemExit 0)))
             else
               bind (lift (py.get analysis (str "has_errors") JNull)) (fun has_errors =>
               bind (if py.truthy has_errors then ret has_errors
                     else lift (py.get analysis (str "better_expression") JNull))
                 (fun findings =>
                    if py.truthy findings then check_grammar.record E (JStr t) analysis
                    else ret tt)))
        else ret tt)
       (fun _ => calls.print LHookResponse))
    (add_event (EvAdmission (JStr t) (Ok true)) w).
Proof.
  intros Hprompt Hadmit.
  unfold check_grammar.body. unfold bind at 1. unfold lift at 1.
  unfold bind at 1. unfold lift at 1, py.get at 1. rewrite Hprompt. cbn [from_option id].
  rewrite (admitted_nonempty t Hadmit).
  unfold bind at 1. unfold ret at 1.
  unfold bind at 1. unfold calls.should_check_grammar at 1. rewrite Hadmit. cbn [negb].
  done.
Qed.

(** The same, when the analyzer gives an outcome. *)
Lemma body_analyzed items t a w :
  py.lookup_item (str "prompt") items = Some (JStr t) ->
  language_detect.should_check_grammar t = true ->
  claude_api.analyze_grammar (json_loads E) (api_call E (tick w) t) = Ok a -> a <> JNull ->
  check_grammar.body E (Ok (JObj items)) w =
  bind (if py.truthy a
        then bind (lift (py.get a (str "skipped") JNull)) (fun skipped =>
             if py.truthy skipped
             then bind (calls.print LHookResponse) (fun _ => lift (Raise (SystemExit 0)))
             else
               bind (lift (py.get a (str "has_errors") JNull)) (fun has_errors =>
               bind (if py.truthy has_errors then ret has_errors
                     else lift (py.get a (str "better_expression") JNull))
                 (fun findings =>
                    if py.truthy findings then check_grammar.record E (JStr t) a
                    else ret tt)))
        else ret tt)
       (fun _ => calls.print LHookResponse)
    (advance 1 (add_event (EvAnalyze t a) (add_event (EvAdmission (JStr t) (Ok true)) w))).
Proof.
  intros Hprompt Hadmit Hvalue Hsome.
  rewrite (body_admitted items t w Hprompt Hadmit). unfold bind at 1.
  by rewrite (analyze_grammar_value E t (add_event (EvAdmission (JStr t) (Ok true)) w) a).
Qed.

End PrimaryRuns.

Section Quiet.
Context `{language_detect.UnicodeData}.

Lemma quiet_ret {A} (a : A) : quiet (ret a).
Proof. intros w r w' [= <- <-]. split_and!; try done. exists []. by rewrite app_nil_r. Qed.

Lemma quiet_lift {A} (r0 : result A) : quiet (lift r0).
Proof. intros w r w' [= <- <-]. split_and!; try done. exists []. by rewrite app_nil_r. Qed.

Lemma quiet_bind {A B} (m : SE world A) (k : A -> SE world B) :
  quiet m -> (forall a, quiet (k a)) -> quiet (bind m k).
Proof.
  intros Hm Hk w r w' Hrun.
  apply bind_inv in Hrun as [(e & Hrun & _)|(a & w1 & Hrun & Hrest)].
  - by apply Hm in Hrun.
  - apply Hm in Hrun as (Hs & Hn & Hq & Ht & rest1 & He1 & Hw1).
    apply Hk in Hrest as (Hs' & Hn' & Hq' & Ht' & rest2 & He2 & Hw2).
    split_and!; try congruence.
    exists (rest1 ++ rest2). rewrite He2, He1, <- app_assoc. split; [done|].
    clear -Hw1 Hw2. induction rest1 as [|e rest1 IH]; [done|].
    destruct e; cbn [app spec.writes] in *; try done; by apply IH.
Qed.

Lemma quiet_print l : quiet (calls.print l).
Proof. intros w r w' [= <- <-]. split_and!; try done. exists []. by rewrite app_nil_r. Qed.

Lemma quiet_notification m : quiet (calls.send_notification m).
Proof. intros w r w' [= <- <-]. split_and!; try done. by exists [EvNotify m]. Qed.

Lemma quiet_sleep n : quiet (calls.sleep n).
Proof. intros w r w' [= <- <-]. split_and!; try done. by exists [EvSleep n]. Qed.

Lemma quiet_notify analysis errors : quiet (check_grammar.notify analysis errors).
Proof.
  unfold check_grammar.notify.
  repeat first
    [ apply quiet_ret | apply quiet_lift | apply quiet_notification
    | apply quiet_bind; [|intros ?]
    | match goal with
      | |- quiet (if ?b then _ else _) => destruct b
      | |- quiet (match ?x with _ => _ end) => destruct x
      end ].
Qed.

End Quiet.

Section WriteSteps.
Context `{language_detect.UnicodeData}.
Variable E : env.

(** The log write: one event, the store and the queue untouched. *)
Lemma save_to_obsidian_step p a w r w' :
  calls.save_to_obsidian E p a w = (r, w') ->
  store w' = store w /\ retry_queue w' = retry_queue w /\ tick w' = S (S (tick w))
  /\ events w' = events w ++ [EvLog p a r]
  /\ (r, notes w') =
     obsidian.save_correction (mkdir_fails E (tick w)) (append E (tick w))
       (ts_date (clock E (tick w))) (clock E (S (tick w))) p a None (notes w).
Proof.
  unfold calls.save_to_obsidian.
  destruct (obsidian.save_correction _ _ _ _ _ _ _ _) as [[[]|x] files];
    intros [= <- <-]; cbn; split_and!; try done; lia.
Qed.

(** The store write: one event, the log and the queue untouched. *)
Lemma save_to_db_step o u e b s w r w' :
  calls.save_to_db E o u e b s w = (r, w') ->
  notes w' = notes w /\ retry_queue w' = retry_queue w /\ tick w' = S (S (tick w))
  /\ events w' = events w ++ [EvStore o u e b s r]
  /\ (r, store w') =
     db.save_correction (db_fault E (tick w)) (clock E (tick w))
       (ts_date (clock E (S (tick w)))) o u e b s (store w).
Proof.
  unfold calls.save_to_db.
  destruct (db.save_correction _ _ _ _ _ _ _ _ _) as [r0 d].
  intros [= <- <-]. cbn. split_and!; try done. lia.
Qed.

(** The record block of [check_grammar.py]: the log write, then, when it
    returned, the store write, then the notification. *)
Lemma record_steps p fields w r w' :
  check_grammar.record E p (JObj fields) w = (r, w') ->
  exists lr w1,
    calls.save_to_obsidian E p (JObj fields) w = (lr, w1)
    /\ match lr with
       | Raise e => r = Raise e /\ w' = w1
       | Ok _ =>
           let '(u, e, b, s) := spec.record_arguments p fields in
           exists sr w2,
             calls.save_to_db E p u e b s w1 = (sr, w2)
             /\ match sr with
                | Raise x => r = Raise x /\ w' = w2
                | Ok _ =>
                    store w' = store w2 /\ notes w' = notes w2
                    /\ retry_queue w' = retry_queue w2
                    /\ exists rest, events w' = events w2 ++ rest /\ spec.writes rest = []
                end
       end.
Proof.
  unfold check_grammar.record. intros Hrun.
  apply bind_inv in Hrun as [(x & Hlog & ->)|(logged & w1 & Hlog & Hrun)].
  { by exists (Raise x), w'. }
  exists (Ok logged), w1. split; [done|].
  unfold py.get in Hrun.
  repeat (unfold bind at 1 in Hrun; unfold lift at 1 in Hrun).
  unfold spec.record_arguments.
  apply bind_inv in Hrun as [(x & Hdb & ->)|(stored & w2 & Hdb & Hrun)].
  { by exists (Raise x), w'. }
  exists (Ok stored), w2. split; [done|].
  apply quiet_notify in Hrun as (? & ? & ? & _ & ?). done.
Qed.

End WriteSteps.

Section RetryDrain.
Context `{language_detect.UnicodeData}.
Variable E : env.

Lemma is_none_iff v : recall.is_none v = true <-> v = JNull.
Proof. by destruct v. Qed.

(** [process_analysis] that returns: the outcome is an object; the record
    is made exactly when the outcome calls for it, by the log write
    followed by the store write. *)
Lemma process_analysis_ok p a w had w' :
  recall.process_analysis E p a w = (Ok had, w') ->
  exists fields,
    a = JObj fields /\ had = spec.to_record fields
    /\ if spec.to_record fields
       then let '(u, e, b, s) := spec.record_arguments p fields in
            exists logged new_id w1,
              calls.save_to_obsidian E p a w = (Ok logged, w1)
              /\ calls.save_to_db E p u e b s w1 = (Ok new_id, w')
       else w' = w.
Proof.
  destruct a as [| | | | | |fields]; try done.
  intros Hrun. exists fields. split; [done|].
  unfold recall.process_analysis, py.get in Hrun.
  unfold spec.to_record, spec.record_arguments.
  unfold bind at 1 in Hrun. unfold lift at 1 in Hrun.
  destruct (py.truthy (from_option id JNull (py.lookup_item (str "skipped") fields))).
  { by injection Hrun as <- <-. }
  unfold bind at 1 in Hrun. unfold lift at 1 in Hrun.
  unfold bind at 1 in Hrun.
  assert (forall k : json -> SE world bool,
    (match (if py.truthy (from_option id JNull (py.lookup_item (str "has_errors") fields))
            then ret (from_option id JNull (py.lookup_item (str "has_errors") fields))
            else lift (Ok (from_option id JNull
                             (py.lookup_item (str "better_expression") fields)))) w
     with (Ok a, s') => k a s' | (Raise e, s') => (Raise e, s') end)
    = k (if py.truthy (from_option id JNull (py.lookup_item (str "has_errors") fields))
         then from_option id JNull (py.lookup_item (str "has_errors") fields)
         else from_option id JNull (py.lookup_item (str "better_expression") fields)) w)
    as Heq by (intros k; by destruct (py.truthy _)).
  rewrite Heq in Hrun. clear Heq. cbn [negb andb].
  destruct (py.truthy (from_option id JNull (py.lookup_item (str "has_errors") fields)))
    eqn:Herrors; cbn [orb].
  - rewrite Herrors in Hrun.
    apply bind_inv in Hrun as [(x & _ & [=])|(logged & w1 & Hlog & Hrun)].
    repeat (unfold bind at 1 in Hrun; unfold lift at 1 in Hrun).
    apply bind_inv in Hrun as [(x & _ & [=])|(new_id & w2 & Hdb & Hrun)].
    injection Hrun as <- <-. split; [done|]. by exists logged, new_id, w1.
  - destruct (py.truthy (from_option id JNull
                           (py.lookup_item (str "better_expression") fields))).
    + apply bind_inv in Hrun as [(x & _ & [=])|(logged & w1 & Hlog & Hrun)].
      repeat (unfold bind at 1 in Hrun; unfold lift at 1 in Hrun).
      apply bind_inv in Hrun as [(x & _ & [=])|(new_id & w2 & Hdb & Hrun)].
      injection Hrun as <- <-. split; [done|]. by exists logged, new_id, w1.
    + by injection Hrun as <- <-.
Qed.

(** The events of handling an outcome in the drain. *)
Lemma process_analysis_handling p a w had w' :
  recall.process_analysis E p a w = (Ok had, w') ->
  exists handled,
    spec.handling p a handled /\ events w' = events w ++ handled
    /\ exists fields, a = JObj fields /\ had = spec.to_record fields.
Proof.
  intros Hrun. apply process_analysis_ok in Hrun as (fields & -> & -> & Hrun).
  unfold spec.handling.
  destruct (spec.to_record fields) eqn:Hrec.
  - destruct (spec.record_arguments p fields) as [[[u e] b] s] eqn:Hargs.
    destruct Hrun as (logged & new_id & w1 & Hlog & Hdb).
    apply save_to_obsidian_step in Hlog as (_ & _ & _ & Hev1 & _).
    apply save_to_db_step in Hdb as (_ & _ & _ & Hev2 & _).
    exists [EvLog p (JObj fields) (Ok logged); EvStore p u e b s (Ok new_id)].
    split_and!.
    + exists fields. split; [done|]. rewrite Hrec, Hargs. by exists logged, new_id.
    + rewrite Hev2, Hev1, <- app_assoc. done.
    + by exists fields.
  - subst w'. exists []. split_and!.
    + exists fields. by rewrite Hrec.
    + by rewrite app_nil_r.
    + by exists fields.
Qed.

(** The two attempts: the analyzer is called once when it gives an outcome,
    and a second time, 2 seconds later, when it does not. *)
Lemma try_api_runs s w a w' :
  recall.try_api E s [0; 1] w = (Ok a, w') ->
  (a <> JNull /\ events w' = events w ++ [EvAnalyze s a])
  \/ events w' = events w ++ [EvAnalyze s JNull; EvSleep 2; EvAnalyze s a].
Proof.
  unfold recall.try_api. intros Hrun.
  apply bind_inv in Hrun as [(x & _ & [=])|(a1 & w1 & Hfirst & Hrun)].
  apply analyze_grammar_step in Hfirst as (_ & _ & _ & _ & _ & _ & Hev1).
  destruct (recall.is_none a1) eqn:Hnone1.
  - apply is_none_iff in Hnone1. subst a1.
    change (0 =? 0) with true. cbv iota in Hrun.
    apply bind_inv in Hrun as [(x & _ & [=])|([] & w2 & Hsleep & Hrun)].
    apply bind_inv in Hsleep as [(x & _ & [=])|([] & w0 & [= <-] & [= <-])].
    apply bind_inv in Hrun as [(x & _ & [=])|(a2 & w3 & Hsecond & Hrun)].
    apply analyze_grammar_step in Hsecond as (_ & _ & _ & _ & _ & _ & Hev2).
    cbn [events add_event add_stdout] in Hev2.
    assert (a2 = a /\ w3 = w') as [-> ->].
    { destruct (recall.is_none a2) eqn:Hnone2; [|by injection Hrun as <- <-].
      apply is_none_iff in Hnone2. subst a2.
      change (1 =? 0) with false in Hrun. cbv [bind ret] in Hrun.
      by injection Hrun as <- <-. }
    right. by rewrite Hev2, Hev1, <- !app_assoc.
  - injection Hrun as <- <-. left. split; [|done].
    intros Ha. by rewrite Ha in Hnone1.
Qed.



End RetryDrain.

Section PrimaryRecord.
Context `{language_detect.UnicodeData}.
Variable E : env.

Lemma to_record_nonempty fields : spec.to_record fields = true -> py.truthy (JObj fields) = true.
Proof. by destruct fields. Qed.

(** The primary pipeline on an admitted text whose outcome calls for a
    record: the record block, then the hook response. *)
Lemma body_records items t fields w :
  py.lookup_item (str "prompt") items = Some (JStr t) ->
  language_detect.should_check_grammar t = true ->
  claude_api.analyze_grammar (json_loads E) (api_call E (tick w) t) = Ok (JObj fields) ->
  spec.to_record fields = true ->
  check_grammar.body E (Ok (JObj items)) w
  = bind (check_grammar.record E (JStr t) (JObj fields)) (fun _ => calls.print LHookResponse)
      (advance 1 (add_event (EvAnalyze t (JObj fields))
                    (add_event (EvAdmission (JStr t) (Ok true)) w))).
Proof.
  intros Hprompt Hadmit Hanalysis Hrecord.
  rewrite (body_analyzed E items t (JObj fields) w Hprompt Hadmit Hanalysis) by done.
  rewrite (to_record_nonempty fields Hrecord).
  unfold spec.to_record in Hrecord. apply andb_true_iff in Hrecord as [Hskipped Hfindings].
  apply negb_true_iff in Hskipped.
  unfold bind at 1. unfold bind at 1. unfold lift at 1, py.get at 1. rewrite Hskipped.
  unfold bind at 1. unfold lift at 1, py.get at 1.
  unfold bind at 1.
  destruct (py.truthy (from_option id JNull (py.lookup_item (str "has_errors") fields)))
    eqn:Herrors.
  - unfold ret at 1. rewrite Herrors. done.
  - unfold lift at 1, py.get at 1. cbn [orb] in Hfindings. rewrite Hfindings. done.
Qed.

(** The events of the record block: the log write, then the store write
    when the log write returned. *)
Lemma record_events p fields w r w' :
  check_grammar.record E p (JObj fields) w = (r, w') ->
  exists lr tail,
    events w' = events w ++ EvLog p (JObj fields) lr :: tail
    /\ match lr with
       | Ok _ =>
           let '(u, e, b, s) := spec.record_arguments p fields in
           exists sr rest, tail = EvStore p u e b s sr :: rest /\ spec.writes rest = []
       | Raise _ => tail = []
       end.
Proof.
  intros Hrun. apply record_steps in Hrun as (lr & w1 & Hlog & Hrun).
  apply save_to_obsidian_step in Hlog as (_ & _ & _ & Hev1 & _).
  exists lr. destruct lr as [logged|x].
  - destruct (spec.record_arguments p fields) as [[[u e] b] s].
    destruct Hrun as (sr & w2 & Hdb & Hrun).
    apply save_to_db_step in Hdb as (_ & _ & _ & Hev2 & _).
    destruct sr as [new_id|x].
    + destruct Hrun as (_ & _ & _ & rest & Hev3 & Hrest).
      exists (EvStore p u e b s (Ok new_id) :: rest). split; [|by exists (Ok new_id), rest].
      rewrite Hev3, Hev2, Hev1, <- !app_assoc. done.
    + destruct Hrun as [_ ->].
      exists [EvStore p u e b s (Raise x)]. split; [|by exists (Raise x), []].
      rewrite Hev2, Hev1, <- !app_assoc. done.
  - destruct Hrun as [_ ->]. exists []. by rewrite Hev1.
Qed.

(** The same for the record made by the drain. *)
Lemma process_analysis_steps p fields w r w' :
  spec.to_record fields = true ->
  recall.process_analysis E p (JObj fields) w = (r, w') ->
  exists lr w1,
    calls.save_to_obsidian E p (JObj fields) w = (lr, w1)
    /\ match lr with
       | Raise e => r = Raise e /\ w' = w1
       | Ok _ =>
           let '(u, e, b, s) := spec.record_arguments p fields in
           exists sr,
             calls.save_to_db E p u e b s w1 = (sr, w')
             /\ r = match sr with Ok _ => Ok true | Raise x => Raise x end
       end.
Proof.
  intros Hrecord Hrun.
  unfold spec.to_record in Hrecord. apply andb_true_iff in Hrecord as [Hskipped Hfindings].
  apply negb_true_iff in Hskipped.
  unfold recall.process_analysis in Hrun.
  unfold bind at 1 in Hrun. unfold lift at 1, py.get at 1 in Hrun. rewrite Hskipped in Hrun.
  unfold bind at 1 in Hrun. unfold lift at 1, py.get at 1 in Hrun.
  unfold bind at 1 in Hrun.
  assert (bind (calls.save_to_obsidian E p (JObj fields))
            (fun _ =>
               bind (lift (py.get (JObj fields) (str "errors") (JArr [])))
                 (fun errors =>
                    bind (lift (py.get (JObj fields) (str "user_text") p))
                      (fun user_text =>
                         bind (lift (py.get (JObj fields) (str "better_expression") JNull))
                           (fun better_expression =>
                              bind (lift (py.get (JObj fields) (str "summary") JNull))
                                (fun summary =>
                                   bind (calls.save_to_db E p user_text errors
                                           better_expression summary)
                                     (fun _ => ret true)))))) w = (r, w')) as Hblock.
  { destruct (py.truthy (from_option id JNull (py.lookup_item (str "has_errors") fields)))
      eqn:Herrors.
    - unfold ret at 1 in Hrun. by rewrite Herrors in Hrun.
    - unfold lift at 1, py.get at 1 in Hrun. cbn [orb] in Hfindings.
      by rewrite Hfindings in Hrun. }
  clear Hrun.
  apply bind_inv in Hblock as [(x & Hlog & ->)|(logged & w1 & Hlog & Hrun)].
  { by exists (Raise x), w'. }
  exists (Ok logged), w1. split; [done|].
  unfold py.get in Hrun.
  repeat (unfold bind at 1 in Hrun; unfold lift at 1 in Hrun).
  unfold spec.record_arguments.
  apply bind_inv in Hrun as [(x & Hdb & ->)|(stored & w2 & Hdb & Hrun)].
  { by exists (Raise x). }
  injection Hrun as <- <-. by exists (Ok stored).
Qed.


End PrimaryRecord.

Section RetryMain.
Context `{language_detect.UnicodeData}.
Variable E : env.

(** [recall.py] that returns on a queue that holds entries: the drain
    returned and the entries that failed twice were written back. *)
Lemma main_drains items w w' :
  retry_queue w = Some (JArr items) -> items <> [] ->
  recall.main E w = (Ok tt, w') ->
  let total := Z.of_nat (length items) in
  exists st w1,
    recall.drain E items recall.progress0 (add_stdout (LFound total) w) = (Ok st, w1)
    /\ retry_queue w' = Some (JArr (recall.still_failed st))
    /\ events w' = events w1 ++ [EvSaveQueue (recall.still_failed st) Written;
                                 EvNotify (recall.summary total st)].
Proof.
  intros Hqueue Hitems Hrun total.
  unfold recall.main in Hrun.
  unfold bind at 1 in Hrun. unfold recall.load_retry_queue at 1 in Hrun.
  rewrite Hqueue in Hrun. cbn [from_option id] in Hrun.
  destruct items as [|item items]; [done|]. clear Hitems.
  cbn [py.truthy negb py.len py.iter] in Hrun.
  unfold bind at 1 in Hrun. unfold lift at 1 in Hrun.
  unfold bind at 1 in Hrun. unfold calls.print at 1 in Hrun.
  unfold bind at 1 in Hrun. unfold lift at 1 in Hrun.
  apply bind_inv in Hrun as [(x & _ & [=])|(st & w1 & Hdrain & Hrun)].
  exists st, w1. split; [exact Hdrain|].
  apply bind_inv in Hrun as [(x & _ & [=])|([] & w2 & Hsave & Hrun)].
  unfold recall.save_retry_queue in Hsave.
  destruct (queue_write E (tick w1)); [|done|done].
  injection Hsave as <-.
  apply bind_inv in Hrun as [(x & _ & [=])|([] & w3 & Hnotify & Hrun)].
  injection Hnotify as <-. injection Hrun as <-.
  cbn. split; [done|]. by rewrite <- app_assoc.
Qed.





End RetryMain.
(** ** The claims on the two scripts *)

Section ScriptClaims.
Context `{language_detect.UnicodeData}.
Variable E : env.

(** C2 (amended): whenever the outcome calls for a record, the log write
    comes first and the store write second, the latter only when the log
    write returned; in the primary pipeline and in the drain. *)
Theorem record_writes_log_first :
  (forall items t fields w,
     py.lookup_item (str "prompt") items = Some (JStr t) ->
     language_detect.should_check_grammar t = true ->
     claude_api.analyze_grammar (json_loads E) (api_call E (tick w) t) = Ok (JObj fields) ->
     spec.to_record fields = true ->
     exists lr tail,
       events (snd (check_grammar.main E (Ok (JObj items)) w))
       = events w ++ EvAdmission (JStr t) (Ok true) :: EvAnalyze t (JObj fields)
                     :: EvLog (JStr t) (JObj fields) lr :: tail
       /\ spec.writes tail = match lr with Ok _ => [spec.StoreWrite] | Raise _ => [] end)
  /\ (forall p fields w r w',
        spec.to_record fields = true ->
        recall.process_analysis E p (JObj fields) w = (r, w') ->
        exists lr tail,
          events w' = events w ++ EvLog p (JObj fields) lr :: tail
          /\ spec.writes tail = match lr with Ok _ => [spec.StoreWrite] | Raise _ => [] end).
Proof.
  split.
  - intros items t fields w Hprompt Hadmit Hanalysis Hrecord.
    unfold check_grammar.main.
    rewrite (body_records E items t fields w Hprompt Hadmit Hanalysis Hrecord).
    set (w1 := advance 1 _).
    assert (events w1 = events w ++ [EvAdmission (JStr t) (Ok true); EvAnalyze t (JObj fields)])
      as Hev1 by (cbn; by rewrite <- app_assoc).
    unfold bind.
    destruct (check_grammar.record E (JStr t) (JObj fields) w1) as [r w2] eqn:Hblock.
    apply record_events in Hblock as (lr & tail & Hev2 & Htail).
    exists lr, tail. split.
    + rewrite Hev1, <- app_assoc in Hev2.
      destruct r as [[]|x]; [done|]. by destruct x.
    + destruct lr as [logged|x]; [|by subst tail].
      destruct (spec.record_arguments (JStr t) fields) as [[[u e] b] s].
      destruct Htail as (sr & rest & -> & Hrest). cbn. by rewrite Hrest.
  - intros p fields w r w' Hrecord Hrun.
    apply (process_analysis_steps E) in Hrun as (lr & w1 & Hlog & Hrun); [|done].
    apply save_to_obsidian_step in Hlog as (_ & _ & _ & Hev1 & _).
    exists lr. destruct lr as [logged|x].
    + destruct (spec.record_arguments p fields) as [[[u e] b] s].
      destruct Hrun as (sr & Hdb & _).
      apply save_to_db_step in Hdb as (_ & _ & _ & Hev2 & _).
      exists [EvStore p u e b s sr]. split; [|done].
      by rewrite Hev2, Hev1, <- app_assoc.
    + destruct Hrun as [_ ->]. by exists [].
Qed.



End ScriptClaims.
(** ** Runs of the two scripts *)

Section Runs.
Existing Instance basic_tables.

(** C1: the prompt is admitted and its analysis fails (the call to the
    model raises, [analyze_grammar] reports it on stderr and returns
    [None]); [check_grammar.py] prints the hook response and exits with
    status 0, and no retry-queue entry holds the prompt: the queue file is
    still absent, and [recall.py], run next, finds no failed check to
    retry. *)
Theorem failed_analysis_is_not_queued :
  let E := calm monday unreachable in
  let t := str "I want to improve my English" in
  let w' := snd (check_grammar.main E (hook_input t) world0) in
  language_detect.should_check_grammar t = true
  /\ claude_api.analyze_grammar (json_loads E) (api_call E 0 t) = Ok JNull
  /\ fst (check_grammar.main E (hook_input t) world0) = 0
  /\ events w' = [EvAdmission (JStr t) (Ok true); EvAnalyze t JNull]
  /\ stderr w' = [LAnalyzer claude_api.ApiFailed]
  /\ stdout w' = [LHookResponse]
  /\ retry_queue w' = None
  /\ ~ spec.queued t w'
  /\ events (snd (recall.main E w')) = events w' ++ [EvNotify MsgNoFailed].
Proof.
  intros E t w'. split_and!; try by vm_compute.
  intros (items & item & Hqueue & _). by vm_compute in Hqueue.
Qed.

(** A prompt with two findings, recorded by the primary pipeline. *)
Lemma record_writes_log_first_witness :
  let E := calm monday finds in
  let t := str "I has a error in my code" in
  exists lr tail,
    events (snd (check_grammar.main E (hook_input t) world0))
    = events world0 ++ EvAdmission (JStr t) (Ok true) :: EvAnalyze t (JObj findings_fields)
                       :: EvLog (JStr t) (JObj findings_fields) lr :: tail
    /\ spec.writes tail = match lr with Ok _ => [spec.StoreWrite] | Raise _ => [] end.
Proof.
  intros E t.
  apply (proj1 (record_writes_log_first E) [(str "prompt", JStr t)] t findings_fields world0);
    by vm_compute.
Defined.

(** C2, as stated, fails: on an outcome with has-errors true, both scripts
    write the log first and the store second. *)
Lemma store_write_is_not_first :
  let E := calm monday finds in
  let t := "I has a error in my code"%string in
  let primary := snd (check_grammar.main E (hook_input (str t)) world0) in
  let drain := snd (recall.main E (queue_world [entry t])) in
  py.get (JObj findings_fields) (str "has_errors") JNull = Ok (JBool true)
  /\ claude_api.analyze_grammar (json_loads E) (api_call E 0 (str t))
     = Ok (JObj findings_fields)
  /\ spec.writes (events primary) = [spec.LogWrite; spec.StoreWrite]
  /\ spec.writes (events primary) <> [spec.StoreWrite; spec.LogWrite]
  /\ spec.writes (events drain) = [spec.LogWrite; spec.StoreWrite]
  /\ spec.writes (events drain) <> [spec.StoreWrite; spec.LogWrite].
Proof. intros E t primary drain. split_and!; by vm_compute. Qed.

(** C3: with a log directory that cannot be created, the log write raises
    [OSError] to its caller, whatever its other arguments; the run of
    [check_grammar.py] on a prompt with two findings then ends after the
    log write, with the store left empty, where the same run with a log
    directory commits one Correction and the DailyCounter of the day. With
    a daily file that cannot be written, the log write returns [False] and
    the store write commits. *)
Theorem log_directory_failure_blocks_store :
  let E := calm monday finds in
  let input := hook_input (str "I has a error in my code") in
  (forall append today now user_message analysis target_date files,
     obsidian.save_correction true append today now user_message analysis target_date files
     = (Raise OSError, files))
  /\ (let w' := snd (check_grammar.main (no_log_directory E) input world0) in
      events w' = [EvAdmission (JStr (str "I has a error in my code")) (Ok true);
                   EvAnalyze (str "I has a error in my code") (JObj findings_fields);
                   EvLog (JStr (str "I has a error in my code")) (JObj findings_fields)
                     (Raise OSError)]
      /\ store w' = sqlite.empty
      /\ snd (db.get_daily_stats monday None (store w')) = db.zero_stats
      /\ stderr w' = [LError OSError])
  /\ (let w' := snd (check_grammar.main E input world0) in
      spec.writes (events w') = [spec.LogWrite; spec.StoreWrite]
      /\ length (sqlite.corrections (store w')) = 1%nat
      /\ sqlite.total_corrections (snd (db.get_daily_stats monday None (store w'))) = 1)
  /\ (let w' := snd (check_grammar.main (no_log_write E) input world0) in
      spec.writes (events w') = [spec.LogWrite; spec.StoreWrite]
      /\ nth_error (events w') 2
         = Some (EvLog (JStr (str "I has a error in my code")) (JObj findings_fields)
                   (Ok false))
      /\ length (sqlite.corrections (store w')) = 1%nat
      /\ sqlite.total_corrections (snd (db.get_daily_stats monday None (store w'))) = 1
      /\ stderr w' = [LLogFailed]).
Proof.
  intros E input. split_and!; by vm_compute.
Qed.


(** The drain of that queue: the entry on which the analyzer fails twice
    stays queued; two entries are resolved, one of them with a record. *)
Example sample_queue_drained :
  let w' := snd (recall.main (calm monday flaky) (queue_world sample_queue)) in
  retry_queue w' = Some (JArr [entry "This request never gets through"])
  /\ spec.writes (events w') = [spec.LogWrite; spec.StoreWrite]
  /\ last (stdout w') = Some (LDone (MsgRetried 4 2 1)).
Proof. by vm_compute. Qed.



End Runs.
(** * Further properties of the scripts *)

(** ** What can raise [SystemExit] *)

Section NoExit.

Lemma no_exit_ok {A} (a : A) : no_exit (Ok a).
Proof. by intros status. Qed.

Lemma no_exit_raise {A B} (r : result A) e : r = Raise e -> no_exit r -> no_exit (@Raise B e).
Proof. intros -> Hr status [= ->]. by apply (Hr status). Qed.

Lemma get_no_exit d k default : no_exit (py.get d k default).
Proof. by destruct d. Qed.

Lemma subscript_no_exit d k : no_exit (py.subscript d k).
Proof. destruct d as [| | | | | |items]; try done. cbn. by destruct (py.lookup_item k items). Qed.

Lemma iter_no_exit v : no_exit (py.iter v).
Proof. by destruct v. Qed.

Lemma len_no_exit v : no_exit (py.len v).
Proof. by destruct v. Qed.

Lemma lower_method_no_exit v : no_exit (py.lower_method v).
Proof. by destruct v. Qed.

Lemma bind_param_no_exit v : no_exit (sqlite.bind_param v).
Proof. destruct v; cbn; try done; by case_match. Qed.

Lemma first_two_no_exit errors : no_exit (check_grammar.first_two errors).
Proof. by destruct errors. Qed.

Lemma shorten_no_exit better : no_exit (check_grammar.shorten better).
Proof.
  unfold check_grammar.shorten. destruct (py.len better) as [n|e] eqn:Hlen.
  - destruct (50 <? n); [|done]. by destruct better.
  - apply (no_exit_raise _ _ Hlen), len_no_exit.
Qed.

Lemma error_parts_no_exit errs : no_exit (check_grammar.error_parts errs).
Proof.
  induction errs as [|err rest IH]; cbn [check_grammar.error_parts]; [done|].
  destruct (py.subscript err (str "original")) as [original|e] eqn:H1;
    [|apply (no_exit_raise _ _ H1), subscript_no_exit].
  destruct (py.subscript err (str "correction")) as [correction|e] eqn:H2;
    [|apply (no_exit_raise _ _ H2), subscript_no_exit].
  destruct (check_grammar.error_parts rest) as [parts|e] eqn:H3;
    [done|exact IH].
Qed.

Lemma error_lines_no_exit errs : no_exit (obsidian.error_lines errs).
Proof.
  induction errs as [|err rest IH]; cbn [obsidian.error_lines]; [done|].
  destruct (py.get err (str "category") _) as [category|e] eqn:H1;
    [|apply (no_exit_raise _ _ H1), get_no_exit].
  destruct (py.subscript err (str "original")) as [original|e] eqn:H2;
    [|apply (no_exit_raise _ _ H2), subscript_no_exit].
  destruct (py.subscript err (str "correction")) as [correction|e] eqn:H3;
    [|apply (no_exit_raise _ _ H3), subscript_no_exit].
  destruct (py.get err (str "explanation") _) as [explanation|e] eqn:H4;
    [|apply (no_exit_raise _ _ H4), get_no_exit].
  destruct (obsidian.error_lines rest) as [lines|e] eqn:H5;
    [done|exact IH].
Qed.

Section Steps.
Context {S : Type}.

Lemma never_exits_ret {A} (a : A) : never_exits (ret (S := S) a).
Proof. by intros s r s' [= <- <-]. Qed.

Lemma never_exits_lift {A} (r0 : result A) : no_exit r0 -> never_exits (lift (S := S) r0).
Proof. by intros Hr s r s' [= <- <-]. Qed.

Lemma never_exits_bind {A B} (m : SE S A) (k : A -> SE S B) :
  never_exits m -> (forall a, never_exits (k a)) -> never_exits (bind m k).
Proof.
  intros Hm Hk s r s' Hrun.
  apply bind_inv in Hrun as [(e & Hrun & ->)|(a & s1 & _ & Hrest)].
  - apply Hm in Hrun. intros status Heq. apply (Hrun status). congruence.
  - by apply Hk in Hrest.
Qed.

End Steps.

Lemma never_exits_execute {A} fault (stmt : sqlite.database -> sqlite.database * A) :
  never_exits (sqlite.execute fault stmt).
Proof.
  intros c r c'. unfold sqlite.execute. destruct (fault (sqlite.issued c)).
  - by intros [= <- <-].
  - destruct (stmt (sqlite.working c)). by intros [= <- <-].
Qed.

Lemma never_exits_commit fault : never_exits (sqlite.commit fault).
Proof.
  intros c r c'. unfold sqlite.commit. destruct (fault (sqlite.issued c)); by intros [= <- <-].
Qed.

End NoExit.

(** Settle [never_exits] for a sequence of steps. *)
Ltac never_exits_steps :=
  repeat first
    [ apply never_exits_ret
    | apply never_exits_execute
    | apply never_exits_commit
    | apply never_exits_lift;
      first [ apply no_exit_ok | apply get_no_exit | apply subscript_no_exit
            | apply iter_no_exit | apply len_no_exit | apply lower_method_no_exit
            | apply bind_param_no_exit | apply first_two_no_exit | apply shorten_no_exit
            | apply error_parts_no_exit | apply error_lines_no_exit | done ]
    | apply never_exits_bind; [|intros ?]
    | match goal with
      | |- never_exits (if ?b then _ else _) => destruct b
      | |- never_exits (match ?x with _ => _ end) => destruct x
      end ].

Section NoExitCalls.

Lemma never_exits_insert_errors fault correction_id errors : forall counts,
  never_exits (db.insert_errors fault correction_id errors counts).
Proof.
  induction errors as [|error rest IH]; intros counts; cbn [db.insert_errors].
  - apply never_exits_ret.
  - never_exits_steps. apply IH.
Qed.

Lemma save_correction_no_exit fault now today original_text user_text errors better summary d :
  no_exit (fst (db.save_correction fault now today original_text user_text errors
                  better summary d)).
Proof.
  unfold db.save_correction.
  destruct (db.init_db fault (sqlite.connect d 0)) as [[[]|e0] c0] eqn:Hinit.
  - destruct (db.save_correction_body _ _ _ _ _ _ _ _ _) as [r c] eqn:Hbody. cbn [fst].
    revert Hbody. generalize (sqlite.connect (sqlite.committed c0) (sqlite.issued c0)).
    intros c1 Hbody. revert c1 r c Hbody.
    change (never_exits (db.save_correction_body fault now today original_text user_text
                           errors better summary)).
    unfold db.save_correction_body. never_exits_steps. apply never_exits_insert_errors.
  - cbn [fst]. revert Hinit. generalize (sqlite.connect d 0). intros c1 Hinit.
    assert (never_exits (db.init_db fault)) as Hnever.
    { unfold db.init_db. never_exits_steps. }
    exact (no_exit_raise _ _ eq_refl (Hnever c1 _ _ Hinit)).
Qed.

Lemma obsidian_save_never_exits mkdir_fails append today now user_message analysis
    target_date :
  never_exits (obsidian.save_correction mkdir_fails append today now user_message analysis
                 target_date).
Proof.
  unfold obsidian.save_correction. never_exits_steps.
  intros files r files'. destruct append; by intros [= <- <-].
Qed.

End NoExitCalls.
(** ** The hook response *)

Section Silent.
Context `{language_detect.UnicodeData}.
Variable E : env.

Lemma silent_ret {A} (a : A) : silent (ret a).
Proof. by intros w r w' [= <- <-]. Qed.

Lemma silent_lift {A} (r0 : result A) : no_exit r0 -> silent (lift r0).
Proof. by intros Hr w r w' [= <- <-]. Qed.

Lemma silent_bind {A B} (m : SE world A) (k : A -> SE world B) :
  silent m -> (forall a, silent (k a)) -> silent (bind m k).
Proof.
  intros Hm Hk w r w' Hrun.
  apply bind_inv in Hrun as [(e & Hrun & ->)|(a & s1 & Hrun & Hrest)].
  - apply Hm in Hrun as [Hout Hr]. split; [done|].
    intros status Heq. apply (Hr status). congruence.
  - apply Hm in Hrun as [Hout _]. apply Hk in Hrest as [Hout' Hr]. split; congruence.
Qed.

Lemma silent_emit e : silent (calls.emit e).
Proof. by intros w r w' [= <- <-]. Qed.

Lemma silent_should_check v : silent (calls.should_check_grammar v).
Proof.
  intros w r w' [= <- <-]. split; [done|].
  intros status. destruct v; cbn; repeat case_match; done.
Qed.

Lemma silent_analyze t : silent (calls.analyze_grammar E t).
Proof.
  intros w r w' Hrun.
  apply analyze_grammar_step in Hrun as (-> & _ & _ & _ & Hout & _). split; [done|].
  intros status. by destruct (api_call E (tick w) t).
Qed.

Lemma silent_obsidian p a : silent (calls.save_to_obsidian E p a).
Proof.
  intros w r w'. unfold calls.save_to_obsidian.
  destruct (obsidian.save_correction _ _ _ _ _ _ _ _) as [r0 files] eqn:Hsave.
  apply obsidian_save_never_exits in Hsave.
  destruct r0 as [[]|x]; by intros [= <- <-].
Qed.

Lemma silent_db o u e b s : silent (calls.save_to_db E o u e b s).
Proof.
  intros w r w'. unfold calls.save_to_db.
  pose proof (save_correction_no_exit (db_fault E (tick w)) (clock E (tick w))
                (ts_date (clock E (S (tick w)))) o u e b s (store w)) as Hr.
  destruct (db.save_correction _ _ _ _ _ _ _ _ _) as [r0 d]. by intros [= <- <-].
Qed.

End Silent.

(** Settle [silent] for a sequence of steps. *)
Ltac silent_steps :=
  repeat first
    [ apply silent_ret
    | apply silent_emit
    | apply silent_should_check
    | apply silent_analyze
    | apply silent_obsidian
    | apply silent_db
    | apply silent_lift;
      first [ apply no_exit_ok | apply get_no_exit | apply subscript_no_exit
            | apply iter_no_exit | apply len_no_exit | apply first_two_no_exit
            | apply shorten_no_exit | apply error_parts_no_exit | done ]
    | apply silent_bind; [|intros ?]
    | match goal with
      | |- silent (if ?b then _ else _) => destruct b
      | |- silent (match ?x with _ => _ end) => destruct x
      end ].

Section HookResponse.
Context `{language_detect.UnicodeData}.
Variable E : env.

Lemma silent_notify analysis errors : silent (check_grammar.notify analysis errors).
Proof. unfold check_grammar.notify, calls.send_notification. silent_steps. Qed.

Lemma silent_record p a : silent (check_grammar.record E p a).
Proof. unfold check_grammar.record. silent_steps; apply silent_notify. Qed.

Lemma silent_answers_on_exit {A} (m : SE world A) : silent m -> answers_on_exit m.
Proof.
  intros Hm w r w' Hrun. apply Hm in Hrun as [Hout Hr].
  destruct r as [a|[]]; try done. by destruct (Hr status).
Qed.

Lemma answers_on_exit_bind {A B} (m : SE world A) (k : A -> SE world B) :
  silent m -> (forall a, answers_on_exit (k a)) -> answers_on_exit (bind m k).
Proof.
  intros Hm Hk w r w' Hrun.
  apply bind_inv in Hrun as [(e & Hrun & ->)|(a & s1 & Hrun & Hrest)].
  - apply Hm in Hrun as [Hout Hr]. destruct e; try done. by destruct (Hr status).
  - apply Hm in Hrun as [Hout _]. apply Hk in Hrest. rewrite Hout in Hrest. exact Hrest.
Qed.

Lemma exit_answers_on_exit {A} :
  answers_on_exit (bind (calls.print LHookResponse)
                     (fun _ => lift (@Raise A (SystemExit 0)))).
Proof. by intros w r w' [= <- <-]. Qed.

Lemma exit_answers {A} :
  answers (bind (calls.print LHookResponse) (fun _ => lift (@Raise A (SystemExit 0)))).
Proof. by intros w r w' [= <- <-]. Qed.

Lemma answers_bind {A B} (m : SE world A) (k : A -> SE world B) :
  silent m -> (forall a, answers (k a)) -> answers (bind m k).
Proof.
  intros Hm Hk w r w' Hrun.
  apply bind_inv in Hrun as [(e & Hrun & ->)|(a & s1 & Hrun & Hrest)].
  - apply Hm in Hrun as [Hout Hr]. destruct e; try done. by destruct (Hr status).
  - apply Hm in Hrun as [Hout _]. apply Hk in Hrest. rewrite Hout in Hrest. exact Hrest.
Qed.

Lemma answers_print {A} (m : SE world A) :
  answers_on_exit m -> answers (bind m (fun _ => calls.print LHookResponse)).
Proof.
  intros Hm w r w' Hrun.
  apply bind_inv in Hrun as [(e & Hrun & ->)|(a & s1 & Hrun & Hrest)].
  - by apply Hm in Hrun.
  - apply Hm in Hrun. injection Hrest as <- <-. cbn. by rewrite Hrun.
Qed.

Lemma silent_answers {A} (r0 : exn) : no_exit (@Raise A r0) -> answers (lift (@Raise A r0)).
Proof. intros Hr w r w' [= <- <-]. destruct r0; try done. by destruct (Hr status). Qed.

Lemma answers_body input : no_exit input -> answers (check_grammar.body E input).
Proof.
  intros Hinput. unfold check_grammar.body.
  apply answers_bind; [by apply silent_lift|]. intros input_data.
  apply answers_bind; [apply silent_lift, get_no_exit|]. intros prompt.
  apply answers_bind.
  { destruct (py.truthy prompt); [apply silent_ret|apply silent_lift, get_no_exit]. }
  intros user_prompt.
  apply answers_bind; [apply silent_should_check|]. intros admitted.
  destruct admitted; cbn [negb]; [|apply exit_answers].
  destruct user_prompt as [| | | |user_message| |]; try by apply silent_answers.
  apply answers_bind; [apply silent_analyze|]. intros analysis.
  apply answers_print.
  destruct (py.truthy analysis); [|apply silent_answers_on_exit, silent_ret].
  apply answers_on_exit_bind; [apply silent_lift, get_no_exit|]. intros skipped.
  destruct (py.truthy skipped); [apply exit_answers_on_exit|].
  apply answers_on_exit_bind; [apply silent_lift, get_no_exit|]. intros has_errors.
  apply answers_on_exit_bind.
  { destruct (py.truthy has_errors); [apply silent_ret|apply silent_lift, get_no_exit]. }
  intros findings.
  destruct (py.truthy findings); apply silent_answers_on_exit;
    [apply silent_record|apply silent_ret].
Qed.

End HookResponse.
(** ** The trace of the primary pipeline *)

Section PrimaryTrace.
Context `{language_detect.UnicodeData}.
Variable E : env.

Lemma error_parts_length errs parts :
  check_grammar.error_parts errs = Ok parts ->
  length parts = length errs
  /\ Forall (fun p => match p with PartFix _ _ => True | PartBetter _ => False end) parts.
Proof.
  revert parts. induction errs as [|err rest IH]; intros parts; cbn [check_grammar.error_parts].
  - by intros [= <-].
  - destruct (py.subscript err _) as [original|]; [|done].
    destruct (py.subscript err _) as [correction|]; [|done].
    destruct (check_grammar.error_parts rest) as [parts'|]; [|done].
    intros [= <-]. destruct (IH parts' eq_refl) as [Hlen Hall]. split.
    + cbn. by rewrite Hlen.
    + by constructor.
Qed.

Lemma first_two_length errors errs :
  check_grammar.first_two errors = Ok errs ->
  (length errs <= 2)%nat /\ (py.truthy errors = true -> errs <> []).
Proof.
  destruct errors as [| | | |s|l|]; try done; intros [= <-].
  - rewrite length_map, length_firstn. split; [lia|]. by destruct s.
  - rewrite length_firstn. split; [lia|]. by destruct l.
Qed.

Lemma shorten_length better shortened s :
  check_grammar.shorten better = Ok shortened -> shortened = JStr s -> (length s <= 50)%nat.
Proof.
  unfold check_grammar.shorten. destruct (py.len better) as [n|] eqn:Hlen; [|done].
  destruct (Z.ltb_spec 50 n).
  - destruct better as [| | | |s'| |]; try done. intros [= <-] [= <-].
    rewrite length_app, length_firstn. cbn [length]. lia.
  - intros [= <-] ->. cbn in Hlen. injection Hlen as <-. lia.
Qed.

(** What [notify] does: nothing, or one notification. *)
Lemma notify_run analysis errors w r w' :
  check_grammar.notify analysis errors w = (r, w') ->
  w' = w
  \/ (r = Ok tt
      /\ exists parts, w' = add_event (EvNotify (MsgParts parts)) w /\ notification_parts parts).
Proof.
  unfold check_grammar.notify. intros Hrun.
  apply bind_inv in Hrun as [(x & Hrun & ->)|(parts & w1 & Hparts & Hrun)].
  { left. destruct (py.truthy errors); [|done].
    apply bind_inv in Hrun as [(x' & [= _ <-] & _)|(errs & w1 & [= _ <-] & [= _ <-])]; done. }
  assert (w1 = w /\ ((length parts <= 2)%nat
                     /\ Forall (fun p => match p with PartFix _ _ => True
                                                 | PartBetter _ => False end) parts))
    as [-> [Hlen Hfix]].
  { destruct (py.truthy errors).
    - apply bind_inv in Hparts as [(x' & _ & [=])|(errs & w2 & [= Hfirst <-] & [= Herrs <-])].
      apply first_two_length in Hfirst as [Hle _].
      apply error_parts_length in Herrs as [Hlen Hall]. split; [done|]. split; [lia|done].
    - injection Hparts as <- <-. split; [done|]. split; [cbn; lia|constructor]. }
  apply bind_inv in Hrun as [(x & [= _ <-] & ->)|(better & w1 & [= _ <-] & Hrun)]; [by left|].
  apply bind_inv in Hrun as [(x & Hrun & ->)|(parts' & w1 & Hparts' & Hrun)].
  { left. destruct parts; [|done]. destruct (py.truthy better); [|done].
    apply bind_inv in Hrun as [(x' & [= _ <-] & _)|(b1 & w1 & [= _ <-] & Hrun)]; [done|].
    apply bind_inv in Hrun as [(x' & [= _ <-] & _)|(b2 & w1 & [= _ <-] & [= _ <-])]; done. }
  destruct parts as [|first_part parts].
  - destruct (py.truthy better).
    + apply bind_inv in Hparts' as [(x' & _ & [=])|(b1 & w2 & [= _ <-] & Hparts')].
      apply bind_inv in Hparts' as [(x' & _ & [=])|(b2 & w2 & [= Hshort <-] & [= <- <-])].
      injection Hrun as <- <-. right. split; [done|].
      exists [PartBetter b2]. split; [done|]. right. exists b2. split; [done|].
      intros s. by apply (shorten_length b1).
    + injection Hparts' as <- <-. injection Hrun as <- <-. by left.
  - injection Hparts' as <- <-. injection Hrun as <- <-. right. split; [done|].
    exists (first_part :: parts). split; [done|]. left. split; [|done]. cbn in *. lia.
Qed.

(** The events of the record block. *)
Lemma record_run p fields w r w' :
  check_grammar.record E p (JObj fields) w = (r, w') ->
  exists tail, events w' = events w ++ tail /\ record_trace p fields tail.
Proof.
  unfold check_grammar.record. intros Hrun.
  apply bind_inv in Hrun as [(x & Hlog & ->)|(logged & w1 & Hlog & Hrun)].
  { apply save_to_obsidian_step in Hlog as (_ & _ & _ & Hev & _).
    exists [EvLog p (JObj fields) (Raise x)]. split; [done|]. constructor. }
  apply save_to_obsidian_step in Hlog as (_ & _ & _ & Hev1 & _).
  unfold py.get in Hrun.
  repeat (unfold bind at 1 in Hrun; unfold lift at 1 in Hrun).
  destruct (spec.record_arguments p fields) as [[[u e] b] s] eqn:Hargs.
  unfold spec.record_arguments in Hargs. injection Hargs as <- <- <- <-.
  apply bind_inv in Hrun as [(x & Hdb & ->)|(new_id & w2 & Hdb & Hrun)].
  { apply save_to_db_step in Hdb as (_ & _ & _ & Hev2 & _).
    eexists. split; [by rewrite Hev2, Hev1, <- app_assoc|]. by apply record_store_raised. }
  apply save_to_db_step in Hdb as (_ & _ & _ & Hev2 & _).
  apply notify_run in Hrun as [->|(_ & parts & -> & Hparts)].
  - eexists. split; [by rewrite Hev2, Hev1, <- app_assoc|]. by apply record_stored.
  - eexists. split; [cbn; by rewrite Hev2, Hev1, <- !app_assoc|]. by apply record_notified.
Qed.

(** The events of the [try] block. *)
Lemma body_run input w r w' :
  check_grammar.body E input w = (r, w') ->
  exists new, events w' = events w ++ new /\ primary_trace new.
Proof.
  unfold check_grammar.body. intros Hrun.
  apply bind_inv in Hrun as [(x & [= _ <-] & _)|(input_data & w0 & [= _ <-] & Hrun)].
  { exists []. split; [by rewrite app_nil_r|constructor]. }
  apply bind_inv in Hrun as [(x & [= _ <-] & _)|(prompt & w0 & [= _ <-] & Hrun)].
  { exists []. split; [by rewrite app_nil_r|constructor]. }
  apply bind_inv in Hrun as [(x & Hrun & _)|(user_prompt & w0 & Hprompt & Hrun)].
  { exists []. split; [|constructor]. rewrite app_nil_r.
    destruct (py.truthy prompt); by injection Hrun as _ <-. }
  assert (w0 = w) as -> by (destruct (py.truthy prompt); by injection Hprompt as _ <-).
  apply bind_inv in Hrun as [(x & [= Hverdict <-] & _)|(admitted & w1 & [= Hverdict <-] & Hrun)].
  { exists [EvAdmission user_prompt (Raise x)]. split; [cbn [events add_event add_stdout]; repeat f_equal; exact Hverdict|].
    by constructor. }
  destruct admitted; cbn [negb] in Hrun.
  2:{ apply bind_inv in Hrun as [(x & [=] & _)|([] & w2 & [= <-] & [= _ <-])].
      exists [EvAdmission user_prompt (Ok false)]. split; [cbn [events add_event add_stdout]; repeat f_equal; exact Hverdict|].
      by constructor. }
  destruct user_prompt as [| | | |t| |];
    try (cbn in Hverdict; by repeat case_match).
  injection Hverdict as Hadmit. rewrite Hadmit in Hrun.
  apply bind_inv in Hrun as [(x & Hcall & _)|(a & w2 & Hcall & Hrun)].
  { apply analyze_grammar_step in Hcall as (_ & _ & _ & _ & _ & _ & Hev).
    exists [EvAdmission (JStr t) (Ok true); EvAnalyzeRaised t x].
    split; [cbn in Hev; by rewrite Hev, <- app_assoc|]. by apply trace_analysis_raised. }
  apply analyze_grammar_step in Hcall as (_ & _ & _ & _ & _ & _ & Hev).
  cbn [events add_event] in Hev. rewrite <- app_assoc in Hev. cbn [app] in Hev.
  assert (forall A (m : SE world A) r1 w3,
            m w2 = (r1, w3) ->
            (exists new, events w3 = events w ++ new /\ primary_trace new) ->
            forall r2 w4,
              bind m (fun _ => calls.print LHookResponse) w2 = (r2, w4) ->
              exists new, events w4 = events w ++ new /\ primary_trace new) as Hprint.
  { intros A m r1 w3 Hm Htrace r2 w4. unfold bind. rewrite Hm.
    destruct r1; by intros [= _ <-]. }
  revert Hrun. generalize r w'. clear r w'.
  match goal with
  | |- forall r w', bind ?m _ _ = _ -> _ =>
      destruct (m w2) as [r1 w3] eqn:Hblock; intros r w'; apply (Hprint _ m r1 w3 Hblock)
  end.
  clear Hprint.
  destruct (py.truthy a) eqn:Htruthy.
  2:{ injection Hblock as _ <-. eexists. split; [exact Hev|].
      apply trace_analyzed; [done|]. intros fields Ha. rewrite Ha in Htruthy.
      by destruct fields. }
  apply bind_inv in Hblock as [(x & [= Hget <-] & _)|(skipped & w0 & [= Hget <-] & Hblock)].
  { eexists. split; [exact Hev|]. apply trace_analyzed; [done|].
    intros fields Ha. by rewrite Ha in Hget. }
  destruct a as [| | | | | |fields]; try done. clear Htruthy.
  assert (skipped = from_option id JNull (py.lookup_item (str "skipped") fields)) as ->
    by (unfold py.get in Hget; by injection Hget as <-).
  clear Hget.
  destruct (py.truthy (from_option id JNull (py.lookup_item (str "skipped") fields)))
    eqn:Hskipped.
  { apply bind_inv in Hblock as [(x & [=] & _)|([] & w0 & [= <-] & [= _ <-])].
    eexists. split; [exact Hev|]. apply trace_analyzed; [done|].
    intros ? [= <-]. unfold spec.to_record. by rewrite Hskipped. }
  apply bind_inv in Hblock as [(x & [=] & _)|(has_errors & w0 & [= Hget <-] & Hblock)].
  assert (has_errors = from_option id JNull (py.lookup_item (str "has_errors") fields)) as ->
    by (by rewrite <- Hget).
  clear Hget.
  apply bind_inv in Hblock as [(x & Hblock & _)|(findings & w0 & Hfindings & Hblock)].
  { destruct (py.truthy (from_option id JNull (py.lookup_item (str "has_errors") fields)));
      done. }
  assert (w0 = w2 /\ py.truthy findings
                     = py.truthy (from_option id JNull
                                    (py.lookup_item (str "has_errors") fields))
                       || py.truthy (from_option id JNull
                                       (py.lookup_item (str "better_expression") fields)))
    as [-> Hfound].
  { destruct (py.truthy (from_option id JNull (py.lookup_item (str "has_errors") fields)))
      eqn:Herrors; injection Hfindings as <- <-; (split; [done|]); cbn [orb];
      first [exact Herrors | done]. }
  assert (spec.to_record fields = py.truthy findings) as Hrecord.
  { unfold spec.to_record. by rewrite Hskipped, Hfound. }
  destruct (py.truthy findings).
  - apply record_run in Hblock as (tail & Hev' & Htail).
    eexists. split; [rewrite Hev', Hev, <- app_assoc; reflexivity|].
    by apply trace_recorded.
  - injection Hblock as _ <-. eexists. split; [exact Hev|].
    apply trace_analyzed; [done|]. by intros ? [= <-].
Qed.

End PrimaryTrace.
(** ** Properties of [check_grammar.py] *)

Section PrimaryProperties.
Context `{language_detect.UnicodeData}.
Variable E : env.

(** X1: whatever the input and whatever fails, [check_grammar.py] exits
    with status 0 after printing the hook response on stdout exactly once
    (the input being a value or an exception other than [SystemExit]). *)
Theorem main_answers_once input w :
  no_exit input ->
  fst (check_grammar.main E input w) = 0
  /\ stdout (snd (check_grammar.main E input w)) = stdout w ++ [LHookResponse].
Proof.
  intros Hinput. unfold check_grammar.main.
  destruct (check_grammar.body E input w) as [r w'] eqn:Hbody.
  apply (answers_body E input Hinput) in Hbody.
  destruct r as [[]|[]]; cbn; by rewrite ?Hbody.
Qed.

(** X2: the events of a run of [check_grammar.py] are, in this order, at
    most one admission check, one analyzer call, one log write, one store
    write and one notification: the analyzer is called only on a text that
    the filter admits, the log is written only for an outcome that calls
    for a record, the store only after the log write returned, and the
    notification is sent only after the store write returned. *)
Theorem main_trace input w :
  exists new,
    events (snd (check_grammar.main E input w)) = events w ++ new /\ primary_trace new.
Proof.
  unfold check_grammar.main.
  destruct (check_grammar.body E input w) as [r w'] eqn:Hbody.
  apply body_run in Hbody as (new & Hev & Htrace).
  exists new. split; [|done]. destruct r as [[]|[]]; done.
Qed.

(** X3: the notification of a recorded run shows one or two fixes, or,
    when there is none, the rephrasing cut to at most 50 characters; a run
    of [notify] changes nothing else. *)
Theorem notify_is_bounded analysis errors w :
  let w' := snd (check_grammar.notify analysis errors w) in
  w' = w
  \/ exists parts, w' = add_event (EvNotify (MsgParts parts)) w /\ notification_parts parts.
Proof.
  intros w'. subst w'.
  destruct (check_grammar.notify analysis errors w) as [r w'] eqn:Hrun.
  apply notify_run in Hrun as [->|(_ & parts & -> & Hparts)]; [by left|].
  right. by exists parts.
Qed.

(** X4: an outcome that does not call for a record (marked skipped, or
    without has-errors and rephrasing) leaves the store and the log as they
    were, whatever else it holds: the run makes the admission check and
    the analyzer call and prints the hook response. *)
Theorem main_without_record items t fields w :
  py.lookup_item (str "prompt") items = Some (JStr t) ->
  language_detect.should_check_grammar t = true ->
  claude_api.analyze_grammar (json_loads E) (api_call E (tick w) t) = Ok (JObj fields) ->
  spec.to_record fields = false ->
  check_grammar.main E (Ok (JObj items)) w
  = (0, add_stdout LHookResponse
          (advance 1 (add_event (EvAnalyze t (JObj fields))
                        (add_event (EvAdmission (JStr t) (Ok true)) w)))).
Proof.
  intros Hprompt Hadmit Hanalysis Hrecord. unfold check_grammar.main.
  rewrite (body_analyzed E items t (JObj fields) w Hprompt Hadmit Hanalysis) by done.
  unfold spec.to_record in Hrecord.
  destruct fields as [|field fields']; [done|]. set (fields := field :: fields') in *.
  change (py.truthy (JObj fields)) with true. cbv iota.
  unfold bind at 1. unfold bind at 1. unfold lift at 1, py.get at 1.
  destruct (py.truthy (from_option id JNull (py.lookup_item (str "skipped") fields))); [done|].
  cbn [negb andb] in Hrecord. apply orb_false_iff in Hrecord as [Herrors Hbetter].
  unfold bind at 1. unfold lift at 1, py.get at 1.
  unfold bind at 1. rewrite Herrors.
  unfold lift at 1, py.get at 1. rewrite Hbetter. done.
Qed.

(** X5: a store write that fails after the log write returned leaves the
    log entry in place and the store as it was: the failure is reported on
    stderr, nothing is rolled back and no notification is sent. *)
Theorem main_store_failure items t fields w logged w2 x d :
  py.lookup_item (str "prompt") items = Some (JStr t) ->
  language_detect.should_check_grammar t = true ->
  claude_api.analyze_grammar (json_loads E) (api_call E (tick w) t) = Ok (JObj fields) ->
  spec.to_record fields = true ->
  let w1 := advance 1 (add_event (EvAnalyze t (JObj fields))
                         (add_event (EvAdmission (JStr t) (Ok true)) w)) in
  calls.save_to_obsidian E (JStr t) (JObj fields) w1 = (Ok logged, w2) ->
  (let '(u, e, b, s) := spec.record_arguments (JStr t) fields in
   db.save_correction (db_fault E (tick w2)) (clock E (tick w2))
     (ts_date (clock E (S (tick w2)))) (JStr t) u e b s (store w2) = (Raise x, d)) ->
  let w' := snd (check_grammar.main E (Ok (JObj items)) w) in
  store w' = store w /\ notes w' = notes w2
  /\ stderr w' = stderr w2 ++ [LError x]
  /\ stdout w' = stdout w ++ [LHookResponse]
  /\ exists u e b s,
       events w' = events w2 ++ [EvStore (JStr t) u e b s (Raise x)].
Proof.
  intros Hprompt Hadmit Hanalysis Hrecord w1 Hlog Hstore w'.
  destruct (silent_obsidian E _ _ _ _ _ Hlog) as [Hout2 _].
  assert (exists w4,
            check_grammar.main E (Ok (JObj items)) w
            = (0, add_stdout LHookResponse (add_stderr (LError x) w4))
            /\ (let '(u, e, b, s) := spec.record_arguments (JStr t) fields in
                calls.save_to_db E (JStr t) u e b s w2 = (Raise x, w4)))
    as (w4 & Hmain & Hdb).
  { unfold check_grammar.main.
    rewrite (body_records E items t fields w Hprompt Hadmit Hanalysis Hrecord).
    fold w1. unfold bind at 1.
    destruct (check_grammar.record E (JStr t) (JObj fields) w1) as [r w3] eqn:Hblock.
    apply record_steps in Hblock as (lr & w2' & Hlog' & Hblock).
    rewrite Hlog in Hlog'. injection Hlog' as <- <-.
    destruct (spec.record_arguments (JStr t) fields) as [[[u e] b] s].
    destruct Hblock as (sr & w4 & Hdb & Hblock).
    pose proof Hdb as Hstep. apply save_to_db_step in Hstep as (_ & _ & _ & _ & Hsaved).
    rewrite Hstore in Hsaved. injection Hsaved as -> _.
    destruct Hblock as [-> ->]. exists w4. split; [|done].
    pose proof (save_correction_no_exit (db_fault E (tick w2)) (clock E (tick w2))
                  (ts_date (clock E (S (tick w2)))) (JStr t) u e b s (store w2)) as Hx.
    rewrite Hstore in Hx. cbn [fst] in Hx.
    destruct x; try done. by destruct (Hx status). }
  subst w'. rewrite Hmain. cbn [snd store notes stderr stdout events add_stdout add_stderr].
  destruct (spec.record_arguments (JStr t) fields) as [[[u e] b] s].
  pose proof Hdb as Hstep. apply save_to_db_step in Hstep as (Hnotes & _ & _ & Hev & Hsaved).
  rewrite Hstore in Hsaved. injection Hsaved as Hd.
  apply save_correction_raise in Hstore.
  apply save_to_obsidian_step in Hlog as (Hstore2 & _ & _ & _ & _).
  assert (stdout w4 = stdout w2 /\ stderr w4 = stderr w2) as [Hout Herr].
  { unfold calls.save_to_db in Hdb.
    destruct (db.save_correction _ _ _ _ _ _ _ _ _). by injection Hdb as _ <-. }
  split_and!.
  - rewrite Hd, Hstore, Hstore2. done.
  - exact Hnotes.
  - by rewrite Herr.
  - rewrite Hout, Hout2. done.
  - by exists u, e, b, s.
Qed.

End PrimaryProperties.
(** ** Properties of [recall.py] *)

Section Emits.
Context `{language_detect.UnicodeData}.
Variable E : env.
Variable kind : event -> bool.
Variables per_call per_sleep : nat.
Hypothesis kind_admission : forall p v, kind (EvAdmission p v) = false.
Hypothesis kind_log : forall p a r, kind (EvLog p a r) = false.
Hypothesis kind_store : forall o u e b s r, kind (EvStore o u e b s r) = false.
Hypothesis kind_notify : forall m, kind (EvNotify m) = false.
Hypothesis kind_save : forall q o, kind (EvSaveQueue q o) = false.
Hypothesis kind_analyze : forall t a, (count kind [EvAnalyze t a] <= per_call)%nat.
Hypothesis kind_raised : forall t x, (count kind [EvAnalyzeRaised t x] <= per_call)%nat.
Hypothesis kind_sleep : forall n, (count kind [EvSleep n] <= per_sleep)%nat.

Lemma count_app evs evs' : count kind (evs ++ evs') = (count kind evs + count kind evs')%nat.
Proof. unfold count. by rewrite List.filter_app, length_app. Qed.

Lemma emits_weaken {A} n n' (m : SE world A) :
  (n <= n')%nat -> emits_at_most kind n m -> emits_at_most kind n' m.
Proof.
  intros Hle Hm w r w' Hrun. apply Hm in Hrun as (new & Hev & Hn).
  exists new. split; [done|lia].
Qed.

Lemma emits_ret {A} (a : A) : emits_at_most kind 0 (ret a).
Proof. intros w r w' [= <- <-]. exists []. by rewrite app_nil_r. Qed.

Lemma emits_lift {A} (r0 : result A) : emits_at_most kind 0 (lift r0).
Proof. intros w r w' [= <- <-]. exists []. by rewrite app_nil_r. Qed.

Lemma emits_print l : emits_at_most kind 0 (calls.print l).
Proof. intros w r w' [= <- <-]. exists []. by rewrite app_nil_r. Qed.

Lemma emits_bind {A B} n k (m : SE world A) (f : A -> SE world B) :
  emits_at_most kind n m -> (forall a, emits_at_most kind k (f a)) ->
  emits_at_most kind (n + k) (bind m f).
Proof.
  intros Hm Hf w r w' Hrun.
  apply bind_inv in Hrun as [(e & Hrun & _)|(a & w1 & Hrun & Hrest)].
  - apply Hm in Hrun as (new & Hev & Hn). exists new. split; [done|lia].
  - apply Hm in Hrun as (new & Hev & Hn). apply Hf in Hrest as (new' & Hev' & Hn').
    exists (new ++ new'). rewrite Hev', Hev, <- app_assoc, count_app. split; [done|lia].
Qed.

Lemma emits_after {A B} k (m : SE world A) (f : A -> SE world B) :
  emits_at_most kind 0 m -> (forall a, emits_at_most kind k (f a)) ->
  emits_at_most kind k (bind m f).
Proof. intros Hm Hf. apply (emits_weaken (0 + k)); [lia|by apply emits_bind]. Qed.

Lemma emits_before {A B} n (m : SE world A) (f : A -> SE world B) :
  emits_at_most kind n m -> (forall a, emits_at_most kind 0 (f a)) ->
  emits_at_most kind n (bind m f).
Proof. intros Hm Hf. apply (emits_weaken (n + 0)); [lia|by apply emits_bind]. Qed.

Lemma emits_should_check v : emits_at_most kind 0 (calls.should_check_grammar v).
Proof.
  intros w r w' [= <- <-]. eexists [_]. split; [done|].
  unfold count. cbn. by rewrite kind_admission.
Qed.

Lemma emits_analyze t : emits_at_most kind per_call (calls.analyze_grammar E t).
Proof.
  intros w r w' Hrun. apply analyze_grammar_step in Hrun as (_ & _ & _ & _ & _ & _ & Hev).
  eexists [_]. split; [exact Hev|]. destruct r; [apply kind_analyze|apply kind_raised].
Qed.

Lemma emits_sleep n : emits_at_most kind per_sleep (calls.sleep n).
Proof. intros w r w' [= <- <-]. eexists [_]. split; [done|]. apply kind_sleep. Qed.

Lemma emits_obsidian p a : emits_at_most kind 0 (calls.save_to_obsidian E p a).
Proof.
  intros w r w' Hrun. apply save_to_obsidian_step in Hrun as (_ & _ & _ & Hev & _).
  eexists [_]. split; [done|]. unfold count. cbn. by rewrite kind_log.
Qed.

Lemma emits_db o u e b s : emits_at_most kind 0 (calls.save_to_db E o u e b s).
Proof.
  intros w r w' Hrun. apply save_to_db_step in Hrun as (_ & _ & _ & Hev & _).
  eexists [_]. split; [done|]. unfold count. cbn. by rewrite kind_store.
Qed.

Lemma emits_process_analysis p a : emits_at_most kind 0 (recall.process_analysis E p a).
Proof.
  unfold recall.process_analysis.
  repeat first
    [ apply emits_ret | apply emits_lift | apply emits_obsidian | apply emits_db
    | apply emits_after; [|intros ?]
    | match goal with
      | |- emits_at_most _ _ (if ?b then _ else _) => destruct b
      end ].
Qed.

Lemma emits_try_api t :
  emits_at_most kind (per_call + (per_sleep + per_call)) (recall.try_api E t [0; 1]).
Proof.
  cbn [recall.try_api].
  apply emits_bind; [apply emits_analyze|]. intros a1.
  destruct (recall.is_none a1); [|apply (emits_weaken 0); [lia|apply emits_ret]].
  change (0 =? 0) with true. cbv iota.
  apply emits_bind.
  { apply emits_after; [apply emits_print|intros _; apply emits_sleep]. }
  intros _.
  apply emits_before; [apply emits_analyze|]. intros a2.
  destruct (recall.is_none a2); [|apply emits_ret].
  change (1 =? 0) with false. cbv iota.
  apply emits_after; [apply emits_ret|intros _; apply emits_ret].
Qed.

Lemma emits_retry_item item st :
  emits_at_most kind (2 * per_call + per_sleep) (recall.retry_item E item st).
Proof.
  unfold recall.retry_item.
  apply emits_after; [apply emits_lift|]. intros prompt.
  destruct (negb (py.truthy prompt)); [apply (emits_weaken 0); [lia|apply emits_ret]|].
  apply emits_after; [apply emits_lift|]. intros prefix.
  apply emits_after; [apply emits_print|]. intros _.
  apply emits_after; [apply emits_should_check|]. intros admitted.
  destruct (negb admitted).
  { apply (emits_weaken 0); [lia|].
    apply emits_after; [apply emits_print|intros _; apply emits_ret]. }
  destruct prompt; try (apply (emits_weaken 0); [lia|apply emits_lift]).
  apply (emits_weaken (per_call + (per_sleep + per_call))); [lia|].
  apply emits_before; [apply emits_try_api|]. intros analysis.
  destruct (recall.is_none analysis).
  - apply emits_after; [apply emits_print|intros _; apply emits_ret].
  - apply emits_after; [apply emits_process_analysis|]. intros had.
    apply emits_after; [apply emits_print|intros _; apply emits_ret].
Qed.

Lemma emits_drain items : forall st,
  emits_at_most kind (length items * (2 * per_call + per_sleep)) (recall.drain E items st).
Proof.
  induction items as [|item items IH]; intros st; cbn [recall.drain length].
  - apply emits_ret.
  - apply (emits_weaken ((2 * per_call + per_sleep)
                         + length items * (2 * per_call + per_sleep))); [lia|].
    apply emits_bind; [apply emits_retry_item|]. intros st'. apply IH.
Qed.

Lemma emits_notification m : emits_at_most kind 0 (calls.send_notification m).
Proof.
  intros w r w' [= <- <-]. eexists [_]. split; [done|].
  unfold count. cbn. by rewrite kind_notify.
Qed.

Lemma emits_save_retry_queue queue : emits_at_most kind 0 (recall.save_retry_queue E queue).
Proof.
  intros w r w'. unfold recall.save_retry_queue.
  destruct (queue_write E (tick w)); intros [= <- <-]; eexists [_];
    (split; [done|]); unfold count; cbn; by rewrite kind_save.
Qed.

(** A queue whose entries are no objects ends the drain at its first
    entry. *)
Lemma emits_drain_no_objects items st :
  Forall (fun item => forall fields, item <> JObj fields) items ->
  emits_at_most kind 0 (recall.drain E items st).
Proof.
  intros Hitems. destruct Hitems as [|item items Hitem _]; cbn [recall.drain].
  - apply emits_ret.
  - intros w r w'. unfold bind at 1. unfold recall.retry_item. unfold bind at 1.
    unfold lift at 1. destruct item as [| | | | | |fields]; try (by destruct (Hitem fields));
      intros [= <- <-]; exists []; by rewrite app_nil_r.
Qed.

Lemma emits_let {A B} n (a : A) (f : A -> SE world B) :
  emits_at_most kind n (f a) -> emits_at_most kind n (bind (lift (Ok a)) f).
Proof. intros Hf w r w' Hrun. exact (Hf w r w' Hrun). Qed.

Lemma emits_raise {A B} n x (f : A -> SE world B) :
  emits_at_most kind n (bind (lift (Raise x)) f).
Proof. intros w r w' [= <- <-]. exists []. rewrite app_nil_r. split; [done|cbn; lia]. Qed.

Lemma emits_main w :
  exists new,
    events (snd (recall.main E w)) = events w ++ new
    /\ (count kind new <= length (queue_entries w) * (2 * per_call + per_sleep))%nat.
Proof.
  destruct (recall.main E w) as [r w'] eqn:Hrun. cbn [snd]. revert Hrun.
  unfold recall.main. unfold bind at 1. unfold recall.load_retry_queue at 1.
  unfold queue_entries.
  match goal with
  | |- ?m w = _ -> _ =>
      assert (emits_at_most kind
                (length match retry_queue w with Some (JArr items) => items | _ => [] end
                 * (2 * per_call + per_sleep)) m) as Hm;
        [|intros Hrun; exact (Hm w r w' Hrun)]
  end.
  assert (emits_at_most kind 0
            (bind (calls.send_notification MsgNoFailed) (fun _ => calls.print LNoFailed)))
    as Hempty by (apply emits_after; [apply emits_notification|intros _; apply emits_print]).
  assert (forall total items st,
            Forall (fun item => forall fields, item <> JObj fields) items ->
            emits_at_most kind 0
              (bind (calls.print (LFound total))
                 (fun _ => bind (lift (Ok items))
                    (fun items => bind (recall.drain E items st)
                       (fun st => bind (recall.save_retry_queue E (recall.still_failed st))
                          (fun _ => bind (calls.send_notification (recall.summary total st))
                             (fun _ => calls.print (LDone (recall.summary total st)))))))))
    as Hbad.
  { intros total items st Hitems.
    apply emits_after; [apply emits_print|]. intros _. apply emits_let.
    apply emits_after; [by apply emits_drain_no_objects|]. intros st'.
    apply emits_after; [apply emits_save_retry_queue|]. intros _.
    apply emits_after; [apply emits_notification|]. intros _. apply emits_print. }
  destruct (retry_queue w) as [[| |z|f|s|items|fields]|]; cbn [from_option id].
  - exact Hempty.
  - destruct b; [apply emits_raise|exact Hempty].
  - cbn [py.truthy]. destruct (negb (z =? 0)); [apply emits_raise|exact Hempty].
  - cbn [py.truthy]. destruct f; cbn [negb]; first [exact Hempty | apply emits_raise].
  - destruct s as [|c s]; [exact Hempty|]. cbn [py.truthy negb py.len py.iter].
    apply emits_let. apply Hbad. apply Forall_forall. intros item Hin.
    apply list_elem_of_In, in_map_iff in Hin as (c' & <- & _). done.
  - destruct items as [|item items]; [exact Hempty|]. cbn [py.truthy negb py.len py.iter].
    apply emits_let. apply emits_after; [apply emits_print|]. intros _. apply emits_let.
    apply emits_before; [apply emits_drain|]. intros st'.
    apply emits_after; [apply emits_save_retry_queue|]. intros _.
    apply emits_after; [apply emits_notification|]. intros _. apply emits_print.
  - destruct fields as [|field fields]; [exact Hempty|]. cbn [py.truthy negb py.len py.iter].
    apply emits_let. apply Hbad. apply Forall_forall. intros item Hin.
    apply list_elem_of_In, in_map_iff in Hin as (c' & <- & _). done.
  - exact Hempty.
Qed.

End Emits.
Section Accounts.
Context `{language_detect.UnicodeData}.
Variable E : env.

(** What one turn of the drain that returns adds to the three counts and
    to the writes. *)
Lemma retry_item_accounts item st w st' w' :
  recall.retry_item E item st w = (Ok st', w') ->
  exists new,
    events w' = events w ++ new
    /\ recall.success_count st' + Z.of_nat (length (recall.still_failed st'))
       + (if passed_over item then 1 else 0)
       = recall.success_count st + Z.of_nat (length (recall.still_failed st)) + 1
    /\ recall.findings_count st' = recall.findings_count st + Z.of_nat (count is_store new)
    /\ count is_log new = count is_store new
    /\ Z.of_nat (count is_store new) <= recall.success_count st' - recall.success_count st.
Proof.
  unfold recall.retry_item, passed_over. intros Hrun.
  apply bind_inv in Hrun as [(x & _ & [=])|(prompt & w0 & Hprompt & Hrun)].
  injection Hprompt as Hprompt <-.
  assert (py.get item (str "prompt") (JStr []) = Ok prompt) as -> by exact Hprompt.
  destruct (py.truthy prompt) eqn:Htruthy; cbn [negb] in *.
  2:{ injection Hrun as <- <-. exists []. rewrite app_nil_r. split_and!; try done; cbn; lia. }
  apply bind_inv in Hrun as [(x & _ & [=])|(prefix & w0 & Hprefix & Hrun)].
  injection Hprefix as Hprefix <-.
  apply bind_inv in Hrun as [(x & _ & [=])|([] & w1 & Hprint & Hrun)].
  injection Hprint as <-.
  apply bind_inv in Hrun as [(x & _ & [=])|(admitted & w2 & Hadmit & Hrun)].
  destruct prompt as [| | | |s| |];
    try (unfold calls.should_check_grammar in Hadmit; rewrite Htruthy in Hadmit; done).
  injection Hadmit as Hadmit <-.
  destruct admitted; cbn [negb] in Hrun.
  2:{ apply bind_inv in Hrun as [(x & _ & [=])|([] & w3 & Hprint & Hrun)].
      injection Hprint as <-. injection Hrun as <- <-.
      eexists [_]. split; [done|]. split_and!; cbn; lia. }
  apply bind_inv in Hrun as [(x & _ & [=])|(a & w3' & Htry & Hrun)].
  apply try_api_runs in Htry as Hevents.
  rewrite Hadmit in Hevents. cbn [events add_event add_stdout] in Hevents.
  assert (exists tried, events w3' = events w ++ tried
                        /\ count is_store tried = 0%nat /\ count is_log tried = 0%nat)
    as (tried & Htried & Hstores & Hlogs).
  { destruct Hevents as [[_ ->]| ->]; eexists; (split; [by rewrite <- app_assoc|done]). }
  clear Hevents.
  destruct (recall.is_none a) eqn:Hnone.
  - apply bind_inv in Hrun as [(x & _ & [=])|([] & w4 & Hprint & Hrun)].
    injection Hprint as <-. injection Hrun as <- <-.
    exists tried. split; [done|]. rewrite Hstores, Hlogs. cbn. rewrite length_app. cbn.
    split_and!; lia.
  - apply bind_inv in Hrun as [(x & _ & [=])|(had & w4 & Hprocess & Hrun)].
    apply bind_inv in Hrun as [(x & _ & [=])|([] & w5 & Hprint & Hrun)].
    injection Hprint as <-. injection Hrun as <- <-.
    apply process_analysis_handling in Hprocess
      as (handled & (fields & -> & Hhandled) & Hev & (fields' & [= <-] & ->)).
    exists (tried ++ handled). cbn [events add_stdout].
    rewrite Hev, Htried, <- app_assoc, !count_app, Hstores, Hlogs.
    split; [done|]. cbn [recall.success_count recall.still_failed recall.findings_count].
    destruct (spec.to_record fields).
    + destruct (spec.record_arguments (JStr s) fields) as [[[u e] b] sm].
      destruct Hhandled as (logged & new_id & ->). cbn. split_and!; lia.
    + subst handled. cbn. split_and!; lia.
Qed.

(** The same for the whole drain. *)
Lemma drain_accounts items : forall st w st' w',
  recall.drain E items st w = (Ok st', w') ->
  exists new,
    events w' = events w ++ new
    /\ recall.success_count st' + Z.of_nat (length (recall.still_failed st'))
       + Z.of_nat (length (List.filter passed_over items))
       = recall.success_count st + Z.of_nat (length (recall.still_failed st))
         + Z.of_nat (length items)
    /\ recall.findings_count st' = recall.findings_count st + Z.of_nat (count is_store new)
    /\ count is_log new = count is_store new
    /\ Z.of_nat (count is_store new) <= recall.success_count st' - recall.success_count st.
Proof.
  induction items as [|item items IH]; intros st w st' w' Hrun.
  - injection Hrun as <- <-. exists []. rewrite app_nil_r. split_and!; try done; cbn; lia.
  - cbn [recall.drain] in Hrun.
    apply bind_inv in Hrun as [(x & _ & [=])|(st1 & w1 & Hitem & Hrun)].
    apply retry_item_accounts in Hitem as (new1 & Hev1 & Hsum1 & Hfind1 & Hlog1 & Hle1).
    apply IH in Hrun as (new2 & Hev2 & Hsum2 & Hfind2 & Hlog2 & Hle2).
    exists (new1 ++ new2). rewrite Hev2, Hev1, <- app_assoc, !count_app.
    split; [done|]. cbn [List.filter length].
    destruct (passed_over item); cbn [length]; split_and!; lia.
Qed.

End Accounts.
Section RecallProperties.
Context `{language_detect.UnicodeData}.
Variable E : env.

Lemma keeps_queue_try_api t attempts : keeps_queue (recall.try_api E t attempts).
Proof.
  induction attempts as [|attempt rest IH]; cbn [recall.try_api]; [apply keeps_queue_ret|].
  unfold calls.sleep. keeps_queue_steps; apply IH.
Qed.

Lemma keeps_queue_process_analysis p a : keeps_queue (recall.process_analysis E p a).
Proof. unfold recall.process_analysis. keeps_queue_steps. Qed.

Lemma keeps_queue_retry_item item st : keeps_queue (recall.retry_item E item st).
Proof.
  unfold recall.retry_item.
  keeps_queue_steps; first [apply keeps_queue_try_api | apply keeps_queue_process_analysis].
Qed.

Lemma keeps_queue_drain items : forall st, keeps_queue (recall.drain E items st).
Proof.
  induction items as [|item items IH]; intros st; cbn [recall.drain].
  - apply keeps_queue_ret.
  - apply keeps_queue_bind; [apply keeps_queue_retry_item|intros st'; apply IH].
Qed.

(** X6: [recall.py] calls the analyzer at most twice and sleeps at most
    once for each entry of the queue, however the run ends; a queue file
    that holds no list costs no call. *)
Theorem main_calls_are_bounded w :
  exists new,
    events (snd (recall.main E w)) = events w ++ new
    /\ (count is_analyze new <= 2 * length (queue_entries w))%nat
    /\ (count is_sleep new <= length (queue_entries w))%nat.
Proof.
  destruct (emits_main E is_analyze 1 0) with (w := w) as (new & Hev & Hcalls);
    try done; try (intros; cbn; lia).
  destruct (emits_main E is_sleep 0 1) with (w := w) as (new' & Hev' & Hsleeps);
    try done; try (intros; cbn; lia).
  rewrite Hev in Hev'. apply app_inv_head in Hev' as <-.
  exists new. split; [done|]. split; lia.
Qed.

(** X7: in the closing summary of a run that returns, every entry of the
    queue is accounted for once: the entries counted as OK, the entries
    that are still failed and the entries passed over for want of a
    prompt add up to the length of the queue. *)
Theorem main_accounts_for_every_entry items w w' :
  retry_queue w = Some (JArr items) -> items <> [] ->
  recall.main E w = (Ok tt, w') ->
  exists st,
    last (events w') = Some (EvNotify (recall.summary (Z.of_nat (length items)) st))
    /\ retry_queue w' = Some (JArr (recall.still_failed st))
    /\ recall.success_count st + Z.of_nat (length (recall.still_failed st))
       + Z.of_nat (length (List.filter passed_over items))
       = Z.of_nat (length items).
Proof.
  intros Hqueue Hitems Hrun.
  apply main_drains with (items := items) in Hrun as (st & w1 & Hdrain & Hsaved & Hev);
    [|done|done].
  apply drain_accounts in Hdrain as (new & _ & Hsum & _).
  exists st. split_and!; [|done|].
  - rewrite Hev. by rewrite last_app.
  - cbn in Hsum. lia.
Qed.

(** X8: in a run that returns, the number of entries reported as resolved
    with findings is the number of store writes and of log writes that the
    run made, and is at most the number of entries counted as OK. *)
Theorem main_findings_are_records items w w' :
  retry_queue w = Some (JArr items) -> items <> [] ->
  recall.main E w = (Ok tt, w') ->
  exists st new,
    last (events w') = Some (EvNotify (recall.summary (Z.of_nat (length items)) st))
    /\ events w' = events w ++ new
    /\ recall.findings_count st = Z.of_nat (count is_store new)
    /\ count is_log new = count is_store new
    /\ recall.findings_count st <= recall.success_count st.
Proof.
  intros Hqueue Hitems Hrun.
  apply main_drains with (items := items) in Hrun as (st & w1 & Hdrain & Hsaved & Hev);
    [|done|done].
  apply drain_accounts in Hdrain as (new & Hev1 & _ & Hfind & Hlog & Hle).
  cbn in Hfind, Hle, Hev1.
  exists st, (new ++ [EvSaveQueue (recall.still_failed st) Written;
                       EvNotify (recall.summary (Z.of_nat (length items)) st)]).
  split_and!.
  - rewrite Hev. by rewrite last_app.
  - by rewrite Hev, Hev1, <- app_assoc.
  - rewrite count_app. cbn. lia.
  - rewrite !count_app. cbn. lia.
  - lia.
Qed.

(** X9: the drain never writes the queue file; a run of [recall.py] that
    raises leaves the file as it was, unless the final write itself failed
    after the file was emptied. Entries that such a run had resolved are
    still queued. *)
Theorem main_raise_keeps_queue :
  (forall items st w, retry_queue (snd (recall.drain E items st w)) = retry_queue w)
  /\ (forall w x w',
        recall.main E w = (Raise x, w') ->
        retry_queue w' = retry_queue w
        \/ (retry_queue w' = None
            /\ exists queue, last (events w') = Some (EvSaveQueue queue Truncated))).
Proof.
  split.
  - intros items st w. destruct (recall.drain E items st w) as [r w'] eqn:Hrun.
    by apply keeps_queue_drain in Hrun.
  - intros w x w'. unfold recall.main. unfold bind at 1. unfold recall.load_retry_queue at 1.
    destruct (negb (py.truthy _)); [done|]. intros Hrun.
    apply bind_inv in Hrun as [(x' & [= _ <-] & _)|(total & w0 & [= _ <-] & Hrun)]; [by left|].
    apply bind_inv in Hrun as [(x' & [=] & _)|([] & w1 & [= <-] & Hrun)].
    apply bind_inv in Hrun as [(x' & [= _ <-] & _)|(items & w0 & [= _ <-] & Hrun)]; [by left|].
    apply bind_inv in Hrun as [(x' & Hdrain & _)|(st & w1 & Hdrain & Hrun)].
    { apply keeps_queue_drain in Hdrain. by left. }
    apply keeps_queue_drain in Hdrain. cbn in Hdrain.
    apply bind_inv in Hrun as [(x' & Hsave & _)|([] & w2 & _ & Hrun)].
    + unfold recall.save_retry_queue in Hsave.
      destruct (queue_write E (tick w1)); [done| |]; injection Hsave as _ <-.
      * by left.
      * right. split; [done|]. eexists. cbn. by rewrite last_snoc.
    + apply bind_inv in Hrun as [(x' & [=] & _)|([] & w3 & _ & [=])].
Qed.

End RecallProperties.
(** * Further properties of the store *)

Section StoreProperties.
Import sqlite db.

Lemma sum_of_perm column rows rows' :
  rows ≡ₚ rows' -> sum_of column rows = sum_of column rows'.
Proof.
  unfold sum_of. induction 1 as [|kv l l' _ IH|kv kv' l|l l' l'' _ IH _ IH']; cbn; lia.
Qed.

(** [SUM(column)] after an upsert. *)
Lemma sum_of_insert column (m : gmap Z stats_row) day row :
  column zero_stats = 0 ->
  sum_of column (map_to_list (<[day := row]> m))
  = sum_of column (map_to_list m) - column (from_option id zero_stats (m !! day)) + column row.
Proof.
  intros Hzero. destruct (m !! day) as [old|] eqn:Hday; cbn [from_option id].
  - rewrite <- insert_delete_eq.
    rewrite (sum_of_perm _ _ _ (map_to_list_insert (delete day m) day row
                                  (lookup_delete_eq m day))).
    rewrite <- (sum_of_perm _ _ _ (map_to_list_delete m day old Hday)).
    unfold sum_of, date. cbn [map foldr fst snd]. lia.
  - rewrite (sum_of_perm _ _ _ (map_to_list_insert m day row Hday)).
    unfold sum_of, date. cbn [map foldr fst snd]. rewrite Hzero. lia.
Qed.

Lemma categories_of_in findings : forall cats,
  spec.categories_of findings = Some cats -> Forall (fun c => c ∈ spec.categories) cats.
Proof.
  induction findings as [|f rest IH]; intros cats; cbn [spec.categories_of].
  - intros [= <-]. constructor.
  - destruct (spec.category_of f) as [c|] eqn:Hc; [|done].
    destruct (spec.categories_of rest) as [cs|]; [|done].
    intros [= <-]. constructor; [|by apply IH].
    unfold spec.category_of in Hc. destruct f as [| | | | | |items]; try done.
    destruct (from_option id _ _) as [| | | |s| |]; try done.
    injection Hc as <-. apply normalize_in_categories.
Qed.

Lemma findings_of_app category d d' rows :
  errors d' = errors d ++ rows ->
  findings_of category d' = findings_of category d + spec.grouped category (map e_category rows).
Proof.
  intros He. unfold findings_of, spec.grouped.
  rewrite He, List.filter_app, length_app, <- filter_category_length. lia.
Qed.

(** A call keeps the ids in sequence. *)
Lemma perform_well_keyed c d : well_keyed d -> well_keyed (snd (spec.perform c d)).
Proof.
  intros (Hids & Hseq & Hrefs). unfold spec.perform.
  destruct (save_correction _ _ _ _ _ _ _ _ d) as [[new_id|e] d'] eqn:Hrun; cbn [snd].
  2:{ apply save_correction_raise in Hrun as ->. done. }
  apply save_correction_ok in Hrun
    as (findings & cats & crow & rows & _ & _ & Hid & Hc & Hcid & _ & He & _ & Hrows & _ & Hseq').
  unfold well_keyed. rewrite Hc, He, length_app, map_app, Hids. cbn [length map].
  replace (length (corrections d) + 1)%nat with (S (length (corrections d))) by lia.
  split_and!.
  - rewrite seqZ_S. f_equal. rewrite Hcid, Hid, Hseq. f_equal. lia.
  - rewrite Hseq', Hid, Hseq. lia.
  - apply Forall_app. split.
    + eapply Forall_impl; [exact Hrefs|]. cbn. intros e He'. lia.
    + eapply Forall_impl; [exact Hrows|]. cbn. intros e ->. rewrite Hid, Hseq. lia.
Qed.

Lemma history_well_keyed calls : well_keyed (spec.history calls).
Proof.
  unfold spec.history.
  assert (well_keyed sqlite.empty) as Hempty by (split_and!; [done|done|constructor]).
  revert Hempty. generalize sqlite.empty.
  induction calls as [|c calls IH]; intros d Hd; cbn [fold_left]; [done|].
  apply IH. by apply perform_well_keyed.
Qed.

(** A call keeps the tally. *)
Lemma perform_tallied c d : tallied d -> tallied (snd (spec.perform c d)).
Proof.
  intros (Htotal & Hsp & Hgr & Hst & Hvo & Hcats). unfold spec.perform.
  destruct (save_correction _ _ _ _ _ _ _ _ d) as [[new_id|e] d'] eqn:Hrun; cbn [snd].
  2:{ apply save_correction_raise in Hrun as ->. by split_and!. }
  apply save_correction_ok in Hrun
    as (findings & cats & crow & rows & _ & Hfindings & _ & Hc & _ & _ & He & Hmap & _ & Hd & _).
  unfold tallied. cbv zeta.
  rewrite Hd, !sum_of_insert by done.
  rewrite !(findings_of_app _ d d' rows He), Hmap, Hc, length_app.
  unfold spec.incremented.
  cbn [total_corrections spelling_count grammar_count style_count vocabulary_count length].
  unfold date in *. split_and!; try lia.
  rewrite He. apply Forall_app. split; [done|].
  apply categories_of_in in Hfindings. rewrite <- Hmap in Hfindings.
  by apply Forall_map in Hfindings.
Qed.

Lemma history_tallied calls : tallied (spec.history calls).
Proof.
  unfold spec.history.
  assert (tallied sqlite.empty) as Hempty.
  { unfold tallied. cbn. rewrite map_to_list_empty. by split_and!. }
  revert Hempty. generalize sqlite.empty.
  induction calls as [|c calls IH]; intros d Hd; cbn [fold_left]; [done|].
  apply IH. by apply perform_tallied.
Qed.

(** A DailyCounter row exists only for a day with a Correction. *)
Lemma perform_positive c d :
  map_Forall (fun _ row => 1 <= total_corrections row) (daily_stats d) ->
  map_Forall (fun _ row => 1 <= total_corrections row) (daily_stats (snd (spec.perform c d))).
Proof.
  intros Hrows. unfold spec.perform.
  destruct (save_correction _ _ _ _ _ _ _ _ d) as [[new_id|e] d'] eqn:Hrun; cbn [snd].
  2:{ apply save_correction_raise in Hrun as ->. done. }
  apply save_correction_ok in Hrun
    as (findings & cats & crow & rows & _ & _ & _ & _ & _ & _ & _ & _ & _ & Hd & _).
  rewrite Hd. apply map_Forall_insert_2; [|done].
  unfold spec.incremented. cbn [total_corrections].
  destruct (daily_stats d !! spec.call_today c) as [row|] eqn:Hday; cbn [from_option id].
  - apply Hrows in Hday. lia.
  - cbn. lia.
Qed.

Lemma history_positive calls :
  map_Forall (fun _ row => 1 <= total_corrections row) (daily_stats (spec.history calls)).
Proof.
  unfold spec.history.
  assert (map_Forall (fun _ row => 1 <= total_corrections row) (daily_stats sqlite.empty))
    as Hempty by apply map_Forall_empty.
  revert Hempty. generalize sqlite.empty.
  induction calls as [|c calls IH]; intros d Hd; cbn [fold_left]; [done|].
  apply IH. by apply perform_positive.
Qed.

Lemma sum_of_at_least column (rows : list (date * stats_row)) :
  Forall (fun kv => 1 <= column (snd kv)) rows -> Z.of_nat (length rows) <= sum_of column rows.
Proof. unfold sum_of. induction 1 as [|kv rows Hkv _ IH]; cbn [length map foldr]; lia. Qed.

(** The rows of the four categories are all the rows. *)
Lemma findings_of_all d :
  Forall (fun e => e_category e ∈ spec.categories) (errors d) ->
  findings_of (str "spelling") d + findings_of (str "grammar") d
  + findings_of (str "style") d + findings_of (str "vocabulary") d
  = Z.of_nat (length (errors d)).
Proof.
  unfold findings_of. induction 1 as [|e rows He _ IH]; cbn [List.filter length]; [done|].
  unfold spec.categories in He. rewrite !elem_of_cons, elem_of_nil in He.
  destruct He as [Heq|[Heq|[Heq|[Heq|[]]]]]; rewrite Heq;
    repeat match goal with
           | |- context [text_eqb ?a ?b] =>
               let v := eval vm_compute in (text_eqb a b) in change (text_eqb a b) with v
           end;
    cbn [length]; lia.
Qed.

(** X10: after any sequence of calls of [save_correction], failed ones
    included, the ids of the stored Corrections are 1, 2, ... in the order
    of insertion, so they are distinct; every stored ErrorFinding belongs to
    a stored Correction; and the id that a further call returns is the
    number of Corrections then stored. *)
Theorem history_ids_in_sequence (calls : list spec.call) :
  let d := spec.history calls in
  map c_id (corrections d) = seqZ 1 (Z.of_nat (length (corrections d)))
  /\ NoDup (map c_id (corrections d))
  /\ Forall (fun e => exists c, c ∈ corrections d /\ c_id c = e_correction_id e) (errors d)
  /\ forall c,
       match spec.perform c d with
       | (Ok new_id, d') => new_id = Z.of_nat (length (corrections d'))
       | (Raise _, d') => d' = d
       end.
Proof.
  intros d. destruct (history_well_keyed calls) as (Hids & Hseq & Hrefs). fold d in Hids, Hseq, Hrefs.
  split_and!.
  - done.
  - rewrite Hids. apply NoDup_seqZ.
  - eapply Forall_impl; [exact Hrefs|]. cbn. intros e He.
    assert (e_correction_id e ∈ map c_id (corrections d)) as Hin
      by (rewrite Hids; apply elem_of_seqZ; lia).
    apply list_elem_of_In, in_map_iff in Hin as (c & Hc & Hin).
    exists c. split; [by apply list_elem_of_In|done].
  - intros c. unfold spec.perform.
    destruct (save_correction _ _ _ _ _ _ _ _ d) as [[new_id|e] d'] eqn:Hrun.
    + apply save_correction_ok in Hrun
        as (findings & cats & crow & rows & _ & _ & Hid & Hc & _).
      rewrite Hc, length_app, Hid, Hseq. cbn [length]. lia.
    + by apply save_correction_raise in Hrun.
Qed.

(** X11: after any sequence of calls of [save_correction], failed ones
    included, [get_all_time_stats] reports the number of stored Corrections
    and, for each category, the number of stored ErrorFindings of that
    category; the four category counts add up to the number of stored
    ErrorFindings, and the number of tracked days is at most the number of
    Corrections. *)
Theorem all_time_stats_count_rows (calls : list spec.call) :
  let d := spec.history calls in
  let stats := get_all_time_stats d in
  total_corrections (all_stats stats) = Z.of_nat (length (corrections d))
  /\ spelling_count (all_stats stats) = findings_of (str "spelling") d
  /\ grammar_count (all_stats stats) = findings_of (str "grammar") d
  /\ style_count (all_stats stats) = findings_of (str "style") d
  /\ vocabulary_count (all_stats stats) = findings_of (str "vocabulary") d
  /\ spelling_count (all_stats stats) + grammar_count (all_stats stats)
     + style_count (all_stats stats) + vocabulary_count (all_stats stats)
     = Z.of_nat (length (errors d))
  /\ total_days stats <= total_corrections (all_stats stats).
Proof.
  intros d stats. destruct (history_tallied calls) as (Htotal & Hsp & Hgr & Hst & Hvo & Hcats).
  fold d in Htotal, Hsp, Hgr, Hst, Hvo, Hcats. subst stats. unfold get_all_time_stats.
  cbn [all_stats total_days total_corrections spelling_count grammar_count style_count
         vocabulary_count].
  split_and!; try done.
  - rewrite Hsp, Hgr, Hst, Hvo. by apply findings_of_all.
  - unfold count_of. apply sum_of_at_least.
    apply Forall_forall. intros [day row] Hin. cbn [snd].
    apply elem_of_map_to_list in Hin. by apply (history_positive calls) in Hin.
Qed.

(** X12: the window of [get_weekly_stats] runs from a Monday to the
    following Sunday and holds the day that lies [weeks_back] weeks before
    today; the windows of [weeks_back] and [weeks_back + 1] are adjacent. *)
Theorem weekly_windows_tile today d :
  (forall weeks_back ws,
     get_weekly_stats today weeks_back d = Ok ws ->
     weekday (week_start ws) = 0 /\ weekday (week_end ws) = 6
     /\ week_end ws = week_start ws + 6
     /\ week_start ws <= today - 7 * weeks_back <= week_end ws)
  /\ (forall weeks_back ws ws',
        get_weekly_stats today weeks_back d = Ok ws ->
        get_weekly_stats today (weeks_back + 1) d = Ok ws' ->
        week_end ws' + 1 = week_start ws).
Proof.
  split.
  - intros weeks_back ws Hws.
    apply get_weekly_stats_window in Hws as (Hstart & Hmonday & Hend & _).
    split_and!; try done.
    + rewrite Hend. unfold weekday in *.
      rewrite (Zplus_mod (week_start ws + 6) 6 7), Hmonday. done.
    + rewrite Hstart. unfold weekday. pose proof (Z.mod_pos_bound (today + 6) 7). lia.
    + rewrite Hend, Hstart. unfold weekday. pose proof (Z.mod_pos_bound (today + 6) 7). lia.
  - intros weeks_back ws ws' Hws Hws'.
    apply get_weekly_stats_window in Hws as (Hstart & _).
    apply get_weekly_stats_window in Hws' as (Hstart' & _ & Hend' & _).
    lia.
Qed.

End StoreProperties.
(** ** Reading the Corrections of a day *)

Section DailyCorrections.
Import sqlite db.

Lemma ts_leb_total a b : ts_leb a b = false -> ts_leb b a = true.
Proof. unfold ts_leb. intros Hab. zcases. Qed.

Lemma ts_leb_trans a b c : ts_leb a b = true -> ts_leb b c = true -> ts_leb a c = true.
Proof. unfold ts_leb. intros Hab Hbc. zcases. Qed.

Lemma insert_desc_perm c sorted : insert_desc c sorted ≡ₚ c :: sorted.
Proof.
  induction sorted as [|c' rest IH]; cbn [insert_desc]; [done|].
  destruct (ts_leb _ _); [done|]. rewrite IH. apply Permutation_swap.
Qed.

Lemma order_by_timestamp_desc_perm rows : order_by_timestamp_desc rows ≡ₚ rows.
Proof.
  unfold order_by_timestamp_desc. induction rows as [|c rows IH]; cbn [foldr]; [done|].
  by rewrite insert_desc_perm, IH.
Qed.

Lemma insert_desc_sorted c sorted :
  StronglySorted not_before sorted -> StronglySorted not_before (insert_desc c sorted).
Proof.
  induction 1 as [|c' rest Hrest IH Hhead]; cbn [insert_desc].
  - repeat constructor.
  - destruct (ts_leb (c_timestamp c') (c_timestamp c)) eqn:Hle.
    + constructor; [by constructor|]. constructor; [done|].
      eapply Forall_impl; [exact Hhead|]. cbn. unfold not_before. intros x Hx.
      by apply (ts_leb_trans _ (c_timestamp c')).
    + constructor; [done|].
      apply ts_leb_total in Hle.
      rewrite (Forall_forall (not_before c')). intros x Hx.
      rewrite insert_desc_perm in Hx. apply elem_of_cons in Hx as [->|Hx]; [done|].
      by apply (proj1 (Forall_forall _ _) Hhead).
Qed.

Lemma order_by_timestamp_desc_sorted rows :
  StronglySorted not_before (order_by_timestamp_desc rows).
Proof.
  unfold order_by_timestamp_desc. induction rows as [|c rows IH]; cbn [foldr].
  - constructor.
  - by apply insert_desc_sorted.
Qed.

(** A row that is later than all the others comes first. *)
Lemma insert_desc_head c newest sorted :
  earlier (c_timestamp c) (c_timestamp newest) ->
  exists rest, insert_desc c (newest :: sorted) = newest :: rest.
Proof. unfold earlier. intros Hc. cbn [insert_desc]. rewrite Hc. by eexists. Qed.

Lemma order_by_timestamp_desc_newest rows newest :
  Forall (fun c => earlier (c_timestamp c) (c_timestamp newest)) rows ->
  exists rest, order_by_timestamp_desc (rows ++ [newest]) = newest :: rest.
Proof.
  unfold order_by_timestamp_desc. induction 1 as [|c rows Hc _ IH]; cbn [app foldr].
  - by exists [].
  - destruct IH as [rest ->]. by apply insert_desc_head.
Qed.

(** X13: [get_daily_corrections] returns exactly the stored Corrections
    of the day, the most recent first, each with the stored ErrorFindings
    that carry its id. *)
Theorem get_daily_corrections_recent_first today target_date d :
  let day := from_option id today target_date in
  let result := get_daily_corrections today target_date d in
  map dc_row result ≡ₚ spec.corrections_on d day
  /\ StronglySorted not_before (map dc_row result)
  /\ Forall (fun r => dc_errors r
                      = List.filter (fun e => e_correction_id e =? c_id (dc_row r)) (errors d))
       result.
Proof.
  intros day result. subst result. unfold get_daily_corrections. fold day.
  rewrite map_map. cbn [dc_row]. rewrite map_id.
  split_and!.
  - apply order_by_timestamp_desc_perm.
  - apply order_by_timestamp_desc_sorted.
  - apply Forall_forall. intros r Hin.
    apply list_elem_of_In, in_map_iff in Hin as (c & <- & _). done.
Qed.

(** X14: a Correction that [save_correction] has just stored, at a time
    later than every stored timestamp, is the first row that
    [get_daily_corrections] returns for its day, with its ErrorFindings in
    the order of the findings (the ids of the store being in sequence). *)
Theorem saved_correction_is_read_first
    fault now today original_text user_text errors better_expression summary d new_id d' :
  well_keyed d ->
  Forall (fun c => earlier (c_timestamp c) now) (corrections d) ->
  save_correction fault now today original_text user_text errors better_expression summary d
  = (Ok new_id, d') ->
  exists crow rows findings,
    head (get_daily_corrections today (Some (ts_date now)) d')
    = Some {| dc_row := crow; dc_errors := rows |}
    /\ c_id crow = new_id /\ c_timestamp crow = now
    /\ sqlite.errors d' = sqlite.errors d ++ rows
    /\ py.iter errors = Ok findings
    /\ spec.categories_of findings = Some (map e_category rows).
Proof.
  intros (Hids & Hseq & Hrefs) Hearlier Hrun.
  apply save_correction_ok in Hrun
    as (findings & cats & crow & rows & Hiter & Hcats & Hid & Hc & Hcid & Hts & He & Hmap
        & Hrows & _ & _).
  exists crow, rows, findings. split_and!; try done.
  2:{ by rewrite Hmap. }
  unfold get_daily_corrections. cbn [from_option id].
  rewrite Hc, List.filter_app. cbn [List.filter]. rewrite Hts, Z.eqb_refl.
  destruct (order_by_timestamp_desc_newest
              (List.filter (fun c => ts_date (c_timestamp c) =? ts_date now) (corrections d))
              crow) as [rest ->].
  { apply Forall_forall. intros c Hin. apply list_elem_of_In, filter_In in Hin as [Hin _].
    rewrite Hts. apply list_elem_of_In in Hin.
    by apply (proj1 (Forall_forall _ _) Hearlier). }
  cbn [map head]. do 2 f_equal.
  rewrite He, List.filter_app.
  rewrite (filter_none _ (sqlite.errors d)), app_nil_l.
  - rewrite (filter_same _ (fun _ => true)); [by rewrite filter_true|].
    eapply Forall_impl; [exact Hrows|]. cbn. intros e ->. rewrite Hcid. apply Z.eqb_refl.
  - eapply Forall_impl; [exact Hrefs|]. cbn. intros e Hrange.
    apply Z.eqb_neq. rewrite Hcid, Hid, Hseq. lia.
Qed.

End DailyCorrections.
(** * Further properties of the log *)

Section LogProperties.


End LogProperties.
(** * Properties of the charts *)

Section Charts.
Import charts.

Lemma lines_from_one_line cur line rest :
  one_line line ->
  lines_from cur (line ++ 10 :: rest) = (rev cur ++ line) :: lines_from [] rest.
Proof.
  intros Hline. revert cur. induction Hline as [|c line Hc _ IH]; intros cur; cbn [app lines_from].
  - by rewrite app_nil_r.
  - destruct (Z.eqb_spec c 10); [done|]. rewrite IH. cbn [rev]. by rewrite <- app_assoc.
Qed.

Lemma lines_from_last cur line : one_line line -> lines_from cur line = [rev cur ++ line].
Proof.
  intros Hline. revert cur. induction Hline as [|c line Hc _ IH]; intros cur; cbn [lines_from].
  - by rewrite app_nil_r.
  - destruct (Z.eqb_spec c 10); [done|]. rewrite IH. cbn [rev]. by rewrite <- app_assoc.
Qed.

(** Splitting what [join] put together. *)
Lemma lines_of_join lines :
  lines <> [] -> Forall one_line lines -> lines_of (join [10] lines) = lines.
Proof.
  intros Hne Hlines. unfold lines_of.
  induction Hlines as [|line rest Hline Hrest IH]; [done|]. clear Hne.
  destruct rest as [|line' rest]; cbn [join].
  - by rewrite lines_from_last.
  - cbn [app]. rewrite lines_from_one_line by done. cbn [rev app]. f_equal. by apply IH.
Qed.

Lemma length_times c n : 0 <= n -> Z.of_nat (length (times c n)) = n.
Proof. intros Hn. unfold times. rewrite repeat_length. lia. Qed.

Lemma one_line_times c n : c <> 10 -> one_line (times c n).
Proof. intros Hc. unfold times, one_line. apply Forall_forall. intros x Hx.
  apply list_elem_of_In, repeat_spec in Hx. by subst. Qed.

Lemma max_item_len_bound items :
  0 <= max_item_len items
  /\ Forall (fun item => Z.of_nat (length item) <= max_item_len items) items.
Proof.
  destruct items as [|item rest]; cbn [max_item_len]; [by split; [lia|constructor]|].
  assert (forall m,
            m <= fold_left (fun m item => if m <? Z.of_nat (length item)
                                          then Z.of_nat (length item) else m) rest m
            /\ Forall (fun item =>
                         Z.of_nat (length item)
                         <= fold_left (fun m item => if m <? Z.of_nat (length item)
                                                     then Z.of_nat (length item) else m)
                              rest m) rest) as Hfold.
  { induction rest as [|x rest IH]; intros m; cbn [fold_left]; [by split; [lia|constructor]|].
    destruct (IH (if m <? Z.of_nat (length x) then Z.of_nat (length x) else m)) as [Hm Hrest].
    split; [zcases|]. constructor; [zcases|done]. }
  destruct (Hfold (Z.of_nat (length item))) as [Hm Hrest].
  split; [lia|]. by constructor.
Qed.

(** The two paddings of [center]. *)
Lemma center_paddings s width :
  Z.of_nat (length s) <= width ->
  exists left right,
    center s width = times 32 left ++ s ++ times 32 right
    /\ left + right = width - Z.of_nat (length s)
    /\ 0 <= left /\ 0 <= right /\ -1 <= left - right <= 1.
Proof.
  intros Hlen. unfold center.
  destruct (Z.leb_spec (width - Z.of_nat (length s)) 0) as [Hmarg|Hmarg].
  - exists 0, 0. split; [by rewrite app_nil_r|lia].
  - set (marg := width - Z.of_nat (length s)) in *.
    set (odd := Z.land (Z.land marg width) 1).
    assert (0 <= odd <= 1 /\ (marg mod 2 = 0 -> odd = 0)) as [Hodd Heven].
    { assert (forall x, Z.land x 1 = x mod 2) as Hbit.
      { intros x. change 1 with (Z.ones 1). by rewrite Z.land_ones by lia. }
      subst odd. split.
      - rewrite Hbit. pose proof (Z.mod_pos_bound (Z.land marg width) 2). lia.
      - intros Hz. rewrite (Z.land_comm marg width), <- Z.land_assoc, Hbit, Hz.
        apply Z.land_0_r. }
    exists (marg / 2 + odd), (marg - (marg / 2 + odd)). split; [done|].
    pose proof (Z.div_mod marg 2). pose proof (Z.mod_pos_bound marg 2).
    destruct (Z.eq_dec (marg mod 2) 0) as [Hz|Hnz]; [rewrite (Heven Hz)|]; lia.
Qed.

Lemma one_line_app a b : one_line a -> one_line b -> one_line (a ++ b).
Proof. apply Forall_app_2. Qed.

Lemma one_line_border a n b : a <> 10 -> b <> 10 -> one_line ([a] ++ times 9472 n ++ [b]).
Proof.
  intros Ha Hb. apply one_line_app; [by repeat constructor|].
  apply one_line_app; [by apply one_line_times|by repeat constructor].
Qed.

Lemma one_line_framed body : one_line body -> one_line ([9474; 32] ++ body ++ [32; 9474]).
Proof.
  intros Hbody. apply one_line_app; [by repeat constructor|].
  apply one_line_app; [done|by repeat constructor].
Qed.

Lemma length_border a n b : 0 <= n -> Z.of_nat (length ([a] ++ times 9472 n ++ [b])) = n + 2.
Proof. intros Hn. rewrite !length_app, !Nat2Z.inj_add, length_times by done. cbn. lia. Qed.

Lemma length_framed body : Z.of_nat (length ([9474; 32] ++ body ++ [32; 9474]))
                           = Z.of_nat (length body) + 4.
Proof. rewrite !length_app, !Nat2Z.inj_add. cbn. lia. Qed.

(** X16: for a title and items without newlines, the text that
    [summary_box] returns has one line for each item and four more; all
    its lines have the same length, 6 more than the longest of the title
    and the items; the second line holds the title, centered up to one
    space, and each item line holds its item, left-aligned. *)
Theorem summary_box_is_rectangular title items :
  one_line title -> Forall one_line items ->
  let width := Z.max (Z.of_nat (length title)) (max_item_len items) + 4 in
  let lines := lines_of (summary_box title items) in
  length lines = (length items + 4)%nat
  /\ Forall (fun line => Z.of_nat (length line) = width + 2) lines
  /\ (exists left right,
        lines !! 1%nat
        = Some ([9474; 32] ++ (times 32 left ++ title ++ times 32 right) ++ [32; 9474])
        /\ 1 <= left /\ 1 <= right /\ -1 <= left - right <= 1)
  /\ (forall i item,
        items !! i = Some item ->
        exists pad,
          lines !! (3 + i)%nat = Some ([9474; 32] ++ (item ++ times 32 pad) ++ [32; 9474])
          /\ 2 <= pad).
Proof.
  intros Htitle Hitems width lines.
  destruct (max_item_len_bound items) as [Hmax Hlens].
  assert (Z.of_nat (length title) <= width - 4 /\ max_item_len items <= width - 4) as [Hw1 Hw2]
    by (subst width; lia).
  destruct (center_paddings title (width - 2)) as (left & right & Hcenter & Hsum & Hl & Hr & Hd);
    [lia|].
  assert (lines = summary_box_lines title items) as ->.
  { subst lines. unfold summary_box. apply lines_of_join; [done|].
    unfold summary_box_lines. fold width. rewrite Hcenter.
    apply Forall_app_2; [|apply Forall_app_2].
    - apply Forall_cons_2; [by apply one_line_border|].
      apply Forall_cons_2; [|apply Forall_cons_2; [by apply one_line_border|done]].
      apply one_line_framed. apply one_line_app; [by apply one_line_times|].
      apply one_line_app; [done|by apply one_line_times].
    - apply Forall_forall. intros line Hin.
      apply list_elem_of_In, in_map_iff in Hin as (item & <- & Hin).
      apply list_elem_of_In in Hin. pose proof (proj1 (Forall_forall _ _) Hitems item Hin).
      apply one_line_framed, one_line_app; [done|by apply one_line_times].
    - apply Forall_cons_2; [by apply one_line_border|done]. }
  unfold summary_box_lines. fold width. rewrite Hcenter.
  split_and!.
  - rewrite !length_app, length_map. cbn [length]. lia.
  - apply Forall_app_2; [|apply Forall_app_2].
    + apply Forall_cons_2; [apply length_border; lia|].
      apply Forall_cons_2; [|apply Forall_cons_2; [apply length_border; lia|done]].
      rewrite length_framed, !length_app, !Nat2Z.inj_add, !length_times by lia. lia.
    + apply Forall_forall. intros line Hin.
      apply list_elem_of_In, in_map_iff in Hin as (item & <- & Hin).
      apply list_elem_of_In in Hin. pose proof (proj1 (Forall_forall _ _) Hlens item Hin) as Hitem.
      cbn beta in Hitem. unfold ljust. rewrite length_framed, !length_app, !Nat2Z.inj_add, !length_times by lia.
      lia.
    + apply Forall_cons_2; [apply length_border; lia|done].
  - exists left, right. split; [done|lia].
  - intros i item Hitem. exists (width - 2 - Z.of_nat (length item)). split.
    + rewrite lookup_app_r by (cbn [length]; lia).
      match goal with
      | |- context [Nat.sub (3 + i) ?n] =>
          replace (Nat.sub (3 + i) n) with i by (cbn [length]; lia)
      end.
      change (map ?f items) with (f <$> items).
      rewrite lookup_app_l by (rewrite length_fmap; by apply lookup_lt_Some in Hitem).
      rewrite list_lookup_fmap. unfold text in *. by rewrite Hitem.
    + apply list_elem_of_lookup_2 in Hitem.
      pose proof (proj1 (Forall_forall _ _) Hlens item Hitem) as Hlen.
      cbn beta in Hlen. lia.
Qed.

End Charts.
(** * Properties of the environment file *)

Section EnvFile.
Import claude_api.

Lemma setdefault_grows key value env env' :
  setdefault key value env = Some env' ->
  env ⊆ env' /\ is_Some (env' !! key).
Proof.
  unfold setdefault. destruct (env !! key) as [old|] eqn:Hkey.
  - intros [= <-]. split; [done|by rewrite Hkey].
  - destruct (_ || _); [done|]. intros [= <-]. split.
    + by apply insert_subseteq.
    + exists value. apply lookup_insert_eq.
Qed.

Lemma setdefault_set key value env :
  is_Some (env !! key) -> setdefault key value env = Some env.
Proof. intros [old Hkey]. unfold setdefault. by rewrite Hkey. Qed.

Lemma load_line_grows line env env' : load_line line env = Some env' -> env ⊆ env'.
Proof.
  unfold load_line. destruct (strip line) as [|c rest]; [by intros [= <-]|].
  destruct (startswith _ _); [by intros [= <-]|].
  destruct (partition_eq _) as [[key value]|]; [|by intros [= <-]].
  intros Hset. by apply setdefault_grows in Hset as [Hsub _].
Qed.

(** A line that was loaded is without effect on a larger environment. *)
Lemma load_line_again line env env' env'' :
  load_line line env = Some env' -> env' ⊆ env'' -> load_line line env'' = Some env''.
Proof.
  unfold load_line. destruct (strip line) as [|c rest]; [done|].
  destruct (startswith _ _); [done|].
  destruct (partition_eq _) as [[key value]|]; [|done].
  intros Hset Hsub. apply setdefault_grows in Hset as [_ [v Hkey]].
  apply setdefault_set. exists v. by eapply lookup_weaken.
Qed.

Lemma load_lines_grows lines : forall env, env ⊆ environment_of (load_lines lines env).
Proof.
  induction lines as [|line rest IH]; intros env; cbn [load_lines]; [done|].
  destruct (load_line line env) as [env'|] eqn:Hline; [|done].
  apply load_line_grows in Hline. etrans; [exact Hline|apply IH].
Qed.

Lemma load_lines_again lines : forall env env' env'',
  load_lines lines env = EnvLoaded env' -> env' ⊆ env'' ->
  load_lines lines env'' = EnvLoaded env''.
Proof.
  induction lines as [|line rest IH]; intros env env' env''; cbn [load_lines]; [done|].
  destruct (load_line line env) as [env1|] eqn:Hline; [|done].
  intros Hrest Hsub.
  assert (env1 ⊆ env') as Hsub1.
  { pose proof (load_lines_grows rest env1) as Hgrow. by rewrite Hrest in Hgrow. }
  rewrite (load_line_again line env env1 env'' Hline) by (by etrans).
  by apply (IH env1 env').
Qed.

(** X17: [load_env_file] never changes a variable that the environment
    holds: every variable keeps its value, whether the file is loaded to
    its end or a line raises. *)
Theorem load_env_file_keeps_variables file env :
  env ⊆ environment_of (load_env_file file env).
Proof. destruct file as [lines|]; [apply load_lines_grows|done]. Qed.

(** X18: loading the file a second time changes nothing: after a load
    that reached the end of the file, a further load of the same file
    ends with the same environment. *)
Theorem load_env_file_twice file env env' :
  load_env_file file env = EnvLoaded env' ->
  load_env_file file env' = EnvLoaded env'.
Proof.
  destruct file as [lines|]; cbn [load_env_file]; [|done].
  intros Hload. by apply (load_lines_again lines env env').
Qed.

End EnvFile.
(** * Text that is padded with white space *)

Section Stripping.

Lemma lstrip_spaces pre t : spaces pre -> lstrip (pre ++ t) = lstrip t.
Proof.
  induction 1 as [|c pre Hc _ IH]; [done|]. cbn [app lstrip]. by rewrite Hc.
Qed.

Lemma lstrip_app t c r : isspace c = false -> lstrip (t ++ c :: r) = lstrip t ++ c :: r.
Proof.
  intros Hc. induction t as [|x t IH]; cbn [app lstrip]; [by rewrite Hc|].
  by destruct (isspace x).
Qed.

Lemma lstrip_cases t :
  (spaces t /\ lstrip t = [])
  \/ exists pre c r, t = pre ++ c :: r /\ spaces pre /\ isspace c = false /\ lstrip t = c :: r.
Proof.
  induction t as [|x t IH]; [left; by split; [constructor|]|].
  cbn [lstrip]. destruct (isspace x) eqn:Hx.
  - destruct IH as [[Hs Hl]|(pre & c & r & -> & Hs & Hc & Hl)].
    + left. split; [by constructor|done].
    + right. exists (x :: pre), c, r. split_and!; [done|by constructor|done|done].
  - right. exists [], x, t. split_and!; [done|constructor|done|done].
Qed.

Lemma spaces_rev t : spaces t -> spaces (rev t).
Proof. apply Forall_rev. Qed.

Lemma lstrip_all t : spaces t -> lstrip t = [].
Proof. induction 1 as [|c t Hc _ IH]; [done|]. cbn [lstrip]. by rewrite Hc. Qed.

(** [strip] on a text that holds a character which is no white space. *)
Lemma strip_app pre c r :
  spaces pre -> isspace c = false ->
  strip (pre ++ c :: r) = c :: rev (lstrip (rev r)).
Proof.
  intros Hpre Hc. unfold strip. rewrite lstrip_spaces by done. cbn [lstrip]. rewrite Hc.
  cbn [rev]. rewrite lstrip_app by done. by rewrite rev_app_distr.
Qed.

Lemma strip_pad pre t post : spaces pre -> spaces post -> strip (pre ++ t ++ post) = strip t.
Proof.
  intros Hpre Hpost. destruct (lstrip_cases t) as [[Hs Hl]|(sp & c & r & -> & Hs & Hc & Hl)].
  - unfold strip. rewrite lstrip_spaces by done. rewrite lstrip_spaces by done.
    by rewrite (lstrip_all post), (lstrip_all t).
  - rewrite <- app_assoc. cbn [app]. rewrite (app_assoc pre sp).
    rewrite !strip_app by (done || by apply Forall_app).
    by rewrite rev_app_distr, lstrip_spaces by by apply spaces_rev.
Qed.

Lemma strip_lstrip t : strip (lstrip t) = strip t.
Proof.
  destruct (lstrip_cases t) as [[Hs Hl]|(sp & c & r & -> & Hs & Hc & Hl)].
  - unfold strip. by rewrite Hl.
  - rewrite Hl, strip_app by done. apply (strip_app [] c r); [constructor|done].
Qed.


Lemma lstrip_lstrip t : lstrip (lstrip t) = lstrip t.
Proof.
  induction t as [|c t IH]; [done|]. cbn [lstrip].
  destruct (isspace c) eqn:Hc; [done|]. cbn [lstrip]. by rewrite Hc.
Qed.

(** [strip] after [rstrip]. *)
Lemma strip_rstrip t : strip (rev (lstrip (rev t))) = strip t.
Proof.
  destruct (lstrip_cases t) as [[Hs Hl]|(sp & c & r & -> & Hs & Hc & Hl)].
  - rewrite (lstrip_all (rev t)) by by apply spaces_rev. unfold strip. by rewrite Hl.
  - rewrite (strip_app sp c r) by done.
    rewrite rev_app_distr. cbn [rev]. rewrite <- app_assoc. cbn [app].
    rewrite lstrip_app by done. rewrite rev_app_distr. cbn [rev]. rewrite rev_involutive.
    rewrite <- app_assoc. cbn [app]. rewrite strip_app by done.
    by rewrite rev_involutive, lstrip_lstrip.
Qed.

Lemma partition_eq_app key value :
  61 ∉ key -> claude_api.partition_eq (key ++ 61 :: value) = Some (key, value).
Proof.
  induction key as [|c key IH]; cbn [app claude_api.partition_eq]; [done|].
  rewrite not_elem_of_cons. intros [Hc Hkey].
  destruct (Z.eqb_spec c 61); [congruence|]. by rewrite IH.
Qed.

End Stripping.

Section EnvLines.
Import claude_api.

(** X19: a line [key=value] whose key holds no ['='] and does not begin
    with ['#'] is the assignment [setdefault(key.strip(), value.strip())]:
    the line is cut at its first ['='], the value keeps every further
    ['='], and the white space around the key and around the value is
    dropped. *)
Theorem load_line_assignment key value env :
  61 ∉ key -> startswith (str "#") (strip key) = false ->
  load_line (key ++ 61 :: value) env = setdefault (strip key) (strip value) env.
Proof.
  intros Hkey Hcomment. unfold load_line.
  destruct (lstrip_cases key) as [[Hs Hl]|(sp & c & r & -> & Hs & Hc & Hl)].
  - rewrite strip_app by done.
    assert (strip key = []) as -> by (unfold strip; by rewrite Hl).
    change (startswith (str "#") (61 :: rev (lstrip (rev value)))) with false.
    cbn [partition_eq]. change (61 =? 61) with true. cbn iota.
    change (strip []) with (@nil Z). by rewrite strip_rstrip.
  - rewrite strip_app in Hcomment by done.
    rewrite <- app_assoc. cbn [app]. rewrite strip_app by done.
    rewrite rev_app_distr. cbn [rev]. rewrite <- app_assoc. cbn [app].
    rewrite lstrip_app by done. rewrite rev_app_distr. cbn [rev]. rewrite rev_involutive.
    rewrite <- app_assoc. cbn [app].
    assert (startswith (str "#") (c :: r ++ 61 :: rev (lstrip (rev value))) = false) as ->.
    { revert Hcomment. unfold startswith. by cbn [length str firstn]. }
    assert (61 ∉ c :: r) as Hpart.
    { intros Hin. apply Hkey. rewrite elem_of_app. by right. }
    apply (partition_eq_app _ (rev (lstrip (rev value)))) in Hpart.
    cbn [app] in Hpart. rewrite Hpart, strip_rstrip.
    pose proof (strip_app [] c r ltac:(constructor) Hc) as Hstrip. cbn [app] in Hstrip.
    by rewrite Hstrip, (strip_app sp c r).
Qed.

End EnvLines.

Section Padding.
Import language_detect.
Context `{UnicodeData}.

Lemma space_not_counted c : isspace c = true -> is_cjk c = false /\ is_latin c = false.
Proof.
  intros Hc. split.
  - unfold isspace in Hc. unfold is_cjk. lia.
  - destruct (is_latin c) eqn:Hl; [|done]. apply latin_not_space in Hl. congruence.
Qed.

Lemma space_no_letter c : isspace c = true -> ascii_letter c = false.
Proof.
  intros Hc. destruct (ascii_letter c) eqn:Hl; [|done].
  apply ascii_letter_latin, latin_not_space in Hl. congruence.
Qed.

Lemma cleaned_spaces t : spaces t -> cleaned t = [].
Proof.
  induction 1 as [|c t Hc _ IH]; [done|]. unfold cleaned in *. cbn [List.filter].
  unfold stripped_class. by rewrite Hc.
Qed.

Lemma cleaned_pad pre t post :
  spaces pre -> spaces post -> cleaned (pre ++ t ++ post) = cleaned t.
Proof.
  intros Hpre Hpost. unfold cleaned. rewrite !List.filter_app.
  fold (cleaned pre) (cleaned post). rewrite !cleaned_spaces by done. by rewrite app_nil_r.
Qed.

Lemma count_chars_spaces pre t : spaces pre ->
  forall cn en, count_chars (pre ++ t) cn en = count_chars t cn en.
Proof.
  induction 1 as [|c pre Hc _ IH]; intros cn en; [done|]. cbn [app count_chars].
  destruct (space_not_counted c Hc) as [-> ->]. apply IH.
Qed.

Lemma count_chars_app_spaces post : spaces post ->
  forall t cn en, count_chars (t ++ post) cn en = count_chars t cn en.
Proof.
  intros Hpost. induction t as [|c t IH]; intros cn en; cbn [app count_chars].
  - by rewrite <- (app_nil_r post), count_chars_spaces.
  - by rewrite !IH.
Qed.

Lemma contains_english_spaces t : spaces t -> contains_english t = false.
Proof.
  induction 1 as [|c t Hc _ IH]; [done|]. cbn [contains_english].
  destruct t; [done|]. by rewrite IH, (space_no_letter c Hc).
Qed.

Lemma contains_english_cons c t :
  isspace c = true -> contains_english (c :: t) = contains_english t.
Proof.
  intros Hc. cbn [contains_english]. rewrite (space_no_letter c Hc). by destruct t.
Qed.

Lemma contains_english_pad pre t post :
  spaces pre -> spaces post -> contains_english (pre ++ t ++ post) = contains_english t.
Proof.
  intros Hpre Hpost. induction Hpre as [|c pre Hc _ IH].
  - cbn [app]. induction t as [|a t IH]; [by apply contains_english_spaces|].
    cbn [app contains_english]. destruct t as [|b t].
    + cbn [app]. destruct Hpost as [|p post Hp Hpost]; [done|].
      rewrite (space_no_letter p Hp), andb_false_r. cbn [orb].
      by apply (contains_english_spaces (p :: post)); constructor.
    + cbn [app] in *. by rewrite IH.
  - cbn [app]. by rewrite contains_english_cons.
Qed.

Lemma split_from_spaces post : spaces post ->
  forall cur, split_from cur post = match cur with [] => [] | _ => [rev cur] end.
Proof.
  induction 1 as [|c post Hc _ IH]; intros cur; [done|]. cbn [split_from]. rewrite Hc.
  rewrite (IH []). by destruct cur.
Qed.

Lemma split_pad pre t post : spaces pre -> spaces post -> split (pre ++ t ++ post) = split t.
Proof.
  intros Hpre Hpost. unfold split. induction Hpre as [|c pre Hc _ IH].
  - cbn [app]. generalize (@nil Z) as cur.
    induction t as [|a t IH]; intros cur; cbn [app split_from].
    + by apply split_from_spaces.
    + destruct (isspace a); [|apply IH]. by rewrite !(IH []).
  - cbn [app split_from]. by rewrite Hc.
Qed.

(** X20: white space around a message never changes the decision of the
    admission filter. *)
Theorem should_check_grammar_padding pre t post :
  spaces pre -> spaces post ->
  should_check_grammar (pre ++ t ++ post) = should_check_grammar t.
Proof.
  intros Hpre Hpost.
  assert (forall u, should_check_grammar u =
            match strip u with
            | [] => false
            | _ => if startswith (str "/") (strip u) then false
                   else if is_pure_chinese u then false
                   else if is_primarily_chinese u then false
                   else if negb (contains_english u) then false
                   else if Z.of_nat (length (split u)) <? 3 then false else true
            end) as Hunfold by (by intros [|c u]).
  rewrite !Hunfold. rewrite strip_pad, contains_english_pad, split_pad by done.
  unfold is_pure_chinese, is_primarily_chinese.
  rewrite cleaned_pad by done.
  by rewrite count_chars_spaces, count_chars_app_spaces by done.
Qed.

End Padding.
(** * The week as its seven days *)

Section WeekDays.
Import sqlite db.

Lemma sum_filter_window lo hi g (rows : list (date * stats_row)) :
  foldr Z.add 0 (map (fun kv => g (snd kv))
                   (List.filter (fun kv => (lo <=? fst kv) && (fst kv <=? hi)) rows))
  = foldr Z.add 0 (map (in_window lo hi g) rows).
Proof.
  induction rows as [|kv rows IH]; [done|]. cbn [List.filter map foldr].
  unfold in_window at 1. destruct (_ && _); cbn [map foldr]; by rewrite IH.
Qed.

Lemma sum_window_perm lo hi g (rows rows' : list (date * stats_row)) :
  rows ≡ₚ rows' ->
  foldr Z.add 0 (map (in_window lo hi g) rows) = foldr Z.add 0 (map (in_window lo hi g) rows').
Proof. induction 1 as [|kv l l' _ IH|kv kv' l|l l' l'' _ IH _ IH']; cbn; lia. Qed.

(** A sum over distinct days after the value of one day has changed. *)
Lemma sum_point (f f' : Z -> Z) k c (days : list Z) :
  NoDup days -> (forall day, day <> k -> f' day = f day) -> f' k = f k + c ->
  foldr Z.add 0 (map f' days)
  = foldr Z.add 0 (map f days) + (if bool_decide (k ∈ days) then c else 0).
Proof.
  intros Hnodup Hother Hk. induction Hnodup as [|day days Hday _ IH]; [done|].
  cbn [map foldr]. rewrite IH. destruct (decide (day = k)) as [->|Hne].
  - rewrite Hk. rewrite (bool_decide_eq_true_2 (k ∈ k :: days)) by by left.
    rewrite (bool_decide_eq_false_2 (k ∈ days)) by done. lia.
  - rewrite (Hother day Hne). 
    destruct (bool_decide (k ∈ days)) eqn:Hin.
    + apply bool_decide_eq_true in Hin.
      rewrite (bool_decide_eq_true_2 (k ∈ day :: days)) by by right. lia.
    + apply bool_decide_eq_false in Hin.
      rewrite (bool_decide_eq_false_2 (k ∈ day :: days)); [lia|].
      rewrite elem_of_cons. intros [?|?]; congruence.
Qed.

(** [SUM] over the rows of a window, day by day. *)
Lemma sum_rows_between (m : gmap Z stats_row) lo (n : nat) g :
  foldr Z.add 0 (map (in_window lo (lo + Z.of_nat n - 1) g) (map_to_list m))
  = foldr Z.add 0 (map (fun day => match m !! day with Some row => g row | None => 0 end)
                     (seqZ lo (Z.of_nat n))).
Proof.
  induction m as [|k row m Hk IH] using map_ind.
  - rewrite map_to_list_empty. cbn [map foldr].
    induction (seqZ lo (Z.of_nat n)) as [|day days IHd]; [done|].
    cbn [map foldr]. by rewrite lookup_empty, <- IHd.
  - rewrite (sum_window_perm _ _ _ _ _ (map_to_list_insert m k row Hk)).
    cbn [map foldr]. unfold date in *. rewrite IH.
    rewrite (sum_point (fun day => match m !! day with Some r => g r | None => 0 end)
               (fun day => match <[k:=row]> m !! day with Some r => g r | None => 0 end)
               k (g row) (seqZ lo (Z.of_nat n))).
    + unfold in_window. cbn [fst snd].
      destruct (bool_decide (k ∈ seqZ lo (Z.of_nat n))) eqn:Hin.
      * apply bool_decide_eq_true in Hin. apply elem_of_seqZ in Hin.
        destruct (Z.leb_spec lo k); [|lia].
        destruct (Z.leb_spec k (lo + Z.of_nat n - 1)); [|lia]. cbn [andb]. lia.
      * apply bool_decide_eq_false in Hin. rewrite elem_of_seqZ in Hin.
        destruct (Z.leb_spec lo k); [|cbn [andb]; lia].
        destruct (Z.leb_spec k (lo + Z.of_nat n - 1)); [lia|]. cbn [andb]. lia.
    + apply NoDup_seqZ.
    + intros day Hne. by rewrite lookup_insert_ne.
    + by rewrite lookup_insert_eq, Hk.
Qed.

Lemma sum_of_window column lo (n : nat) today d :
  column zero_stats = 0 ->
  sum_of column (rows_between lo (lo + Z.of_nat n - 1) d) = daily_sum today d column lo n.
Proof.
  intros Hzero. unfold sum_of, rows_between, daily_sum.
  rewrite sum_filter_window, sum_rows_between. f_equal. apply map_ext. intros day.
  unfold get_daily_stats. cbn [from_option id].
  unfold date in *. destruct (daily_stats d !! day); [reflexivity|symmetry; exact Hzero].
Qed.

Lemma count_window lo (n : nat) d :
  length (rows_between lo (lo + Z.of_nat n - 1) d) = tracked_days d lo n.
Proof.
  apply Nat2Z.inj. unfold rows_between, tracked_days.
  transitivity (foldr Z.add 0 (map (fun kv : date * stats_row => 1)
                  (List.filter (fun kv => (lo <=? fst kv) && (fst kv <=? lo + Z.of_nat n - 1))
                     (map_to_list (daily_stats d))))).
  { induction (List.filter _ _) as [|kv l IH]; cbn [length map foldr]; lia. }
  rewrite (sum_filter_window lo (lo + Z.of_nat n - 1) (fun _ => 1)), sum_rows_between.
  induction (seqZ lo (Z.of_nat n)) as [|day days IH]; [done|].
  cbn [map foldr List.filter]. rewrite IH.
  destruct (daily_stats d !! day) as [row|] eqn:Hday.
  - rewrite bool_decide_eq_true_2 by by eexists. cbn [length]. lia.
  - rewrite bool_decide_eq_false_2 by (by intros [? ?]). lia.
Qed.

(** X21: the category counts that [get_weekly_stats] reports are the sums
    of what [get_daily_stats] reports for the seven days of the week; its
    [total_corrections] is the number of those days that have a
    DailyCounter row, so it never exceeds 7. *)
Theorem weekly_stats_of_days today weeks_back d ws :
  get_weekly_stats today weeks_back d = Ok ws ->
  spelling_count (week_stats ws) = daily_sum today d spelling_count (week_start ws) 7
  /\ grammar_count (week_stats ws) = daily_sum today d grammar_count (week_start ws) 7
  /\ style_count (week_stats ws) = daily_sum today d style_count (week_start ws) 7
  /\ vocabulary_count (week_stats ws) = daily_sum today d vocabulary_count (week_start ws) 7
  /\ total_corrections (week_stats ws) = Z.of_nat (tracked_days d (week_start ws) 7)
  /\ total_corrections (week_stats ws) <= 7.
Proof.
  intros Hws.
  apply get_weekly_stats_window in Hws as (_ & _ & Hend & Hsp & Hgr & Hst & Hvo & Htotal).
  assert (week_end ws = week_start ws + Z.of_nat 7 - 1) as Hwindow by lia.
  rewrite Hwindow in *.
  rewrite sum_of_window with (today := today) in Hsp, Hgr, Hst, Hvo by done.
  rewrite count_window in Htotal.
  split_and!; try done. rewrite Htotal. unfold tracked_days.
  pose proof (filter_length_le
                (fun day => bool_decide (is_Some (daily_stats d !! day)))
                (seqZ (week_start ws) (Z.of_nat 7))) as Hle.
  rewrite length_seqZ in Hle. lia.
Qed.

End WeekDays.
(** ** Further runs *)

Section MoreRuns.
Existing Instance basic_tables.

(** Standard input that does not hold JSON. *)
Lemma main_answers_once_witness :
  let w' := snd (check_grammar.main (calm monday finds) (Raise TypeError) world0) in
  fst (check_grammar.main (calm monday finds) (Raise TypeError) world0) = 0
  /\ stdout w' = stdout world0 ++ [LHookResponse].
Proof. intros w'. by apply (main_answers_once (calm monday finds) (Raise TypeError) world0). Defined.

(** An outcome that is marked skipped and reports an error. *)
Lemma main_without_record_witness :
  let E := calm monday (fun _ _ => claude_api.Response answer_skipped) in
  let t := str "my key is sk-ant-123" in
  py.get (JObj skipped_fields) (str "has_errors") JNull = Ok (JBool true)
  /\ check_grammar.main E (hook_input t) world0
     = (0, add_stdout LHookResponse
             (advance 1 (add_event (EvAnalyze t (JObj skipped_fields))
                           (add_event (EvAdmission (JStr t) (Ok true)) world0)))).
Proof.
  intros E t. split; [by vm_compute|].
  apply (main_without_record E [(str "prompt", JStr t)] t skipped_fields world0);
    by vm_compute.
Defined.

(** A database that fails while the findings are inserted. *)
Lemma main_store_failure_witness :
  let E := failing_store 6 (calm monday finds) in
  let t := str "I has a error in my code" in
  let w1 := advance 1 (add_event (EvAnalyze t (JObj findings_fields))
                         (add_event (EvAdmission (JStr t) (Ok true)) world0)) in
  let w2 := snd (calls.save_to_obsidian E (JStr t) (JObj findings_fields) w1) in
  let w' := snd (check_grammar.main E (hook_input t) world0) in
  length <$> (notes w2 !! monday) = Some 1%nat
  /\ store w' = store world0 /\ notes w' = notes w2
  /\ stderr w' = stderr w2 ++ [LError DatabaseError]
  /\ stdout w' = stdout world0 ++ [LHookResponse]
  /\ exists u e b s,
       events w' = events w2 ++ [EvStore (JStr t) u e b s (Raise DatabaseError)].
Proof.
  intros E t w1 w2 w'. split; [by vm_compute|].
  apply (main_store_failure E [(str "prompt", JStr t)] t findings_fields world0 true w2
           DatabaseError sqlite.empty); by vm_compute.
Defined.

(** The queue of four entries: two are counted as OK, one is still
    failed, one has no prompt. *)
Lemma main_accounts_for_every_entry_witness :
  let E := calm monday flaky in
  let w := queue_world sample_queue in
  let w' := snd (recall.main E w) in
  exists st,
    last (events w') = Some (EvNotify (recall.summary (Z.of_nat (length sample_queue)) st))
    /\ retry_queue w' = Some (JArr (recall.still_failed st))
    /\ recall.success_count st + Z.of_nat (length (recall.still_failed st))
       + Z.of_nat (length (List.filter passed_over sample_queue))
       = Z.of_nat (length sample_queue).
Proof.
  intros E w w'.
  apply (main_accounts_for_every_entry E sample_queue w w'); [done|done|by vm_compute].
Defined.

Lemma main_findings_are_records_witness :
  let E := calm monday flaky in
  let w := queue_world sample_queue in
  let w' := snd (recall.main E w) in
  exists st new,
    last (events w') = Some (EvNotify (recall.summary (Z.of_nat (length sample_queue)) st))
    /\ events w' = events w ++ new
    /\ recall.findings_count st = Z.of_nat (count is_store new)
    /\ count is_log new = count is_store new
    /\ recall.findings_count st <= recall.success_count st.
Proof.
  intros E w w'.
  apply (main_findings_are_records E sample_queue w w'); [done|done|by vm_compute].
Defined.

(** Two entries with findings and a database that fails at the second
    record: the first entry is recorded and both stay queued. *)
Lemma main_raise_keeps_queue_witness :
  let E := store_fails_from 5 (calm monday finds) in
  let w := queue_world twice_queue in
  let w' := snd (recall.main E w) in
  fst (recall.main E w) = Raise DatabaseError
  /\ length (sqlite.corrections (store w')) = 1%nat
  /\ (retry_queue w' = retry_queue w
      \/ (retry_queue w' = None
          /\ exists queue, last (events w') = Some (EvSaveQueue queue Truncated))).
Proof.
  intros E w w'. split; [by vm_compute|]. split; [by vm_compute|].
  apply (proj2 (main_raise_keeps_queue E) w DatabaseError w'). by vm_compute.
Defined.

(** The windows of three and of four weeks ago, seen from a Wednesday. *)
Lemma weekly_windows_tile_witness :
  let ws := {| db.week_start := monday - 21; db.week_end := monday - 15;
               db.week_stats := db.zero_stats |} in
  let ws' := {| db.week_start := monday - 28; db.week_end := monday - 22;
                db.week_stats := db.zero_stats |} in
  db.get_weekly_stats (monday + 2) 3 sqlite.empty = Ok ws
  /\ db.get_weekly_stats (monday + 2) 4 sqlite.empty = Ok ws'
  /\ db.week_end ws' + 1 = db.week_start ws.
Proof.
  intros ws ws'. split; [by vm_compute|]. split; [by vm_compute|].
  apply (proj2 (weekly_windows_tile (monday + 2) sqlite.empty) 3 ws ws'); by vm_compute.
Defined.

(** A second Correction of the day, stored later than the first. *)
Lemma saved_correction_is_read_first_witness :
  let d := spec.history (firstn 1 sample_calls) in
  let now := {| ts_date := monday; ts_micros := 5 |} in
  let d' := snd (spec.perform (sample_call no_fault 5 three_findings) d) in
  exists crow rows findings,
    head (db.get_daily_corrections monday (Some (ts_date now)) d')
    = Some {| db.dc_row := crow; db.dc_errors := rows |}
    /\ sqlite.c_id crow = 2 /\ sqlite.c_timestamp crow = now
    /\ sqlite.errors d' = sqlite.errors d ++ rows
    /\ py.iter (JArr three_findings) = Ok findings
    /\ spec.categories_of findings = Some (map sqlite.e_category rows).
Proof.
  intros d now d'.
  apply (saved_correction_is_read_first no_fault now monday
           (JStr (str "I has writed teh code")) (JStr (str "I has writed teh code"))
           (JArr three_findings) (JStr (str "I have written the code")) JNull d 2 d').
  - split_and!; [by vm_compute|by vm_compute|]. vm_compute. repeat constructor; done.
  - vm_compute. repeat constructor.
  - by vm_compute.
Defined.

(** The box of the module's own test: eight lines of 26 characters. *)
Lemma summary_box_is_rectangular_witness :
  one_line box_title /\ Forall one_line box_items
  /\ length (lines_of (charts.summary_box box_title box_items)) = 8%nat
  /\ Forall (fun line => Z.of_nat (length line) = 26)
       (lines_of (charts.summary_box box_title box_items)).
Proof.
  assert (one_line box_title) as Htitle by (by apply (bool_decide_unpack _)).
  assert (Forall one_line box_items) as Hitems by (by apply (bool_decide_unpack _)).
  split; [exact Htitle|]. split; [exact Hitems|].
  pose proof (summary_box_is_rectangular box_title box_items Htitle Hitems) as Hbox.
  split; [exact (proj1 Hbox)|exact (proj1 (proj2 Hbox))].
Defined.

(** The file is loaded into an empty environment, and once more. *)
Lemma load_env_file_twice_witness :
  let env' := claude_api.environment_of (claude_api.load_env_file (Some env_lines) ∅) in
  env' !! str "ANTHROPIC_API_KEY" = Some (str "sk-test")
  /\ env' !! str "MODEL" = Some (str "a=b")
  /\ claude_api.load_env_file (Some env_lines) env' = claude_api.EnvLoaded env'.
Proof.
  intros env'. split; [by vm_compute|]. split; [by vm_compute|].
  apply (load_env_file_twice (Some env_lines) ∅ env'). by vm_compute.
Defined.

(** An assignment with white space around the key and the value. *)
Lemma load_line_assignment_witness :
  claude_api.load_line (str " MODEL " ++ 61 :: str " a=b ") ∅
  = claude_api.setdefault (strip (str " MODEL ")) (strip (str " a=b ")) ∅
  /\ claude_api.setdefault (strip (str " MODEL ")) (strip (str " a=b ")) ∅
     = Some {[ str "MODEL" := str "a=b" ]}.
Proof.
  split; [|by vm_compute].
  apply (load_line_assignment (str " MODEL ") (str " a=b ") ∅); [|by vm_compute].
  by apply (bool_decide_unpack _).
Defined.

(** A message between two blanks and a newline. *)
Lemma should_check_grammar_padding_witness :
  language_detect.should_check_grammar (str "  " ++ str "I has a error" ++ [10])
  = language_detect.should_check_grammar (str "I has a error").
Proof.
  apply (should_check_grammar_padding (str "  ") (str "I has a error") [10]);
    repeat constructor.
Defined.

(** A week with two Corrections on its Monday: one day with a row. *)
Lemma weekly_stats_of_days_witness :
  let d := spec.history [sample_call no_fault 1 three_findings;
                         sample_call no_fault 2 three_findings] in
  let ws := {| db.week_start := monday; db.week_end := monday + 6;
               db.week_stats :=
                 {| sqlite.total_corrections := 1; sqlite.spelling_count := 2;
                    sqlite.grammar_count := 4; sqlite.style_count := 0;
                    sqlite.vocabulary_count := 0 |} |} in
  db.get_weekly_stats (monday + 2) 0 d = Ok ws
  /\ daily_sum (monday + 2) d sqlite.grammar_count monday 7 = 4
  /\ tracked_days d monday 7 = 1%nat.
Proof.
  intros d ws.
  assert (db.get_weekly_stats (monday + 2) 0 d = Ok ws) as Hws by (by vm_compute).
  split; [exact Hws|].
  destruct (weekly_stats_of_days (monday + 2) 0 d ws Hws) as (_ & Hgr & _ & _ & Htotal & _).
  split; [exact (eq_sym Hgr)|]. apply Nat2Z.inj. exact (eq_sym Htotal).
Defined.

End MoreRuns.
